(* ===== verification/_CoqProject ===== *)
-Q . S2P
Prelude.v
JsValue.v
JsHeap.v
JsMonad.v
Trainwreck.v
Demo.v
Closures.v
Wrapper.v
Chaining.v
Exports.v
Spec.v
Methods.v
Library.v
Sharing.v
