(* ===== verification/Prelude.v ===== *)
(** * A verification development of trainwreck.js

    trainwreck.js (src/trainwreck.js, 70 lines) is a JavaScript library of
    three functions kept on one object [trainwreck]:
    - [fn(fnName, scope, chain)] returns a closure that calls
      [scope[fnName].apply(scope, arguments) || chain];
    - [prop(propName, scope, chain)] returns a closure [function(val)]
      that reads [scope[propName]] when [val] is undefined, and otherwise
      assigns [scope[propName] = val] and returns [chain];
    - [create(target)] allocates [obj = {}] and, for every key [prop] that
      [for (prop in target)] enumerates, stores in [obj[prop]] the closure
      [fn(prop, target, obj)] when [typeof target[prop] === 'function'] and
      [prop(prop, target, obj)] otherwise; it returns [obj];
    and a prologue (lines 61-69) that exports the object through AMD
    [define], CommonJS [module.exports] or a property of the global object.

    The components interact only through the JavaScript heap: the closures
    capture [scope] (the target) and [chain] (the wrapper) by reference,
    look the target's property up again at every call, and write through
    to the target.  The development therefore models the part of the
    JavaScript object model the library relies on, and the library on top
    of it.

    ** Files, in dependency order
    - [Prelude] (this file): the [tw_scope] notation scope, the [tw] hint
      and rewrite databases, the tactics of the development, and ordered
      association lists, which model the own properties of an object in
      insertion order.
    - [JsValue]: JavaScript values ([undefined], [null], booleans, IEEE
      doubles as primitive floats, strings, object references), ToBoolean
      (the truthiness behind [||]) and the decimal keys of string indices.
    - [JsHeap]: objects (own properties with their [writable] and
      [enumerable] attributes, prototype link, extensibility, and the code
      of a function object), the heap with its allocation pointer and its
      realm (the built-in prototypes), [[Get]] along the prototype chain,
      sloppy-mode [[Set]] (OrdinarySet: a write to a read-only or
      non-extensible target is silently dropped), [typeof], and the key
      list of a [for-in] loop (each object's keys in OrdinaryOwnPropertyKeys
      order, array indices ascending then the others in insertion order;
      own enumerable keys first, then the prototype's, shadowed keys
      skipped), and what [f.apply] finds ([get_apply]; the built-in
      [Function.prototype.apply] is not stored as a property, and
      [fp_apply] says what a fresh function finds), with the [arguments]
      object of a call ([new_arguments]).  The heap is parameterised by
      the type of function code so that it knows nothing of the library.
    - [JsMonad]: the state-and-exception monad [M] in which JavaScript
      code runs: a computation takes a heap and returns a value or a thrown
      error ([TypeError], [RangeError] for stack exhaustion, a thrown
      value, [Unmodelled] for the conversions left out) together with the
      heap at that point, so that effects done before an exception stay
      visible (no rollback).
    - [Trainwreck]: the library.  [code] is the type of function code
      ([FnAdapter], [PropAccessor] capturing the triple of [fn] and
      [prop]; [LibFn], [LibProp], [LibCreate lib] for the three functions
      of the library object; [Native] functions of the host program);
      [fn], [prop] and [create] (with its loop [create_loop]) allocate the
      closures as lines 19-57 do, [create] with line 54's two calls
      resolved to [fn] and [prop]; [create_lib] is line 54 as written,
      reading [trainwreck.fn] / [trainwreck.prop] on the library object
      at every key ([lib_make]); [make_library] is the object literal of
      lines 9-59; [fn_body] and [prop_body] are the closures' bodies,
      [fn_body] with line 21's lookup of [.apply] on the method
      ([get_apply] of [JsHeap]: the built-in [Function.prototype.apply],
      which calls the method with [this] [scope], unless an ["apply"]
      property is met first on the method's chain, which is then called
      with the [arguments] object, [call_with_arguments]);
      [call n f this args] runs a function object with a fuel [n] that is
      the depth of the JavaScript call stack (a call with none left throws
      the engine's stack-overflow [RangeError]; a non-callable value throws
      [TypeError] first, as [[Call]] does).  The host program's own methods
      are a type class [Host] whose functions receive the interpreter as a
      callback, so that a method may call back into wrappers.
    - [Demo]: a concrete realm and host program (the target of the
      specification's scenario, a target with an identity and a throwing
      method, an empty object), on which every witness is evaluated by
      [vm_compute]; its well-formedness is decided by [heap_wf_dec].
    - [Closures]: one call to an accessor or an adapter, for every heap and
      host (section [Closures] over [Context `{!Host}]).
    - [Wrapper]: [create], proved through a loop invariant ([loop_inv], a
      section whose hypotheses are the well-formed initial heap, the
      allocated target and the fresh wrapper location).
    - [Chaining]: calls composed through the wrapper [create] returns:
      chained setters, late binding, stack overflow of a re-entrant
      adapter, and the wrapping of inherited keys.
    - [Exports]: lines 61-69, with [define] and [module] as identifiers
      that may be undeclared and the global object as a parameter, and
      [module_init], the whole file (lines 7-71).
    - [Spec]: the abstract facade, a store [gmap string value] with reads
      and writes, and the refinement of the wrapper against it: the
      abstraction function [abs] reads the target's own properties, the
      simulation relation [facade_rel] says the wrapper's members are
      intact accessors on writable members of the target.
    - [Methods]: the abstract facade with methods (store transformers
      with an answer), the interface [MethodImpl] a host program's
      methods meet (a class: the client theorem is proved against it,
      [Demo]'s [greet] is an instance), and the refinement of programs
      mixing reads, writes and method calls.
    - [Library]: [lib_intact] (the library object holds its own three
      functions) and the equivalence of [create_lib] with [create] under
      it, proved step by step against [Wrapper]'s loop invariant; what
      loading the module under CommonJS gives a client, and under an AMD
      loader, stated against the loader's interface (the class
      [AmdLoader]: [define(id, value)] stores [value] in the loader's
      registry; [Demo]'s [define] is an instance).
    - [Sharing]: two wrappers of one target, keys added after wrapping,
      and a wrapper of a wrapper.

    ** What the theorems show
    - The specification's P1-P6 (C1-C7): the wrapper's own keys are the
      keys [for-in] enumerates on the target, inherited enumerable ones
      included, minus those a read-only property of [Object.prototype]'s
      chain blocks (C1); each is bound to the closure line 54 chooses
      (C2); an accessor called without a defined argument (none, or an
      explicit [undefined]) is a pure read (C3); with one it writes
      through [[Set]] and returns the wrapper (C4); an adapter returns
      the method's result when it is truthy and the wrapper otherwise,
      with the heap the method left (C5, C6); two setters chain (C7).
    - Errors: a method's exception propagates with its heap (C8); a
      missing or non-callable method throws [TypeError] without effect
      (C9); the exports' three paths and the [TypeError] of a [null]
      [module] (C16-C19).
    - Round trip of write-then-read (C10); frame of [create]: every
      object of the heap is left unchanged (C11); stack overflow of a
      self-referential adapter at every depth (C12); late binding:
      reassigning [target.k] after wrapping redirects [w.k] to the new
      value (C15).
    - Where the code and the specification disagree: inherited keys are
      wrapped, and a write through such a key adds an own key to the
      target (C13); a write to a read-only property is silently dropped
      instead of raising (C14).
    - Refinement (C20): any program of reads and writes on data members
      run through the wrapper answers and updates the target as the
      abstract facade over a [gmap] store does.
    - The library object (C21-C23): its three methods are [fn], [prop]
      and [create] while it is intact; [require('trainwreck').create]
      under CommonJS is [create]; a client replacing [trainwreck.prop]
      by a function has it called by [create] at the first data key,
      and its exception is [create]'s.
    - Sharing (C24-C26, C28): two wrappers of a target see each other's
      writes; a key added to the target later is not a member of the
      wrapper; a write through a wrapper of a wrapper returns the inner
      wrapper, and a falsy read through it the outer one.
    - Refinement with methods (C27): programs of reads, writes and
      method calls through the wrapper against the abstract facade with
      methods, for any host meeting [MethodImpl]; the section 8 scenario
      is its witness.
    - Key order (C29): on every object target the wrapper's members
      follow [for-in]'s order: the target's own enumerable array-index
      keys in ascending order, its other own keys in insertion order,
      then exactly the inherited keys.
    - Line 21's [.apply] (C30): a method with its own or an inherited
      ["apply"] property has that function called, with the method as
      [this] and the target and the [arguments] object as arguments.
      The theorems on the built-in path (C5, C6, C8, C12, C15, C26, C27,
      C28) state it as a hypothesis ([get_apply h m = Some ApplyBuiltin],
      or [fp_apply h = ApplyBuiltin] for the closures [create] makes,
      which have no own property: [loop_inv] keeps them untouched).
    - AMD end to end (C31): with an AMD [define], loading the file
      registers the library with the loader, and the registered
      module's [create] is [create].

    ** Bounds and fuel
    Prototype chains are walked with a fuel equal to the allocation
    pointer: under the invariant that a prototype is older than the
    objects inheriting from it (true of every object built by object
    literals, [Object.create] and [new]), no chain is longer, and
    [chain_from_fuel] shows that more fuel changes nothing.  The call fuel
    is a stack depth: every theorem on a successful call either exhibits
    the depth it needs or is stated for every depth.

    ** Not modelled
    Accessor properties (getters and setters, hence [__proto__]), Proxy
    objects, symbols and BigInt; the non-enumerable own properties of
    function objects ([length], [name], [prototype]) and the [callee] and
    iterator of [arguments] (the model's [arguments] object is allocated
    only when a non-built-in [apply] can observe it); string
    characters are single code units ([ascii]); ToPropertyKey of a number
    or an object passed as [fnName] / [propName] to [trainwreck.fn] /
    [trainwreck.prop] (Number::toString of a double, a call of
    [toString]): the model stops with [Unmodelled] there.  [create]
    itself only passes strings.

    ** Plan for the next steps
    1. A host method that reads [arguments] through a custom [apply]
       (the [arguments] object as a client of C30 sees it).
    2. An AMD loader that takes the module as a factory function (the
       library passes an object, so the model's class leaves factories
       out). *)

From stdpp Require Export base list gmap strings.

Declare Scope tw_scope.
Delimit Scope tw_scope with tw.

Create HintDb tw discriminated.
Create Rewrite HintDb tw_rw.

(** ** Ordered association lists

    The own properties of a JavaScript object keep their insertion order,
    which [for-in] observes; an ordered association list models them.
    Updating an existing key keeps its position ([assoc_replace]); a new
    key goes last ([l ++ [(k, a)]]). *)

Section Assoc.
Context {A : Type}.

Fixpoint assoc (k : string) (l : list (string * A)) : option A :=
  match l with
  | [] => None
  | (k', a) :: l' => if String.eqb k k' then Some a else assoc k l'
  end.

(** Replace the value at [k] in place; no change when [k] is absent. *)
Fixpoint assoc_replace (k : string) (a : A) (l : list (string * A))
    : list (string * A) :=
  match l with
  | [] => []
  | (k', b) :: l' =>
      if String.eqb k k' then (k', a) :: l' else (k', b) :: assoc_replace k a l'
  end.

Definition assoc_keys (l : list (string * A)) : list string := map fst l.

Lemma assoc_app k l1 l2 :
  assoc k (l1 ++ l2) = match assoc k l1 with Some a => Some a | None => assoc k l2 end.
Proof. induction l1 as [|[k' b] l1 IH]; simpl; [done|]. by destruct (String.eqb k k'). Qed.

Lemma assoc_replace_eq k a l :
  assoc k (assoc_replace k a l) = (fun _ => a) <$> assoc k l.
Proof.
  induction l as [|[k' b] l IH]; simpl; [done|].
  destruct (String.eqb_spec k k'); simpl.
  - by rewrite (proj2 (String.eqb_eq k k') e).
  - by rewrite (proj2 (String.eqb_neq k k') n).
Qed.

Lemma assoc_replace_ne k k2 a l :
  k2 <> k -> assoc k2 (assoc_replace k a l) = assoc k2 l.
Proof.
  intros Hne. induction l as [|[k' b] l IH]; simpl; [done|].
  destruct (String.eqb_spec k k'); simpl; [|by rewrite IH].
  subst. by rewrite (proj2 (String.eqb_neq k2 k') Hne).
Qed.

Lemma assoc_replace_keys k a l : assoc_keys (assoc_replace k a l) = assoc_keys l.
Proof.
  induction l as [|[k' b] l IH]; simpl; [done|].
  destruct (String.eqb k k'); simpl; by rewrite ?IH.
Qed.

Lemma assoc_None_keys k l : assoc k l = None <-> k ∉ assoc_keys l.
Proof.
  induction l as [|[k' b] l IH]; simpl.
  - split; [set_solver | done].
  - destruct (String.eqb_spec k k'); subst; [split; [done|set_solver]|].
    rewrite IH. set_solver.
Qed.

Lemma assoc_Some_keys k l a : assoc k l = Some a -> k ∈ assoc_keys l.
Proof.
  intros H. destruct (decide (k ∈ assoc_keys l)) as [|Hn]; [done|].
  apply assoc_None_keys in Hn. congruence.
Qed.

Lemma assoc_Some_elem k a l : assoc k l = Some a -> (k, a) ∈ l.
Proof.
  induction l as [|[k' b] l IH]; simpl; [done|].
  destruct (String.eqb_spec k k') as [<-|]; [intros [= ->]; set_solver|set_solver].
Qed.

Lemma elem_assoc_Some k a l : NoDup (assoc_keys l) -> (k, a) ∈ l -> assoc k l = Some a.
Proof.
  induction l as [|[k' b] l IH]; simpl; [set_solver|].
  unfold assoc_keys. simpl. intros Hnd Hin. apply NoDup_cons in Hnd as [Hk Hnd].
  destruct (String.eqb_spec k k') as [->|Hne].
  - apply elem_of_cons in Hin as [[= ->]|Hin]; [done|].
    exfalso. apply Hk. apply list_elem_of_fmap. by exists (k', a).
  - apply elem_of_cons in Hin as [[= -> ->]|Hin]; [done|by apply IH].
Qed.

(** The value at a key does not depend on the order of an association
    list with distinct keys. *)
Lemma assoc_perm k l l' : NoDup (assoc_keys l) -> l ≡ₚ l' -> assoc k l' = assoc k l.
Proof.
  intros Hnd Hp. assert (Hnd' : NoDup (assoc_keys l')).
  { unfold assoc_keys in *. by rewrite <-Hp. }
  destruct (assoc k l) as [a|] eqn:E.
  - apply elem_assoc_Some; [done|]. rewrite <-Hp. by apply assoc_Some_elem.
  - destruct (assoc k l') as [b|] eqn:E'; [|done].
    apply assoc_Some_elem in E'. rewrite <-Hp in E'. by rewrite (elem_assoc_Some k b l) in E.
Qed.

Lemma assoc_keys_Some k l : k ∈ assoc_keys l -> is_Some (assoc k l).
Proof.
  intros Hk. destruct (assoc k l) eqn:E; [by eexists|].
  by apply assoc_None_keys in E.
Qed.
End Assoc.

#[export] Hint Rewrite @assoc_replace_keys : tw_rw.
#[export] Hint Resolve assoc_Some_keys : tw.

(** ** Tactics of the development *)

(** Case on a string comparison in the goal, keeping the equation. *)
Ltac case_streq :=
  match goal with
  | |- context [String.eqb ?a ?b] => destruct (String.eqb_spec a b); subst
  end.
