(* ===== verification/JsValue.v ===== *)
(** * JavaScript values

    The values the library handles: [undefined], [null], booleans, numbers
    (IEEE doubles, as Rocq's primitive floats), strings and references to
    heap objects (functions are objects whose record carries code, see
    [JsHeap]).  ToBoolean, the conversion behind [||] at line 21 of
    src/trainwreck.js, the property keys a string primitive has, and
    the array-index test behind [for-in]'s key order with its bound
    [2^32 - 1]. *)

From S2P Require Import Prelude.
From stdpp Require Import pretty.
From Stdlib Require Export PrimFloat.
From Stdlib Require Import Uint63 Ascii.

(** Heap locations. *)
Abbreviation loc := positive.

Inductive value :=
  | VUndef
  | VNull
  | VBool (b : bool)
  | VNum (n : float)
  | VStr (s : string)
  | VObj (l : loc).

(** ToBoolean (ECMA-262 7.1.2): [undefined], [null], [false], [+0], [-0],
    [NaN] and [""] are falsy; every other value, objects included, is
    truthy.  [PrimFloat.eqb] is IEEE equality, so [-0 == 0] holds and
    [NaN == NaN] does not. *)
Definition to_boolean (v : value) : bool :=
  match v with
  | VUndef | VNull => false
  | VBool b => b
  | VNum n => negb (PrimFloat.eqb n 0%float || PrimFloat.is_nan n)
  | VStr s => negb (String.eqb s "")
  | VObj _ => true
  end.

(** [a || b] once both operands are evaluated: [b] is the variable
    [chain] at line 21, whose evaluation has no effect. *)
Definition js_or (a b : value) : value := if to_boolean a then a else b.

(** Whether a value is [undefined]: the test [typeof val === 'undefined']
    of line 35 holds exactly for it (undeclared variables cannot occur:
    [val] is a parameter). *)
Definition is_undefined (v : value) : bool :=
  match v with VUndef => true | _ => false end.

(** ** String primitives as objects

    A string primitive has own enumerable index properties ["0"], ["1"],
    ... holding its characters, and a non-enumerable ["length"]. *)

(** ToPropertyKey of a primitive that is not a number: ToString.
    Numbers (Number::toString of a double) and objects (a call of their
    [toString]) are not modelled: [None]. *)
Definition key_of (v : value) : option string :=
  match v with
  | VStr s => Some s
  | VUndef => Some "undefined"
  | VNull => Some "null"
  | VBool true => Some "true"
  | VBool false => Some "false"
  | VNum _ | VObj _ => None
  end.

Definition index_key (i : nat) : string := pretty i.

(** ** Array indices (ECMA-262, 6.1.7)

    A key is an array index when it is the canonical decimal form of an
    integer below [2^32 - 1].  Such keys come first, in ascending order,
    among an object's own keys (OrdinaryOwnPropertyKeys), which [for-in]
    follows. *)

Definition digit_value (c : ascii) : option N :=
  let n := Ascii.nat_of_ascii c in
  if (48 <=? n)%nat && (n <=? 57)%nat then Some (N.of_nat (n - 48)) else None.

Fixpoint digits_value (cs : list ascii) (acc : N) : option N :=
  match cs with
  | [] => Some acc
  | c :: cs' => digit_value c ≫= fun d => digits_value cs' (acc * 10 + d)%N
  end.

Definition array_index (k : string) : option N :=
  match String.list_ascii_of_string k with
  | [] => None
  | c :: cs =>
      if Ascii.eqb c (Ascii.ascii_of_nat 48) && negb (bool_decide (cs = [])) then None
      else digits_value (c :: cs) 0 ≫= fun n => if (n <? 4294967295)%N then Some n else None
  end.

Definition string_index_keys (s : string) : list string :=
  map index_key (seq 0 (String.length s)).

(** The index a key denotes in [s], if any. *)
Definition string_index_of (s : string) (k : string) : option nat :=
  list_find (fun i => index_key i = k) (seq 0 (String.length s)) ≫= fun '(_, i) => Some i.

Definition nat_to_number (n : nat) : float :=
  PrimFloat.of_uint63 (Uint63.of_Z (Z.of_nat n)).

(** [s[k]] on the string itself: a one-character string at an index, its
    length at ["length"], nothing else (the rest is inherited). *)
Definition string_own_get (s : string) (k : string) : option value :=
  if String.eqb k "length" then Some (VNum (nat_to_number (String.length s)))
  else match string_index_of s k with
       | Some i => (fun c => VStr (String c EmptyString)) <$> String.get i s
       | None => None
       end.

(** ** Facts *)

Lemma js_or_truthy a b : to_boolean a = true -> js_or a b = a.
Proof. unfold js_or. by intros ->. Qed.

Lemma js_or_falsy a b : to_boolean a = false -> js_or a b = b.
Proof. unfold js_or. by intros ->. Qed.

#[export] Hint Rewrite js_or_truthy js_or_falsy using done : tw_rw.

Lemma index_key_inj i j : index_key i = index_key j -> i = j.
Proof. apply pretty_nat_inj. Qed.

Lemma digit_value_char d : (d < 10)%N -> digit_value (pretty_N_char d) = Some d.
Proof.
  intros Hd. assert (d = 0 \/ d = 1 \/ d = 2 \/ d = 3 \/ d = 4 \/ d = 5 \/ d = 6
                     \/ d = 7 \/ d = 8 \/ d = 9)%N as Hc by lia.
  by repeat destruct Hc as [->|Hc]; [..|subst].
Qed.

Lemma digits_value_pretty x s acc :
  exists m, digits_value (String.list_ascii_of_string (pretty_N_go x s)) acc
            = digits_value (String.list_ascii_of_string s) (acc * m + x)%N.
Proof.
  revert s acc. induction (N.lt_wf_0 x) as [x _ IH]; intros s acc.
  destruct (decide (x = 0)%N) as [->|Hx]; [exists 1%N; rewrite pretty_N_go_0; f_equal; lia|].
  rewrite pretty_N_go_step by lia.
  destruct (IH (x `div` 10)%N ltac:(apply N.div_lt; lia)
              (String (pretty_N_char (x `mod` 10)) s) acc) as [m Hm].
  exists (m * 10)%N. rewrite Hm. simpl.
  rewrite digit_value_char by (apply N.mod_lt; lia). simpl. f_equal.
  rewrite (N.div_mod x 10) at 3 by lia. lia.
Qed.

Lemma pretty_N_go_head x s c cs :
  (0 < x)%N -> String.list_ascii_of_string (pretty_N_go x s) = c :: cs ->
  c <> Ascii.ascii_of_nat 48.
Proof.
  revert s c cs. induction (N.lt_wf_0 x) as [x _ IH]; intros s c cs Hx.
  rewrite pretty_N_go_step by lia.
  destruct (decide (x `div` 10 = 0)%N) as [Hq|Hq].
  - rewrite Hq, pretty_N_go_0. simpl. intros [= <- _].
    pose proof (N.div_mod x 10 ltac:(lia)) as Hdm. pose proof (N.mod_lt x 10 ltac:(lia)).
    rewrite Hq in Hdm. assert (x `mod` 10 = x)%N as -> by lia. assert (x < 10)%N by lia.
    assert (x = 1 \/ x = 2 \/ x = 3 \/ x = 4 \/ x = 5 \/ x = 6 \/ x = 7 \/ x = 8 \/ x = 9)%N
      as Hc by lia.
    by repeat destruct Hc as [->|Hc]; [..|subst].
  - apply IH; [apply N.div_lt; lia|]. apply N.neq_0_lt_0. exact Hq.
Qed.

Lemma pretty_N_go_cons x s : (0 < x)%N -> exists c s', pretty_N_go x s = String c s'.
Proof.
  revert s. induction (N.lt_wf_0 x) as [x _ IH]; intros s Hx.
  rewrite pretty_N_go_step by lia.
  destruct (decide (x `div` 10 = 0)%N) as [->|Hq]; [rewrite pretty_N_go_0; by eexists _, _|].
  apply IH; [apply N.div_lt; lia|]. apply N.neq_0_lt_0. exact Hq.
Qed.

(** The decimal key of a number parses back to it when it is below
    [2^32 - 1], and is no array index otherwise. *)
Lemma array_index_pretty_all (i : N) :
  array_index (pretty i) = if (i <? 4294967295)%N then Some i else None.
Proof.
  unfold array_index, pretty, pretty_N.
  destruct (decide (i = 0)%N) as [->|Hi0]; [done|].
  destruct (pretty_N_go_cons i "" ltac:(lia)) as (c & s' & E).
  destruct (digits_value_pretty i "" 0) as [m Hm].
  rewrite E in Hm |- *. cbn [String.list_ascii_of_string] in Hm |- *. rewrite Hm.
  rewrite (proj2 (Ascii.eqb_neq c _)).
  2:{ eapply (pretty_N_go_head i ""); [lia|]. rewrite E. reflexivity. }
  simpl. by replace (0 * m + i)%N with i by lia.
Qed.

Lemma array_index_pretty (i : N) : (i < 4294967295)%N -> array_index (pretty i) = Some i.
Proof. intros Hi. rewrite array_index_pretty_all. by rewrite (proj2 (N.ltb_lt _ _) Hi). Qed.

(** An index key is all digits; so it is never ["length"]. *)
Lemma index_key_digits i : is_Some (digits_value (String.list_ascii_of_string (index_key i)) 0).
Proof.
  unfold index_key, pretty, pretty_nat, pretty, pretty_N. case_decide; [by eexists|].
  destruct (digits_value_pretty (N.of_nat i) "" 0) as [m ->]. by eexists.
Qed.

Lemma index_key_not_length i : index_key i <> "length".
Proof. intros E. pose proof (index_key_digits i) as [d Hd]. rewrite E in Hd. discriminate. Qed.

Lemma string_index_keys_NoDup s : NoDup (string_index_keys s).
Proof.
  apply NoDup_fmap_2; [intros ??; apply index_key_inj | apply NoDup_seq].
Qed.
