(* ===== verification/JsHeap.v ===== *)
(** * The JavaScript heap

    Objects, the heap, and the internal operations of ECMA-262 that the
    library performs on them: [[Get]] along the prototype chain ([scope[k]]
    at lines 21, 36, 54), [[Set]] in sloppy mode ([scope[k] = val] at line
    38 and [obj[prop] = ...] at line 54; the file has no "use strict"),
    [typeof] (lines 35, 54), the keys of [for (prop in target)] (line 52)
    and allocation ([{}] at line 51, a function expression at lines 20 and
    34).  The heap is parameterised by the type [Code] of function bodies;
    [Trainwreck] instantiates it with the library's closures. *)

From stdpp Require Import sorting.
From S2P Require Import Prelude JsValue.

(** A data property with the attributes the library can observe.
    ([configurable] is never consulted: the library deletes nothing.) *)
Record property := mkProp { pvalue : value; pwritable : bool; penumerable : bool }.

(** The attributes of a property created by assignment. *)
Definition data_prop (v : value) : property := mkProp v true true.

Section Heap.
Context {Code : Type}.

(** An ordinary object: own properties in insertion order, prototype
    ([None] is [null]), [[Extensible]], and the code of a function
    object ([None] for a non-callable object). *)
Record obj := mkObj {
  oprops : list (string * property);
  oproto : option loc;
  oextensible : bool;
  ocode : option Code
}.

(** The built-in prototypes of the realm. *)
Record realm := mkRealm {
  object_prototype : option loc;
  function_prototype : option loc;
  string_prototype : option loc;
  number_prototype : option loc;
  boolean_prototype : option loc
}.

Record heap := mkHeap { hmem : gmap loc obj; hnext : loc; hrealm : realm }.

Definition set_props (o : obj) (ps : list (string * property)) : obj :=
  mkObj ps (oproto o) (oextensible o) (ocode o).

Definition heap_store (h : heap) (l : loc) (o : obj) : heap :=
  mkHeap (<[l := o]> (hmem h)) (hnext h) (hrealm h).

(** ** Allocation *)

Definition alloc (o : obj) (h : heap) : loc * heap :=
  (hnext h, mkHeap (<[hnext h := o]> (hmem h)) (Pos.succ (hnext h)) (hrealm h)).

(** [{}]: an empty extensible object inheriting from [Object.prototype]. *)
Definition new_object (h : heap) : loc * heap :=
  alloc (mkObj [] (object_prototype (hrealm h)) true None) h.

(** A function expression: a callable object inheriting from
    [Function.prototype].  Its own ["length"], ["name"] and
    ["prototype"] are not enumerable and never read by the library;
    they are left out. *)
Definition new_function (c : Code) (h : heap) : loc * heap :=
  alloc (mkObj [] (function_prototype (hrealm h)) true (Some c)) h.

(** ** Prototype chains *)

(** The objects of the chain starting at [lo], walked at most [fuel]
    steps. *)
Fixpoint chain_from (fuel : nat) (h : heap) (lo : option loc) : list loc :=
  match fuel, lo with
  | S n, Some l =>
      match hmem h !! l with
      | Some o => l :: chain_from n h (oproto o)
      | None => []
      end
  | _, _ => []
  end.

(** No chain is longer than the number of locations handed out. *)
Definition chain (h : heap) (lo : option loc) : list loc :=
  chain_from (Pos.to_nat (hnext h)) h lo.

Definition own_prop (h : heap) (l : loc) (k : string) : option property :=
  hmem h !! l ≫= fun o => assoc k (oprops o).

(** The first property named [k] along a list of objects. *)
Fixpoint lookup_in (h : heap) (ls : list loc) (k : string) : option property :=
  match ls with
  | [] => None
  | l :: ls' =>
      match own_prop h l k with
      | Some p => Some p
      | None => lookup_in h ls' k
      end
  end.

Definition prop_value (p : option property) : value :=
  match p with Some p => pvalue p | None => VUndef end.

(** The prototype a primitive is boxed with. *)
Definition primitive_proto (h : heap) (v : value) : option loc :=
  match v with
  | VBool _ => boolean_prototype (hrealm h)
  | VNum _ => number_prototype (hrealm h)
  | VStr _ => string_prototype (hrealm h)
  | _ => None
  end.

(** [v[k]] (GetValue on a property reference): [None] is the
    [TypeError] of a base [undefined] or [null]. *)
Definition get_value (h : heap) (v : value) (k : string) : option value :=
  match v with
  | VUndef | VNull => None
  | VObj l => Some (prop_value (lookup_in h (chain h (Some l)) k))
  | VStr s =>
      match string_own_get s k with
      | Some x => Some x
      | None => Some (prop_value (lookup_in h (chain h (primitive_proto h v)) k))
      end
  | _ => Some (prop_value (lookup_in h (chain h (primitive_proto h v)) k))
  end.

(** ** Sloppy-mode [[Set]] (OrdinarySet on a data property)

    An own writable property has its value replaced in place; an own
    read-only one blocks the write.  Otherwise an inherited read-only
    property blocks it, and else a new enumerable, writable own
    property is appended if the object is extensible.  A blocked write
    returns [false] from [[Set]], which sloppy code ignores. *)
Definition obj_set (h : heap) (l : loc) (k : string) (v : value) : heap :=
  match hmem h !! l with
  | None => h
  | Some o =>
      match assoc k (oprops o) with
      | Some p =>
          if pwritable p
          then heap_store h l (set_props o (assoc_replace k (mkProp v true (penumerable p)) (oprops o)))
          else h
      | None =>
          let inherited_ok :=
            match lookup_in h (chain h (oproto o)) k with
            | Some p => pwritable p
            | None => true
            end in
          if inherited_ok && oextensible o
          then heap_store h l (set_props o (oprops o ++ [(k, data_prop v)]))
          else h
      end
  end.

(** CreateDataProperty, as an object literal [{k: v}] defines its
    properties: an own writable, enumerable property, replaced in place or
    appended, whatever the prototype chain holds.  (The literal's object
    is fresh and extensible, so the operation cannot fail.) *)
Definition obj_define (h : heap) (l : loc) (k : string) (v : value) : heap :=
  match hmem h !! l with
  | None => h
  | Some o =>
      let ps := match assoc k (oprops o) with
                | Some _ => assoc_replace k (data_prop v) (oprops o)
                | None => oprops o ++ [(k, data_prop v)]
                end in
      heap_store h l (set_props o ps)
  end.

(** [base[k] = v] (PutValue): [None] is the [TypeError] of a base
    [undefined] or [null]; on another primitive base the write is
    dropped (OrdinarySet returns [false] for a primitive receiver). *)
Definition put_value (h : heap) (base : value) (k : string) (v : value) : option heap :=
  match base with
  | VUndef | VNull => None
  | VObj l => Some (obj_set h l k v)
  | _ => Some h
  end.

(** ** [typeof] and callability *)

Definition code_of (h : heap) (v : value) : option Code :=
  match v with
  | VObj l => hmem h !! l ≫= ocode
  | _ => None
  end.

Definition typeof (h : heap) (v : value) : string :=
  match v with
  | VUndef => "undefined"
  | VNull => "object"
  | VBool _ => "boolean"
  | VNum _ => "number"
  | VStr _ => "string"
  | VObj _ => match code_of h v with Some _ => "function" | None => "object" end
  end.

(** ** [f.apply] (line 21)

    The realm's [Function.prototype.apply] is built in: it is not stored
    as a property, and [f.apply] finds it when the walk along [f]'s chain
    reaches [Function.prototype] before any own property ["apply"]; an
    own ["apply"] met first (on [f], on a prototype, or assigned to
    [Function.prototype] itself) is used instead.  Off the chain of
    [Function.prototype] and with no ["apply"] property, [f.apply] is
    [undefined]. *)
Inductive apply_ref := ApplyBuiltin | ApplyProp (v : value).

Fixpoint apply_in (h : heap) (fp : option loc) (ls : list loc) : apply_ref :=
  match ls with
  | [] => ApplyProp VUndef
  | l :: ls' =>
      match own_prop h l "apply" with
      | Some p => ApplyProp (pvalue p)
      | None => if decide (Some l = fp) then ApplyBuiltin else apply_in h fp ls'
      end
  end.

(** [f.apply] (GetValue): [None] is the [TypeError] of [f] [undefined]
    or [null].  (A string has no own ["apply"].) *)
Definition get_apply (h : heap) (f : value) : option apply_ref :=
  match f with
  | VUndef | VNull => None
  | VObj l => Some (apply_in h (function_prototype (hrealm h)) (chain h (Some l)))
  | _ => Some (apply_in h (function_prototype (hrealm h)) (chain h (primitive_proto h f)))
  end.

(** What [f.apply] finds for a function with no own ["apply"] whose
    prototype is the realm's [Function.prototype]: [ApplyBuiltin] unless
    [Function.prototype.apply] was replaced. *)
Definition fp_apply (h : heap) : apply_ref :=
  apply_in h (function_prototype (hrealm h)) (chain h (function_prototype (hrealm h))).

(** ** The [arguments] object

    A function that mentions [arguments] (line 21) has an array-like
    object of its arguments: the indices, enumerable, and a
    non-enumerable ["length"] ([callee] and the iterator are left out). *)
Definition arguments_props (args : list value) : list (string * property) :=
  imap (fun i v => (index_key i, data_prop v)) args
  ++ [("length", mkProp (VNum (nat_to_number (length args))) true false)].

Definition new_arguments (args : list value) (h : heap) : loc * heap :=
  alloc (mkObj (arguments_props args) (object_prototype (hrealm h)) true None) h.

(** ** [for-in] enumeration (EnumerateObjectProperties)

    The own keys of each object on the chain, in the order of
    [own_order]; a key already met (enumerable or not) is skipped, and
    only enumerable ones are produced. *)
Fixpoint enum_own (ps : list (string * property)) (visited : list string)
    : list string * list string :=
  match ps with
  | [] => ([], visited)
  | (k, p) :: ps' =>
      if decide (k ∈ visited) then enum_own ps' visited
      else
        let '(ks, vis) := enum_own ps' (k :: visited) in
        (if penumerable p then k :: ks else ks, vis)
  end.

(** OrdinaryOwnPropertyKeys: the array indices in ascending order, then
    the other keys in insertion order. *)
Definition index_le {A} (a b : N * A) : Prop := (a.1 <= b.1)%N.

#[export] Instance index_le_dec {A} : RelDecision (@index_le A).
Proof. intros a b. unfold index_le. apply _. Defined.
#[export] Instance index_le_trans {A} : Transitive (@index_le A).
Proof. intros a b c. unfold index_le. lia. Qed.
#[export] Instance index_le_total {A} : Total (@index_le A).
Proof. intros a b. unfold index_le. lia. Qed.

(** The entries whose key is an array index, tagged with the index. *)
Fixpoint index_entries {A} (ps : list (string * A)) : list (N * (string * A)) :=
  match ps with
  | [] => []
  | kp :: ps' =>
      match array_index kp.1 with
      | Some i => (i, kp) :: index_entries ps'
      | None => index_entries ps'
      end
  end.

Definition own_order {A} (ps : list (string * A)) : list (string * A) :=
  map snd (merge_sort index_le (index_entries ps))
  ++ filter (fun kp => ~ is_Some (array_index kp.1)) ps.

Fixpoint enum_chain (h : heap) (ls : list loc) (visited : list string) : list string :=
  match ls with
  | [] => []
  | l :: ls' =>
      let ps := match hmem h !! l with Some o => own_order (oprops o) | None => [] end in
      let '(ks, vis) := enum_own ps visited in
      ks ++ enum_chain h ls' vis
  end.

(** The keys [for (k in v)] visits, [v] not being modified by the loop
    body.  [undefined] and [null] give no iteration. *)
Definition for_in_keys (h : heap) (v : value) : list string :=
  match v with
  | VUndef | VNull => []
  | VObj l => enum_chain h (chain h (Some l)) []
  | VStr s =>
      string_index_keys s
        ++ enum_chain h (chain h (primitive_proto h v)) (string_index_keys s ++ ["length"])
  | _ => enum_chain h (chain h (primitive_proto h v)) []
  end.

(** The own keys of an object, in order. *)
Definition own_keys (h : heap) (l : loc) : list string :=
  match hmem h !! l with Some o => assoc_keys (oprops o) | None => [] end.

(** ** Well-formed heaps

    Every object sits below the allocation pointer, has an allocated
    prototype older than itself and no duplicate own key; the realm's
    prototypes are allocated. *)
Definition allocated (h : heap) (lo : option loc) : Prop :=
  match lo with Some l => is_Some (hmem h !! l) | None => True end.

Definition val_ok (h : heap) (v : value) : Prop :=
  match v with VObj l => is_Some (hmem h !! l) | _ => True end.

Definition obj_wf (h : heap) (l : loc) (o : obj) : Prop :=
  (l < hnext h)%positive
  /\ match oproto o with Some p => (p < l)%positive /\ is_Some (hmem h !! p) | None => True end
  /\ NoDup (assoc_keys (oprops o))
  /\ Forall (fun kp => val_ok h (pvalue kp.2)) (oprops o).

Definition realm_wf (h : heap) : Prop :=
  let r := hrealm h in
  allocated h (object_prototype r) /\ allocated h (function_prototype r)
  /\ allocated h (string_prototype r) /\ allocated h (number_prototype r)
  /\ allocated h (boolean_prototype r).

Definition heap_wf (h : heap) : Prop :=
  (forall l o, hmem h !! l = Some o -> obj_wf h l o) /\ realm_wf h.

End Heap.

Arguments obj : clear implicits.
Arguments realm : clear implicits.
Arguments heap : clear implicits.

(** ** Deciding well-formedness *)

Section Decide.
Context {Code : Type}.
Implicit Types (h : heap Code) (o : obj Code).

#[export] Instance allocated_dec h lo : Decision (allocated h lo).
Proof. destruct lo; simpl; apply _. Defined.

#[export] Instance val_ok_dec h v : Decision (val_ok h v).
Proof. destruct v; simpl; apply _. Defined.

#[export] Instance obj_wf_dec h l o : Decision (obj_wf h l o).
Proof. unfold obj_wf. destruct (oproto o); apply _. Defined.

#[export] Instance realm_wf_dec h : Decision (realm_wf h).
Proof. unfold realm_wf. apply _. Defined.

(** [heap_wf] is [map_Forall] of [obj_wf] over the heap, with the realm
    condition: a decision procedure that evaluates. *)
#[export] Instance heap_wf_dec h : Decision (heap_wf h).
Proof. change (Decision (map_Forall (obj_wf h) (hmem h) /\ realm_wf h)). apply _. Defined.
End Decide.

(** ** Heap extension

    [heap_ext h h']: [h'] keeps every object of [h] unchanged, may add
    new ones, and keeps the realm.  Reads of values allocated in [h] are
    the same in [h']: this is the frame property that lets [create]'s
    allocations and its writes to the fresh wrapper leave the target
    alone. *)

Section HeapFacts.
Context {Code : Type}.
Implicit Types (h : heap Code) (o : obj Code).

Definition heap_ext (h h' : heap Code) : Prop :=
  hmem h ⊆ hmem h' /\ (hnext h <= hnext h')%positive /\ hrealm h' = hrealm h.

#[export] Instance heap_ext_preorder : PreOrder heap_ext.
Proof.
  split.
  - intros h. split; [done | split; [lia | done]].
  - intros h1 h2 h3 (?&?&?) (?&?&?). split; [by etrans | split; [lia | congruence]].
Qed.

Definition lo_bound (lo : option loc) : nat :=
  match lo with Some l => Pos.to_nat l | None => 0 end.

Lemma wf_lookup h l o : heap_wf h -> hmem h !! l = Some o -> obj_wf h l o.
Proof. intros [Hwf _]. apply Hwf. Qed.

Lemma wf_proto_allocated h l o :
  heap_wf h -> hmem h !! l = Some o ->
  allocated h (oproto o) /\ lo_bound (oproto o) < Pos.to_nat l.
Proof.
  intros Hwf Hl. destruct (wf_lookup h l o Hwf Hl) as (_ & Hp & _).
  destruct (oproto o) as [p|]; simpl; [|lia].
  destruct Hp as [Hlt Ha]. split; [done | by apply Pos2Nat.inj_lt].
Qed.

Lemma wf_fresh h : heap_wf h -> hmem h !! hnext h = None.
Proof.
  intros Hwf. destruct (hmem h !! hnext h) as [o|] eqn:E; [|done].
  destruct (wf_lookup h _ o Hwf E) as [Hlt _]. lia.
Qed.

Lemma chain_from_allocated n h lo l :
  l ∈ chain_from n h lo -> is_Some (hmem h !! l).
Proof.
  revert lo. induction n as [|n IH]; intros [l'|]; simpl; try set_solver.
  destruct (hmem h !! l') eqn:E; [|set_solver].
  rewrite elem_of_cons. intros [->|Hin]; [done | by eapply IH].
Qed.

(** The chain does not depend on the heap beyond the objects it visits. *)
Lemma chain_from_ext n h h' lo :
  heap_wf h -> hmem h ⊆ hmem h' -> allocated h lo ->
  chain_from n h' lo = chain_from n h lo.
Proof.
  intros Hwf Hsub. revert lo. induction n as [|n IH]; intros [l|] Ha; simpl; [done..| |done].
  destruct Ha as [o Ho]. rewrite (lookup_weaken _ _ _ _ Ho Hsub), Ho.
  f_equal. apply IH. by eapply wf_proto_allocated.
Qed.

(** Prototypes being older, the chain from [l] has at most
    [Pos.to_nat l] objects: more fuel changes nothing. *)
Lemma chain_from_fuel h lo n m :
  heap_wf h -> allocated h lo -> lo_bound lo <= n -> lo_bound lo <= m ->
  chain_from n h lo = chain_from m h lo.
Proof.
  intros Hwf. revert lo m. induction n as [|n IH]; intros [l|] m Ha Hn Hm; simpl in *.
  - lia.
  - by destruct m.
  - destruct m as [|m]; [lia|]. simpl. destruct Ha as [o Ho]. rewrite Ho. f_equal.
    destruct (wf_proto_allocated h l o Hwf Ho). apply IH; [done | lia | lia].
  - by destruct m.
Qed.

Lemma allocated_bound h lo : heap_wf h -> allocated h lo -> lo_bound lo <= Pos.to_nat (hnext h).
Proof.
  intros Hwf. destruct lo as [l|]; simpl; [|lia]. intros [o Ho].
  destruct (wf_lookup h l o Hwf Ho) as [Hlt _]. apply Pos2Nat.inj_lt in Hlt. lia.
Qed.

Lemma allocated_ext h h' lo : heap_ext h h' -> allocated h lo -> allocated h' lo.
Proof.
  intros (Hsub&_&_). destruct lo as [l|]; simpl; [|done].
  intros [o Ho]. eexists. by eapply lookup_weaken.
Qed.

Lemma chain_ext h h' lo :
  heap_wf h -> heap_ext h h' -> allocated h lo -> chain h' lo = chain h lo.
Proof.
  intros Hwf Hext Ha. pose proof Hext as (Hsub & Hnext & _). unfold chain.
  rewrite (chain_from_ext _ h h') by done.
  pose proof (allocated_bound h lo Hwf Ha).
  apply chain_from_fuel; [done | done | lia | done].
Qed.

Lemma chain_allocated h lo l : l ∈ chain h lo -> is_Some (hmem h !! l).
Proof. apply chain_from_allocated. Qed.

Lemma own_prop_allocated h l k p : own_prop h l k = Some p -> is_Some (hmem h !! l).
Proof. unfold own_prop. destruct (hmem h !! l); [by eexists|done]. Qed.

Lemma own_prop_ext h h' l k :
  hmem h ⊆ hmem h' -> is_Some (hmem h !! l) -> own_prop h' l k = own_prop h l k.
Proof.
  intros Hsub [o Ho]. unfold own_prop. by rewrite (lookup_weaken _ _ _ _ Ho Hsub), Ho.
Qed.

Lemma lookup_in_ext h h' ls k :
  hmem h ⊆ hmem h' -> (forall l, l ∈ ls -> is_Some (hmem h !! l)) ->
  lookup_in h' ls k = lookup_in h ls k.
Proof.
  intros Hsub. induction ls as [|l ls IH]; intros Hls; simpl; [done|].
  rewrite (own_prop_ext h h') by set_solver. rewrite IH by set_solver. done.
Qed.

Lemma enum_chain_ext h h' ls vis :
  hmem h ⊆ hmem h' -> (forall l, l ∈ ls -> is_Some (hmem h !! l)) ->
  enum_chain h' ls vis = enum_chain h ls vis.
Proof.
  intros Hsub. revert vis. induction ls as [|l ls IH]; intros vis Hls; simpl; [done|].
  destruct (Hls l) as [o Ho]; [set_solver|].
  rewrite (lookup_weaken _ _ _ _ Ho Hsub), Ho.
  destruct (enum_own (own_order (oprops o)) vis). rewrite IH by set_solver. done.
Qed.

(** Reading through the prototype chain from an allocated start. *)
Lemma lookup_chain_ext h h' lo k :
  heap_wf h -> heap_ext h h' -> allocated h lo ->
  lookup_in h' (chain h' lo) k = lookup_in h (chain h lo) k.
Proof.
  intros Hwf Hext Ha. rewrite (chain_ext h h') by done.
  apply lookup_in_ext; [apply Hext | intros l; apply chain_allocated].
Qed.

Lemma enum_chain_chain_ext h h' lo vis :
  heap_wf h -> heap_ext h h' -> allocated h lo ->
  enum_chain h' (chain h' lo) vis = enum_chain h (chain h lo) vis.
Proof.
  intros Hwf Hext Ha. rewrite (chain_ext h h') by done.
  apply enum_chain_ext; [apply Hext | intros l; apply chain_allocated].
Qed.

Lemma primitive_proto_allocated h v :
  heap_wf h -> allocated h (primitive_proto h v).
Proof. intros [_ (?&?&?&?&?)]. by destruct v. Qed.

Lemma primitive_proto_ext h h' v : heap_ext h h' -> primitive_proto h' v = primitive_proto h v.
Proof. intros (_&_&Hr). unfold primitive_proto. by rewrite Hr. Qed.

Lemma lookup_proto_ext h h' v k :
  heap_wf h -> heap_ext h h' ->
  lookup_in h' (chain h' (primitive_proto h' v)) k = lookup_in h (chain h (primitive_proto h v)) k.
Proof.
  intros Hwf Hext. rewrite (primitive_proto_ext h h') by done.
  apply lookup_chain_ext; [done | done | by apply primitive_proto_allocated].
Qed.

Lemma enum_proto_ext h h' v vis :
  heap_wf h -> heap_ext h h' ->
  enum_chain h' (chain h' (primitive_proto h' v)) vis = enum_chain h (chain h (primitive_proto h v)) vis.
Proof.
  intros Hwf Hext. rewrite (primitive_proto_ext h h') by done.
  apply enum_chain_chain_ext; [done | done | by apply primitive_proto_allocated].
Qed.

Lemma get_value_ext h h' v k :
  heap_wf h -> heap_ext h h' -> val_ok h v -> get_value h' v k = get_value h v k.
Proof.
  intros Hwf Hext Hv. unfold get_value. rewrite (lookup_proto_ext h h') by done.
  destruct v; cbv iota; try done. by rewrite (lookup_chain_ext h h').
Qed.

Lemma for_in_keys_ext h h' v :
  heap_wf h -> heap_ext h h' -> val_ok h v -> for_in_keys h' v = for_in_keys h v.
Proof.
  intros Hwf Hext Hv. unfold for_in_keys.
  destruct v; cbv iota; try done; rewrite ?(enum_proto_ext h h') by done; try done.
  by rewrite (enum_chain_chain_ext h h').
Qed.

Lemma code_of_ext h h' v :
  heap_ext h h' -> val_ok h v -> code_of h' v = code_of h v.
Proof.
  intros (Hsub&_&_) Hv. destruct v as [| | | | |l]; simpl; try done.
  destruct Hv as [o Ho]. by rewrite (lookup_weaken _ _ _ _ Ho Hsub), Ho.
Qed.

Lemma typeof_ext h h' v :
  heap_ext h h' -> val_ok h v -> typeof h' v = typeof h v.
Proof. intros Hext Hv. unfold typeof. by rewrite (code_of_ext h h'). Qed.

(** [typeof v === 'undefined'] holds exactly of [undefined]. *)
Lemma typeof_undefined h v : String.eqb (typeof h v) "undefined" = is_undefined v.
Proof. destruct v as [| | | | |l]; try done. unfold typeof. by destruct (code_of h (VObj l)). Qed.

Lemma val_ok_ext h h' v : heap_ext h h' -> val_ok h v -> val_ok h' v.
Proof. intros Hext. destruct v; simpl; try done. apply (allocated_ext h h' (Some l) Hext). Qed.

(** ** Allocation and stores preserve the invariant *)

Lemma alloc_ext h o : heap_wf h -> heap_ext h (alloc o h).2.
Proof.
  intros Hwf. split; [|split]; simpl; [|lia|done].
  by apply insert_subseteq, wf_fresh.
Qed.

Lemma val_ok_dom h h' v :
  (forall l, is_Some (hmem h !! l) -> is_Some (hmem h' !! l)) -> val_ok h v -> val_ok h' v.
Proof. destruct v; simpl; auto. Qed.

Lemma props_ok_dom h h' (ps : list (string * property)) :
  (forall l, is_Some (hmem h !! l) -> is_Some (hmem h' !! l)) ->
  Forall (fun kp => val_ok h (pvalue kp.2)) ps -> Forall (fun kp => val_ok h' (pvalue kp.2)) ps.
Proof. intros Hd Hps. eapply Forall_impl; [exact Hps|]. intros kp. by apply val_ok_dom. Qed.

(** A new object whose prototype is allocated, whose keys are distinct
    and whose values are allocated keeps the heap well formed. *)
Lemma alloc_wf h o :
  heap_wf h -> allocated h (oproto o) -> NoDup (assoc_keys (oprops o)) ->
  Forall (fun kp => val_ok h (pvalue kp.2)) (oprops o) ->
  heap_wf (alloc o h).2.
Proof.
  intros Hwf Hp Hnd Hvs. pose proof (wf_fresh h Hwf) as Hfresh.
  assert (Hdom : forall l, is_Some (hmem h !! l) -> is_Some (hmem (alloc o h).2 !! l)).
  { intros l [o' Ho']. exists o'. simpl. rewrite lookup_insert_ne; [done|congruence]. }
  split.
  - intros l o'. simpl. rewrite lookup_insert. case_decide as Heq.
    + intros [= <-]. subst l. split; [simpl; lia|]. split; [|split; [done|by eapply props_ok_dom]].
      destruct (oproto o) as [p|]; [|done].
      destruct Hp as [o2 Ho2]. destruct (wf_lookup h p o2 Hwf Ho2) as [Hlt _].
      split; [done | apply Hdom; eauto].
    + intros Ho'. destruct (wf_lookup h l o' Hwf Ho') as (Hlt & Hpr & Hnd' & Hvs').
      split; [simpl; lia|]. split; [|split; [done|by eapply props_ok_dom]].
      destruct (oproto o') as [p|]; [|done]. destruct Hpr as [? ?]. split; [done|by apply Hdom].
  - pose proof (alloc_ext h o Hwf) as Hext. destruct Hwf as [_ (?&?&?&?&?)].
    unfold realm_wf. simpl. repeat split; eapply allocated_ext; eauto.
Qed.

Lemma heap_store_ext h0 h l o :
  hmem h0 !! l = None -> heap_ext h0 h -> heap_ext h0 (heap_store h l o).
Proof.
  intros Hl (Hsub&Hn&Hr). split; [|split]; simpl; [|done|done].
  by apply insert_subseteq_r.
Qed.

(** Replacing an object's properties, keeping its prototype, keeps the
    heap well formed when the new keys are distinct and the new values
    allocated. *)
Lemma heap_store_wf h l o ps :
  heap_wf h -> hmem h !! l = Some o -> NoDup (assoc_keys ps) ->
  Forall (fun kp => val_ok h (pvalue kp.2)) ps ->
  heap_wf (heap_store h l (set_props o ps)).
Proof.
  intros Hwf Ho Hnd Hvs.
  assert (Hdom : forall l', is_Some (hmem h !! l') -> is_Some (hmem (heap_store h l (set_props o ps)) !! l')).
  { intros l' [o' Ho']. simpl. rewrite lookup_insert. case_decide; eauto. }
  split.
  - intros l' o'. simpl. rewrite lookup_insert. case_decide as Heq.
    + intros [= <-]. subst l'. destruct (wf_lookup h l o Hwf Ho) as (Hlt & Hpr & _).
      split; [done|]. split; [|split; [done|by eapply props_ok_dom]]. simpl.
      destruct (oproto o) as [p|]; [|done]. destruct Hpr. split; [done|by apply Hdom].
    + intros Ho'. destruct (wf_lookup h l' o' Hwf Ho') as (Hlt & Hpr & Hnd' & Hvs').
      split; [done|]. split; [|split; [done|by eapply props_ok_dom]].
      destruct (oproto o') as [p|]; [|done]. destruct Hpr. split; [done|by apply Hdom].
  - destruct Hwf as [_ (H1&H2&H3&H4&H5)]. unfold realm_wf. simpl.
    repeat split; match goal with
      | H : allocated h ?lo |- allocated _ ?lo => destruct lo; simpl in *; auto
      end.
Qed.

Lemma obj_set_ext_fresh h0 h l k v :
  hmem h0 !! l = None -> heap_ext h0 h -> heap_ext h0 (obj_set h l k v).
Proof.
  intros Hl Hext. unfold obj_set.
  destruct (hmem h !! l) as [o|]; [|done].
  destruct (assoc k (oprops o)) as [p|]; [destruct (pwritable p)|case_match];
    auto using heap_store_ext.
Qed.

Lemma assoc_replace_props_ok h k p (ps : list (string * property)) :
  val_ok h (pvalue p) -> Forall (fun kp => val_ok h (pvalue kp.2)) ps ->
  Forall (fun kp => val_ok h (pvalue kp.2)) (assoc_replace k p ps).
Proof.
  intros Hp. induction ps as [|[k' q] ps IH]; simpl; [done|].
  rewrite !Forall_cons. intros [Hq Hps]. case_streq; rewrite Forall_cons; auto.
Qed.

Lemma obj_set_wf h l k v : heap_wf h -> val_ok h v -> heap_wf (obj_set h l k v).
Proof.
  intros Hwf Hv. unfold obj_set. destruct (hmem h !! l) as [o|] eqn:Ho; [|done].
  destruct (wf_lookup h l o Hwf Ho) as (_ & _ & Hnd & Hvs).
  destruct (assoc k (oprops o)) as [p|] eqn:Hk; [destruct (pwritable p)|case_match]; try done.
  - apply heap_store_wf; [done|done| |by apply assoc_replace_props_ok].
    by rewrite assoc_replace_keys.
  - apply heap_store_wf; [done|done| |].
    + apply assoc_None_keys in Hk. unfold assoc_keys in *. rewrite map_app.
      apply NoDup_app. split; [done|]. split; [set_solver | apply NoDup_singleton].
    + apply Forall_app. split; [done|]. by apply Forall_singleton.
Qed.
Lemma obj_define_ext_fresh h0 h l k v :
  hmem h0 !! l = None -> heap_ext h0 h -> heap_ext h0 (obj_define h l k v).
Proof.
  intros Hl Hext. unfold obj_define. destruct (hmem h !! l); [|done]. by apply heap_store_ext.
Qed.

Lemma obj_define_wf h l k v : heap_wf h -> val_ok h v -> heap_wf (obj_define h l k v).
Proof.
  intros Hwf Hv. unfold obj_define. destruct (hmem h !! l) as [o|] eqn:Ho; [|done].
  destruct (wf_lookup h l o Hwf Ho) as (_ & _ & Hnd & Hvs).
  destruct (assoc k (oprops o)) as [p|] eqn:Hk.
  - apply heap_store_wf; [done|done| |by apply assoc_replace_props_ok].
    by rewrite assoc_replace_keys.
  - apply heap_store_wf; [done|done| |].
    + apply assoc_None_keys in Hk. unfold assoc_keys in *. rewrite map_app.
      apply NoDup_app. split; [done|]. split; [set_solver | apply NoDup_singleton].
    + apply Forall_app. split; [done|]. by apply Forall_singleton.
Qed.

End HeapFacts.

(** ** Reading and writing own properties *)

Section ObjSet.
Context {Code : Type}.
Implicit Types (h : heap Code) (o : obj Code).

Lemma chain_head h l :
  is_Some (hmem h !! l) -> exists ls, chain h (Some l) = l :: ls.
Proof.
  intros [o Ho]. unfold chain. destruct (Pos.to_nat (hnext h)) eqn:E; [lia|].
  simpl. rewrite Ho. by eexists.
Qed.

(** An own property is found first. *)
Lemma get_value_own h l k p :
  own_prop h l k = Some p -> get_value h (VObj l) k = Some (pvalue p).
Proof.
  intros Hp. assert (is_Some (hmem h !! l)) as Ha.
  { unfold own_prop in Hp. destruct (hmem h !! l); [done|discriminate]. }
  destruct (chain_head h l Ha) as [ls Hls]. simpl. rewrite Hls. simpl. by rewrite Hp.
Qed.

Lemma own_prop_store h l o k :
  own_prop (heap_store h l o) l k = assoc k (oprops o).
Proof. unfold own_prop. simpl. by rewrite lookup_insert_eq. Qed.

Lemma own_prop_store_ne h l l' o k :
  l' <> l -> own_prop (heap_store h l o) l' k = own_prop h l' k.
Proof. intros Hne. unfold own_prop. simpl. by rewrite lookup_insert_ne by congruence. Qed.

(** A write to an own writable property replaces its value in place. *)
Lemma own_prop_obj_set_writable h l o k p v :
  hmem h !! l = Some o -> assoc k (oprops o) = Some p -> pwritable p = true ->
  own_prop (obj_set h l k v) l k = Some (mkProp v true (penumerable p)).
Proof.
  intros Ho Hk Hw. unfold obj_set. rewrite Ho, Hk, Hw, own_prop_store. simpl.
  by rewrite assoc_replace_eq, Hk.
Qed.

Lemma own_prop_obj_set_writable' h l k p v :
  own_prop h l k = Some p -> pwritable p = true ->
  own_prop (obj_set h l k v) l k = Some (mkProp v true (penumerable p)).
Proof.
  unfold own_prop at 1. destruct (hmem h !! l) as [o|] eqn:Ho; [|done]. simpl.
  intros Hk Hw. by eapply own_prop_obj_set_writable.
Qed.

(** A write to an own read-only property changes nothing. *)
Lemma obj_set_readonly h l o k p v :
  hmem h !! l = Some o -> assoc k (oprops o) = Some p -> pwritable p = false ->
  obj_set h l k v = h.
Proof. intros Ho Hk Hw. unfold obj_set. by rewrite Ho, Hk, Hw. Qed.

(** Other properties are untouched by a write. *)
(** A write of a key the object does not own, on an extensible object
    whose chain holds no read-only property of that key, appends it as
    a new own property (shadowing an inherited one). *)
Lemma obj_set_append h l o k v :
  hmem h !! l = Some o -> assoc k (oprops o) = None -> oextensible o = true ->
  match lookup_in h (chain h (oproto o)) k with Some q => pwritable q | None => true end = true ->
  obj_set h l k v = heap_store h l (set_props o (oprops o ++ [(k, data_prop v)])).
Proof.
  intros Ho Hk He Hc. unfold obj_set. rewrite Ho, Hk, He.
  destruct (lookup_in h (chain h (oproto o)) k); [by rewrite Hc|done].
Qed.

Lemma own_prop_append h l o k v :
  hmem h !! l = Some o -> assoc k (oprops o) = None ->
  own_prop (heap_store h l (set_props o (oprops o ++ [(k, data_prop v)]))) l k = Some (data_prop v).
Proof.
  intros Ho Hk. rewrite own_prop_store. simpl. rewrite assoc_app, Hk. simpl. by rewrite String.eqb_refl.
Qed.

Lemma own_prop_obj_set_new h l o k v :
  hmem h !! l = Some o -> assoc k (oprops o) = None -> oextensible o = true ->
  lookup_in h (chain h (oproto o)) k = None ->
  own_prop (obj_set h l k v) l k = Some (data_prop v).
Proof.
  intros Ho Hk He Hc. rewrite (obj_set_append h l o k v Ho Hk He) by (by rewrite Hc).
  by apply own_prop_append.
Qed.

Lemma own_prop_obj_set_other h l l' k k' v :
  (l', k') <> (l, k) -> own_prop (obj_set h l k v) l' k' = own_prop h l' k'.
Proof.
  intros Hne. unfold obj_set. destruct (hmem h !! l) as [o|] eqn:Ho; [|done].
  destruct (decide (l' = l)) as [->|Hl].
  - assert (k' <> k) by congruence.
    destruct (assoc k (oprops o)) as [p|]; [destruct (pwritable p)|case_match]; try done;
      rewrite own_prop_store; unfold own_prop; rewrite Ho; simpl.
    + by apply assoc_replace_ne.
    + rewrite assoc_app. simpl. rewrite (proj2 (String.eqb_neq k' k)) by done.
      by destruct (assoc k' (oprops o)).
  - destruct (assoc k (oprops o)) as [p|]; [destruct (pwritable p)|case_match]; try done;
      by rewrite own_prop_store_ne.
Qed.

(** Object literals define their properties in place. *)
Lemma own_prop_obj_define h l k v :
  is_Some (hmem h !! l) -> own_prop (obj_define h l k v) l k = Some (data_prop v).
Proof.
  intros [o Ho]. unfold own_prop, obj_define. rewrite Ho. simpl. rewrite lookup_insert_eq. simpl.
  destruct (assoc k (oprops o)) eqn:Hk.
  - rewrite assoc_replace_eq, Hk. done.
  - rewrite assoc_app, Hk. simpl. by rewrite String.eqb_refl.
Qed.

Lemma own_prop_obj_define_other h l l' k k' v :
  (l' <> l \/ k' <> k) -> own_prop (obj_define h l k v) l' k' = own_prop h l' k'.
Proof.
  intros Hne. unfold own_prop, obj_define. destruct (hmem h !! l) as [o|] eqn:Ho; [|done].
  simpl. rewrite lookup_insert. case_decide as Heq; [subst l'|done]. rewrite Ho. simpl.
  destruct Hne as [|Hk]; [done|].
  destruct (assoc k (oprops o)) eqn:Hkk.
  - by apply assoc_replace_ne.
  - rewrite assoc_app. destruct (assoc k' (oprops o)); [done|]. simpl.
    by destruct (String.eqb_spec k' k).
Qed.

Lemma code_of_obj_define h l k v f : code_of (obj_define h l k v) f = code_of h f.
Proof.
  destruct f as [| | | | |f]; try done. unfold obj_define, code_of.
  destruct (hmem h !! l) as [o|] eqn:Ho; [|done]. simpl. rewrite lookup_insert.
  case_decide; [subst; by rewrite Ho|done].
Qed.

Lemma hmem_obj_define_is_Some h l k v l' :
  is_Some (hmem h !! l') -> is_Some (hmem (obj_define h l k v) !! l').
Proof.
  unfold obj_define. destruct (hmem h !! l) eqn:Ho; [|done]. simpl. rewrite lookup_insert.
  case_decide; [by eexists|done].
Qed.

(** A write changes no object's code. *)
Lemma code_of_obj_set h l k v f : code_of (obj_set h l k v) f = code_of h f.
Proof.
  destruct f as [| | | | |l']; try done. unfold obj_set, code_of.
  destruct (hmem h !! l) as [o|] eqn:Ho; [|done].
  assert (Hst : forall ps, hmem (heap_store h l (set_props o ps)) !! l' ≫= ocode = hmem h !! l' ≫= ocode).
  { intros ps. simpl. rewrite lookup_insert. case_decide; subst; [by rewrite Ho|done]. }
  destruct (assoc k (oprops o)) as [p|]; [destruct (pwritable p)|case_match]; done.
Qed.

Lemma hmem_obj_set_is_Some h l k v l' :
  is_Some (hmem (obj_set h l k v) !! l') <-> is_Some (hmem h !! l').
Proof.
  unfold obj_set. destruct (hmem h !! l) as [o|] eqn:Ho; [|done].
  assert (Hst : forall o', is_Some (hmem (heap_store h l o') !! l') <-> is_Some (hmem h !! l')).
  { intros o'. simpl. rewrite lookup_insert. case_decide; subst; [rewrite Ho|]; done. }
  destruct (assoc k (oprops o)) as [p|]; [destruct (pwritable p)|case_match]; done.
Qed.
(** ** Writes that keep the shape of the heap

    [obj_set] and [obj_define] keep every object's prototype, the
    allocator and the realm: prototype chains are unchanged, and a read
    of a key the write did not touch reads what it read before. *)

Definition same_shape h h' : Prop :=
  hnext h' = hnext h /\ hrealm h' = hrealm h
  /\ forall l, oproto <$> hmem h' !! l = oproto <$> hmem h !! l.

Lemma chain_from_shape n h h' lo :
  same_shape h h' -> chain_from n h' lo = chain_from n h lo.
Proof.
  intros (_ & _ & Hp). revert lo. induction n as [|n IH]; intros [l|]; simpl; try done.
  specialize (Hp l). destruct (hmem h' !! l), (hmem h !! l); simpl in Hp; try done.
  injection Hp as ->. by rewrite IH.
Qed.

Lemma get_value_shape h h' x k :
  same_shape h h' -> (forall l, own_prop h' l k = own_prop h l k) ->
  get_value h' x k = get_value h x k.
Proof.
  intros Hs Hk.
  assert (Hl : forall ls, lookup_in h' ls k = lookup_in h ls k)
    by (induction ls as [|l ls IH]; simpl; [done|by rewrite Hk, IH]).
  assert (Hc : forall lo, chain h' lo = chain h lo)
    by (intros lo; unfold chain; pose proof Hs as (Hn & _); rewrite Hn; by apply chain_from_shape).
  assert (Hpp : primitive_proto h' x = primitive_proto h x)
    by (pose proof Hs as (_ & Hr & _); unfold primitive_proto; by rewrite Hr).
  destruct x; unfold get_value; rewrite ?Hpp, ?Hc, ?Hl; done.
Qed.

Lemma heap_store_shape h l o o' :
  hmem h !! l = Some o -> oproto o' = oproto o -> same_shape h (heap_store h l o').
Proof.
  intros Ho Hp. split; [done|]. split; [done|]. intros l'. simpl. rewrite lookup_insert.
  case_decide; [subst; rewrite Ho; simpl; by rewrite Hp|done].
Qed.

Lemma obj_set_shape h l k v : same_shape h (obj_set h l k v).
Proof.
  unfold obj_set. destruct (hmem h !! l) as [o|] eqn:Ho; [|done].
  destruct (assoc k (oprops o)) as [p|]; [destruct (pwritable p)|case_match]; try done;
    by eapply heap_store_shape.
Qed.

Lemma obj_define_shape h l k v : same_shape h (obj_define h l k v).
Proof.
  unfold obj_define. destruct (hmem h !! l) as [o|] eqn:Ho; [|done]. by eapply heap_store_shape.
Qed.

Lemma lookup_in_agree h h' ls k :
  (forall l, l ∈ ls -> own_prop h' l k = own_prop h l k) -> lookup_in h' ls k = lookup_in h ls k.
Proof.
  induction ls as [|l ls IH]; intros Hk; simpl; [done|].
  rewrite Hk by set_solver. rewrite IH by set_solver. done.
Qed.

Lemma get_value_obj_set_other h l k v x k' :
  k' <> k -> get_value (obj_set h l k v) x k' = get_value h x k'.
Proof.
  intros Hne. apply get_value_shape; [apply obj_set_shape|].
  intros l'. apply own_prop_obj_set_other. congruence.
Qed.

Lemma hmem_obj_set_other h l k v l' : l' <> l -> hmem (obj_set h l k v) !! l' = hmem h !! l'.
Proof.
  intros Hne. unfold obj_set. destruct (hmem h !! l) as [o|]; [|done].
  destruct (assoc k (oprops o)) as [p|]; [destruct (pwritable p)|case_match]; try done;
    simpl; by rewrite lookup_insert_ne by congruence.
Qed.

Lemma chain_shape h h' lo : same_shape h h' -> chain h' lo = chain h lo.
Proof. intros Hs. unfold chain. pose proof Hs as (Hn & _). rewrite Hn. by apply chain_from_shape. Qed.

Lemma apply_in_agree h h' fp ls :
  (forall l, l ∈ ls -> own_prop h' l "apply" = own_prop h l "apply") ->
  apply_in h' fp ls = apply_in h fp ls.
Proof.
  induction ls as [|l ls IH]; intros Hk; simpl; [done|].
  rewrite Hk by set_solver. rewrite IH by set_solver. done.
Qed.

(** Allocation does not change what [f.apply] finds. *)
Lemma get_apply_ext h h' v :
  heap_wf h -> heap_ext h h' -> val_ok h v -> get_apply h' v = get_apply h v.
Proof.
  intros Hwf Hext Hv. pose proof Hext as (Hsub & _ & Hr).
  assert (Hc : forall lo, allocated h lo ->
            apply_in h' (function_prototype (hrealm h')) (chain h' lo)
            = apply_in h (function_prototype (hrealm h)) (chain h lo)).
  { intros lo Ha. rewrite Hr, (chain_ext h h') by done. apply apply_in_agree.
    intros l Hl. apply own_prop_ext; [done|]. by eapply chain_allocated. }
  unfold get_apply. rewrite (primitive_proto_ext h h') by done.
  destruct v; try done; f_equal; apply Hc; try done; by apply primitive_proto_allocated.
Qed.

(** [f.apply] depends only on the ["apply"] properties along [f]'s chain. *)
Lemma get_apply_shape h h' l :
  same_shape h h' ->
  (forall l', l' ∈ chain h (Some l) -> own_prop h' l' "apply" = own_prop h l' "apply") ->
  get_apply h' (VObj l) = get_apply h (VObj l).
Proof.
  intros Hs Hk. pose proof Hs as (_ & Hr & _). unfold get_apply.
  rewrite Hr, (chain_shape h h') by done. f_equal. by apply apply_in_agree.
Qed.

Lemma get_apply_obj_set_off h l k v f :
  l ∉ chain h (Some f) -> get_apply (obj_set h l k v) (VObj f) = get_apply h (VObj f).
Proof.
  intros Hl. apply get_apply_shape; [apply obj_set_shape|]. intros l' Hl'.
  apply own_prop_obj_set_other. intros [= -> _]. done.
Qed.

End ObjSet.

(** ** [for-in] yields each key once; reads return allocated values *)

Section ForIn.
Context {Code : Type}.
Implicit Types (h : heap Code).

Lemma enum_own_visited (ps : list (string * property)) vis ks vis' :
  enum_own ps vis = (ks, vis') -> forall k, k ∈ vis' -> k ∈ vis \/ k ∈ assoc_keys ps.
Proof.
  revert vis ks vis'. induction ps as [|[k p] ps IH]; intros vis ks vis' He k' Hk'; simpl in He.
  - injection He as <- <-. by left.
  - case_decide.
    + destruct (IH _ _ _ He k' Hk'); [by left|right; simpl; set_solver].
    + destruct (enum_own ps (k :: vis)) as [ks0 vis0] eqn:E0. injection He as <- <-.
      destruct (IH _ _ _ E0 k' Hk') as [Hv|Hv]; simpl; set_solver.
Qed.

(** An enumerable property not yet visited is produced. *)
Lemma enum_own_complete (ps : list (string * property)) vis k p :
  k ∉ vis -> assoc k ps = Some p -> penumerable p = true -> k ∈ (enum_own ps vis).1.
Proof.
  revert vis. induction ps as [|[k' p'] ps IH]; intros vis Hv Hk He; simpl in *; [done|].
  destruct (String.eqb_spec k k') as [<-|Hne].
  - injection Hk as ->. case_decide; [done|].
    destruct (enum_own ps (k :: vis)). simpl. rewrite He. set_solver.
  - case_decide; [by apply IH|].
    destruct (enum_own ps (k' :: vis)) as [ks vis'] eqn:E.
    assert (k ∈ (ks, vis').1) by (rewrite <-E; apply IH; [set_solver|done|done]).
    simpl in *. destruct (penumerable p'); set_solver.
Qed.

Lemma enum_own_spec (ps : list (string * property)) vis ks vis' :
  enum_own ps vis = (ks, vis') ->
  NoDup ks /\ (forall k, k ∈ ks -> k ∉ vis) /\ (forall k, k ∈ vis \/ k ∈ ks -> k ∈ vis').
Proof.
  revert vis ks vis'. induction ps as [|[k p] ps IH]; intros vis ks vis' He; simpl in He.
  - injection He as <- <-. split; [constructor|]. set_solver.
  - case_decide as Hk; [by apply IH|].
    destruct (enum_own ps (k :: vis)) as [ks0 vis0] eqn:E0. injection He as <- <-.
    destruct (IH _ _ _ E0) as (Hnd & Hdis & Hsub).
    destruct (penumerable p).
    + split; [|split].
      * constructor; [|done]. intros Hin. apply (Hdis k Hin). set_solver.
      * intros k' Hk'. apply elem_of_cons in Hk' as [->|Hk']; [done|].
        intros Hv. apply (Hdis k' Hk'). set_solver.
      * intros k' [Hv|Hk']; apply Hsub; [left; set_solver|].
        apply elem_of_cons in Hk' as [->|Hk']; [left; set_solver|by right].
    + split; [done|split].
      * intros k' Hk' Hv. apply (Hdis k' Hk'). set_solver.
      * intros k' [Hv|Hk']; apply Hsub; [left; set_solver|by right].
Qed.

Lemma enum_chain_spec h ls vis :
  NoDup (enum_chain h ls vis) /\ (forall k, k ∈ enum_chain h ls vis -> k ∉ vis).
Proof.
  revert vis. induction ls as [|l ls IH]; intros vis; simpl; [split; [constructor|set_solver]|].
  destruct (enum_own _ vis) as [ks vis'] eqn:E.
  destruct (enum_own_spec _ _ _ _ E) as (Hnd & Hdis & Hsub).
  destruct (IH vis') as [Hnd' Hdis'].
  split.
  - apply NoDup_app. split; [done|split; [|done]].
    intros k Hk Hk'. apply (Hdis' k Hk'), Hsub. by right.
  - intros k Hk. apply elem_of_app in Hk as [Hk|Hk]; [by apply Hdis|].
    intros Hv. apply (Hdis' k Hk), Hsub. by left.
Qed.

Lemma index_entries_snd {A} (ps : list (string * A)) :
  map snd (index_entries ps) = filter (fun kp => is_Some (array_index kp.1)) ps.
Proof.
  induction ps as [|kp ps IH]; [done|]. rewrite filter_cons. simpl.
  destruct (array_index kp.1); simpl; by rewrite IH.
Qed.

Lemma index_entries_keys {A} (ps : list (string * A)) :
  Forall (fun e => array_index e.2.1 = Some e.1) (index_entries ps).
Proof.
  induction ps as [|kp ps IH]; simpl; [done|].
  destruct (array_index kp.1) eqn:E; [by constructor|done].
Qed.

Lemma own_order_perm {A} (ps : list (string * A)) : own_order ps ≡ₚ ps.
Proof.
  unfold own_order. etrans; [apply Permutation_app_tail, Permutation_map, merge_sort_Permutation|].
  rewrite index_entries_snd. apply filter_app_complement.
Qed.

Lemma StronglySorted_filter {B} (R : relation B) (P : B -> Prop) `{!forall x, Decision (P x)} l :
  StronglySorted R l -> StronglySorted R (filter P l).
Proof.
  induction 1 as [|x l Hs IH Hx]; [constructor|]. rewrite filter_cons.
  case_decide; [|done]. constructor; [done|].
  apply Forall_forall. intros y [_ Hy]%list_elem_of_filter. by eapply Forall_forall.
Qed.

(** The keys of tagged entries sorted by their index, filtered any way,
    have ascending indices. *)
Lemma index_keys_sorted (Q : string -> Prop) `{!forall k, Decision (Q k)}
    (E : list (N * (string * property))) :
  Forall (fun e => array_index e.2.1 = Some e.1) E -> StronglySorted index_le E ->
  StronglySorted N.le
    (omap array_index (filter Q (assoc_keys (filter (fun kp => penumerable kp.2 = true) (map snd E))))).
Proof.
  intros HE Hs. induction Hs as [|e E Hs IH He]; [constructor|].
  apply Forall_cons in HE as [He1 HE].
  assert (Hin : forall y, y ∈ omap array_index
                  (filter Q (assoc_keys (filter (fun kp => penumerable kp.2 = true) (map snd E))))
                  -> (e.1 <= y)%N).
  { intros y (k & Hk & Hy)%list_elem_of_omap. apply list_elem_of_filter in Hk as [_ Hk].
    apply list_elem_of_fmap in Hk as (kp & -> & Hkp). apply list_elem_of_filter in Hkp as [_ Hkp].
    apply list_elem_of_fmap in Hkp as (e' & -> & He').
    rewrite (proj1 (Forall_forall _ _) HE e' He') in Hy. injection Hy as <-.
    exact (proj1 (Forall_forall _ _) He e' He'). }
  cbn [map]. rewrite filter_cons. case_decide; [|by apply IH].
  unfold assoc_keys. cbn [map]. rewrite filter_cons. case_decide; [|by apply IH].
  cbn [omap list_omap]. rewrite He1. constructor; [by apply IH|].
  apply Forall_forall. exact Hin.
Qed.

(** The own part of [for-in] on an object whose keys are fresh: its
    enumerable keys, in order. *)
Lemma enum_own_fresh (ps : list (string * property)) vis :
  NoDup (assoc_keys ps) -> (forall k, k ∈ assoc_keys ps -> k ∉ vis) ->
  (enum_own ps vis).1 = assoc_keys (filter (fun kp => penumerable kp.2 = true) ps)
  /\ forall k, k ∈ assoc_keys ps -> k ∈ (enum_own ps vis).2.
Proof.
  revert vis. induction ps as [|[k p] ps IH]; intros vis Hnd Hv; [split; [done|set_solver]|].
  unfold assoc_keys in Hnd. cbn [map] in Hnd. apply NoDup_cons in Hnd as [Hk Hnd].
  cbn [enum_own]. rewrite decide_False by (apply Hv; left).
  destruct (IH (k :: vis)) as [H1 H2]; [done|intros k' Hk'; set_solver|].
  destruct (enum_own ps (k :: vis)) as [ks vis'] eqn:E. cbn [fst snd] in *.
  destruct (enum_own_spec _ _ _ _ E) as (_ & _ & Hsub).
  rewrite filter_cons. split.
  - cbn [fst snd]. rewrite H1. destruct (penumerable p);
      [rewrite decide_True by done|rewrite decide_False by done]; done.
  - intros k' Hk'. unfold assoc_keys in Hk'. cbn [map fst] in Hk'.
    apply elem_of_cons in Hk' as [->|Hk']; [apply Hsub; left; left|by apply H2].
Qed.


Lemma own_order_keys {A} (ps : list (string * A)) k :
  k ∈ assoc_keys (own_order ps) <-> k ∈ assoc_keys ps.
Proof. unfold assoc_keys. by rewrite (own_order_perm ps). Qed.

Lemma assoc_own_order {A} (ps : list (string * A)) k :
  NoDup (assoc_keys ps) -> assoc k (own_order ps) = assoc k ps.
Proof. intros Hnd. apply assoc_perm; [done|]. symmetry. apply own_order_perm. Qed.

Lemma arguments_props_keys args :
  assoc_keys (arguments_props args) = (index_key <$> seq 0 (length args)) ++ ["length"].
Proof.
  unfold arguments_props, assoc_keys. rewrite map_app. f_equal.
  change (fst <$> imap (fun i v => (index_key i, data_prop v)) args = index_key <$> seq 0 (length args)).
  rewrite fmap_imap, <-imap_seq_0. by apply imap_ext.
Qed.

(** The [arguments] object has no duplicate key. *)
Lemma arguments_props_NoDup args : NoDup (assoc_keys (arguments_props args)).
Proof.
  rewrite arguments_props_keys. apply NoDup_app. split; [|split; [|apply NoDup_singleton]].
  - apply NoDup_fmap_2; [intros ??; apply index_key_inj | apply NoDup_seq].
  - intros k Hk ->%list_elem_of_singleton. apply list_elem_of_fmap in Hk as (i & E & _).
    by apply (index_key_not_length i).
Qed.

(** The [arguments] object is allocated at [hnext h] and holds the
    [i]-th argument at the key [i]. *)
Lemma own_prop_new_arguments args h i v :
  args !! i = Some v -> own_prop (new_arguments args h).2 (hnext h) (index_key i) = Some (data_prop v).
Proof.
  intros Hi. unfold own_prop, new_arguments, alloc. cbn [hmem snd]. rewrite lookup_insert_eq. cbn [oprops].
  apply elem_assoc_Some; [apply arguments_props_NoDup|]. apply elem_of_app. left.
  exact (elem_of_lookup_imap_2 (fun i v => (index_key i, data_prop v)) args v i Hi).
Qed.

(** The keys of a [for-in] loop are distinct. *)
Lemma for_in_keys_NoDup h v : NoDup (for_in_keys h v).
Proof.
  destruct v; simpl; try apply enum_chain_spec; try constructor.
  apply NoDup_app. split; [apply string_index_keys_NoDup|]. split; [|apply enum_chain_spec].
  intros k Hk Hk'. apply (proj2 (enum_chain_spec _ _ _) k Hk'). set_solver.
Qed.

(** A key [for-in] yields can be read: the base is not [undefined] or
    [null]. *)
Lemma for_in_keys_get h v k : k ∈ for_in_keys h v -> is_Some (get_value h v k).
Proof.
  destruct v; simpl; try set_solver; intros _;
    try (destruct (string_own_get _ _)); eauto.
Qed.

Lemma own_prop_ok h l k p :
  heap_wf h -> own_prop h l k = Some p -> val_ok h (pvalue p).
Proof.
  intros Hwf Hq. unfold own_prop in Hq. destruct (hmem h !! l) as [o|] eqn:Ho; [|done]. simpl in Hq.
  destruct (wf_lookup h l o Hwf Ho) as (_&_&_&Hvs).
  clear -Hq Hvs. induction (oprops o) as [|[k' p'] ps IHps]; simpl in *; [done|].
  apply Forall_cons in Hvs as [Hp Hvs].
  destruct (String.eqb k k'); [by injection Hq as <-|by apply IHps].
Qed.

Lemma lookup_in_ok h ls k p :
  heap_wf h -> lookup_in h ls k = Some p -> val_ok h (pvalue p).
Proof.
  intros Hwf. induction ls as [|l ls IH]; simpl; [done|].
  destruct (own_prop h l k) as [q|] eqn:Hq; [|done]. intros [= <-]. by eapply own_prop_ok.
Qed.

(** A function found at [f.apply] is allocated. *)
Lemma get_apply_ok h v g :
  heap_wf h -> get_apply h v = Some (ApplyProp g) -> val_ok h g.
Proof.
  intros Hwf.
  assert (Hin : forall fp ls, apply_in h fp ls = ApplyProp g -> val_ok h g).
  { intros fp ls. induction ls as [|l ls IH]; simpl; [by intros [= <-]|].
    destruct (own_prop h l "apply") as [p|] eqn:Hp; [intros [= <-]; by eapply own_prop_ok|].
    case_decide; [done|exact IH]. }
  unfold get_apply. destruct v; try done; intros [= H]; by eapply Hin.
Qed.

(** Values read from a well-formed heap are allocated. *)
Lemma get_value_ok h v k x :
  heap_wf h -> get_value h v k = Some x -> val_ok h x.
Proof.
  intros Hwf. unfold get_value.
  assert (Hpv : forall ls, val_ok h (prop_value (lookup_in h ls k))).
  { intros ls. destruct (lookup_in h ls k) as [p|] eqn:E; [|done]. by eapply lookup_in_ok. }
  destruct v; try discriminate; try (intros [= <-]; apply Hpv).
  destruct (string_own_get s k) as [y|] eqn:E; [|intros [= <-]; apply Hpv].
  intros [= <-]. unfold string_own_get in E.
  destruct (String.eqb k "length"); [by injection E as <-|].
  destruct (string_index_of s k); [|done].
  destruct (String.get n s); simpl in E; [by injection E as <-|done].
Qed.

(** One step along the chain. *)
Lemma chain_unfold h l o :
  heap_wf h -> hmem h !! l = Some o -> chain h (Some l) = l :: chain h (oproto o).
Proof.
  intros Hwf Ho. unfold chain.
  destruct (wf_lookup h l o Hwf Ho) as [Hlt _]. apply Pos2Nat.inj_lt in Hlt.
  destruct (Pos.to_nat (hnext h)) as [|N] eqn:EN; [lia|].
  destruct (wf_proto_allocated h l o Hwf Ho) as [Ha Hb].
  rewrite (chain_from_fuel h (oproto o) (S N) N) by (done || lia).
  simpl. by rewrite Ho.
Qed.

(** [for-in] over an object: its own enumerable keys in
    OrdinaryOwnPropertyKeys order, then what its prototype chain
    contributes, none of which is an own key. *)
Lemma for_in_keys_obj h l o :
  heap_wf h -> hmem h !! l = Some o ->
  exists vis, for_in_keys h (VObj l)
    = assoc_keys (filter (fun kp => penumerable kp.2 = true) (own_order (oprops o)))
      ++ enum_chain h (chain h (oproto o)) vis
    /\ forall k, k ∈ assoc_keys (oprops o) -> k ∈ vis.
Proof.
  intros Hwf Ho. destruct (wf_lookup h l o Hwf Ho) as (_ & _ & Hnd & _).
  cbn [for_in_keys]. rewrite (chain_unfold h l o Hwf Ho). cbn [enum_chain]. rewrite Ho.
  destruct (enum_own_fresh (own_order (oprops o)) []) as [H1 H2];
    [unfold assoc_keys; by rewrite (own_order_perm (oprops o))|set_solver|].
  destruct (enum_own (own_order (oprops o)) []) as [ks vis] eqn:E. cbn [fst snd] in H1, H2.
  exists vis. split; [by rewrite H1|]. intros k Hk. apply H2. by apply own_order_keys.
Qed.

(** A function object with no own property: its code, and its [f.apply]. *)
Lemma code_of_function_obj h f r c :
  hmem h !! f = Some (mkObj [] r true (Some c)) -> code_of h (VObj f) = Some c.
Proof. intros Hf. unfold code_of. by rewrite Hf. Qed.

Lemma get_apply_function_obj h f c :
  heap_wf h -> hmem h !! f = Some (mkObj [] (function_prototype (hrealm h)) true (Some c)) ->
  get_apply h (VObj f) = Some (fp_apply h).
Proof.
  intros Hwf Hf. destruct (wf_lookup h f _ Hwf Hf) as (_ & Hp & _). cbn [oproto] in Hp.
  unfold get_apply, fp_apply. rewrite (chain_unfold h f _ Hwf Hf). cbn [apply_in oproto].
  unfold own_prop at 1. rewrite Hf. cbn. case_decide as Heq; [|done].
  rewrite <-Heq in Hp. lia.
Qed.

Lemma fp_apply_ext h h' : heap_wf h -> heap_ext h h' -> fp_apply h' = fp_apply h.
Proof.
  intros Hwf Hext. pose proof Hext as (Hsub & _ & Hr). unfold fp_apply.
  rewrite Hr, (chain_ext h h') by (done || by destruct Hwf as [_ (?&?&?&?&?)]).
  apply apply_in_agree. intros l Hl. apply own_prop_ext; [done|]. by eapply chain_allocated.
Qed.

(** [for-in] over an object yields its own enumerable keys... *)
Lemma for_in_own h l k p :
  heap_wf h -> own_prop h l k = Some p -> penumerable p = true -> k ∈ for_in_keys h (VObj l).
Proof.
  intros Hwf Hk He. unfold own_prop in Hk. destruct (hmem h !! l) as [o|] eqn:Ho; [|done].
  simpl in Hk. simpl. rewrite (chain_unfold h l o Hwf Ho). simpl. rewrite Ho.
  destruct (wf_lookup h l o Hwf Ho) as (_ & _ & Hnd & _).
  destruct (enum_own (own_order (oprops o)) []) as [ks vis] eqn:E.
  assert (k ∈ (ks, vis).1) by (rewrite <-E; eapply enum_own_complete; [set_solver| |done];
    by rewrite assoc_own_order).
  simpl in *. set_solver.
Qed.

(** ... and the enumerable keys of its prototype it does not shadow. *)
(** A key the object does not own but its prototype does: the read
    finds the prototype's property. *)
Lemma lookup_inherited h l o p po k q :
  heap_wf h -> hmem h !! l = Some o -> oproto o = Some p -> hmem h !! p = Some po ->
  assoc k (oprops o) = None -> assoc k (oprops po) = Some q ->
  lookup_in h (chain h (oproto o)) k = Some q /\ get_value h (VObj l) k = Some (pvalue q).
Proof.
  intros Hwf Ho Hp Hpo Hk Hq.
  assert (Hc : lookup_in h (chain h (oproto o)) k = Some q).
  { rewrite Hp, (chain_unfold h p po Hwf Hpo). cbn [lookup_in].
    unfold own_prop at 1. rewrite Hpo. cbn. by rewrite Hq. }
  split; [done|]. cbn [get_value]. rewrite (chain_unfold h l o Hwf Ho). cbn [lookup_in].
  unfold own_prop at 1. rewrite Ho. cbn. rewrite Hk. by rewrite Hc.
Qed.

Lemma own_keys_store h l o : own_keys (heap_store h l o) l = assoc_keys (oprops o).
Proof. unfold own_keys. simpl. by rewrite lookup_insert_eq. Qed.

Lemma for_in_inherited h l o p po k q :
  heap_wf h -> hmem h !! l = Some o -> oproto o = Some p -> hmem h !! p = Some po ->
  assoc k (oprops o) = None -> assoc k (oprops po) = Some q -> penumerable q = true ->
  k ∈ for_in_keys h (VObj l).
Proof.
  intros Hwf Ho Hp Hpo Hk Hq He. simpl.
  rewrite (chain_unfold h l o Hwf Ho), Hp, (chain_unfold h p po Hwf Hpo). simpl.
  rewrite Ho, Hpo. destruct (enum_own (own_order (oprops o)) []) as [ks vis] eqn:E.
  destruct (enum_own (own_order (oprops po)) vis) as [ks' vis'] eqn:E'.
  destruct (wf_lookup h p po Hwf Hpo) as (_ & _ & Hnd & _).
  assert (Hnv : k ∉ vis).
  { intros Hv. destruct (enum_own_visited _ _ _ _ E k Hv) as [Hv'|Hv']; [set_solver|].
    apply (proj1 (own_order_keys _ _)) in Hv'. apply assoc_None_keys in Hk. contradiction. }
  assert (k ∈ (ks', vis').1) by (rewrite <-E'; eapply enum_own_complete; [done| |done];
    by rewrite assoc_own_order).
  simpl in *. set_solver.
Qed.

Lemma code_of_ok h v c : code_of h v = Some c -> val_ok h v.
Proof.
  destruct v as [| | | | |l]; try done. simpl.
  destruct (hmem h !! l); [by eexists|done].
Qed.
End ForIn.

#[export] Hint Resolve get_value_ok code_of_ok val_ok_ext allocated_ext alloc_ext obj_set_wf : tw.
