(* ===== verification/JsMonad.v ===== *)
(** * The monad of JavaScript computations

    A computation takes the heap and returns either a value or a thrown
    error, in both cases with the heap as it is at that point: effects
    done before an exception are not rolled back (the specification's
    "no rollback" of section 7).  The primitive operations lift the heap
    functions of [JsHeap], turning their [None] into the [TypeError] the
    engine throws.  Notation: [let* x := m in k] in [tw_scope]. *)

From S2P Require Import Prelude JsValue JsHeap.

(** The errors a computation of the model can end with. *)
Inductive error :=
  | TypeError            (** property access on [undefined]/[null], call of a non-function *)
  | RangeError           (** the call stack is exhausted *)
  | Thrown (v : value)   (** a [throw] of a host function *)
  | Unmodelled.          (** a behaviour the model leaves out (see [key_of]) *)

Section Monad.
Context {Code : Type}.

Inductive outcome (A : Type) :=
  | Ok (a : A) (h : heap Code)
  | Err (e : error) (h : heap Code).

Definition M (A : Type) : Type := heap Code -> outcome A.

Definition ret {A} (a : A) : M A := fun h => Ok A a h.

Definition bind {A B} (m : M A) (f : A -> M B) : M B :=
  fun h => match m h with Ok _ a h' => f a h' | Err _ e h' => Err B e h' end.

Definition throw {A} (e : error) : M A := fun h => Err A e h.

(** ** Lifted heap operations *)

(** [v[k]] *)
Definition js_get (v : value) (k : string) : M value :=
  fun h => match get_value h v k with
           | Some x => Ok _ x h
           | None => Err _ TypeError h
           end.

(** [base[k] = v] *)
Definition js_put (base : value) (k : string) (v : value) : M unit :=
  fun h => match put_value h base k v with
           | Some h' => Ok _ tt h'
           | None => Err _ TypeError h
           end.

Definition js_typeof (v : value) : M string := fun h => Ok _ (typeof h v) h.

Definition js_for_in_keys (v : value) : M (list string) :=
  fun h => Ok _ (for_in_keys h v) h.

Definition js_new_object : M loc :=
  fun h => let '(l, h') := new_object h in Ok _ l h'.

Definition js_define (l : loc) (k : string) (v : value) : M unit :=
  fun h => Ok _ tt (obj_define h l k v).

Definition js_get_apply (f : value) : M apply_ref :=
  fun h => match get_apply h f with
           | Some a => Ok _ a h
           | None => Err _ TypeError h
           end.

Definition js_new_arguments (args : list value) : M loc :=
  fun h => let '(l, h') := new_arguments args h in Ok _ l h'.

Definition js_new_function (c : Code) : M loc :=
  fun h => let '(l, h') := new_function c h in Ok _ l h'.

(** ** Laws *)

Lemma bind_ret_l {A B} (a : A) (f : A -> M B) h : bind (ret a) f h = f a h.
Proof. done. Qed.

Lemma bind_ret_r {A} (m : M A) h : bind m ret h = m h.
Proof. unfold bind, ret. by destruct (m h). Qed.

Lemma bind_assoc {A B C} (m : M A) (f : A -> M B) (g : B -> M C) h :
  bind (bind m f) g h = bind m (fun a => bind (f a) g) h.
Proof. unfold bind. by destruct (m h). Qed.

Lemma bind_Ok {A B} (m : M A) (f : A -> M B) h a h' :
  m h = Ok _ a h' -> bind m f h = f a h'.
Proof. unfold bind. by intros ->. Qed.

Lemma bind_Err {A B} (m : M A) (f : A -> M B) h e h' :
  m h = Err _ e h' -> bind m f h = Err _ e h'.
Proof. unfold bind. by intros ->. Qed.
End Monad.

Arguments Ok {Code A} a h.
Arguments Err {Code A} e h.
Arguments M : clear implicits.

Notation "'let*' x ':=' c1 'in' c2" := (bind c1 (fun x => c2))
  (at level 100, x pattern, c1 at next level, right associativity) : tw_scope.

#[export] Hint Rewrite @bind_ret_l @bind_assoc : tw_rw.
