(* ===== verification/Trainwreck.v ===== *)
(** * The library: [fn], [prop], [create] (src/trainwreck.js, lines 9-59)

    The closures the library creates are function objects of the heap
    whose code is a value of [code]: [FnAdapter fnName scope chain] is the
    function expression of line 20 with the three variables it captures,
    [PropAccessor propName scope chain] that of line 34.  Functions of the
    host program (the target's own methods) are [Native] codes whose
    behaviour is given by an instance of [Host].

    [call n f this args] runs a function object; [n] is the depth of the
    call stack still available, and a call made with none left throws the
    [RangeError] of a stack overflow.  As in ECMA-262 [[Call]], a value
    that is not callable throws [TypeError] before any frame is pushed. *)

From S2P Require Import Prelude JsValue JsHeap JsMonad.

#[local] Open Scope tw_scope.

Inductive code :=
  | FnAdapter (fnName : string) (scope chain : value)
  | PropAccessor (propName : string) (scope chain : value)
  | LibFn
  | LibProp
  | LibCreate (lib : value)
  | Native (id : nat).

Abbreviation Heap := (heap code).
Abbreviation JS := (M code).

(** How a function calls another: callee, [this], arguments. *)
Definition Caller : Type := value -> value -> list value -> JS value.

(** The functions of the host program.  A host function receives the
    interpreter (at the remaining depth) to call other functions, the
    wrappers' included. *)
Class Host := { host_call : Caller -> nat -> value -> list value -> JS value }.

(** The first argument, [undefined] when absent ([function(val)]). *)
Definition arg0 (args : list value) : value :=
  match args with [] => VUndef | v :: _ => v end.

(** [arguments[i]], [undefined] when absent. *)
Definition arg (i : nat) (args : list value) : value := default VUndef (args !! i).

(** ** [trainwreck.fn] (lines 19-23) *)

(** A call of a function found as [f.apply] other than the built-in one,
    with [this = f] and the arguments [(scope, arguments)].  A callee
    that is not callable throws [TypeError] before the [arguments] object
    can be reached, so it is allocated only for a callable one. *)
Definition call_with_arguments (call : Caller) (g f scope : value) (args : list value)
    : JS value :=
  fun h =>
    match code_of h g with
    | None => Err TypeError h
    | Some _ => (let* a := js_new_arguments args in call g f [scope; VObj a]) h
    end.

(** The body of the returned closure (line 21):
    [return scope[fnName].apply(scope, arguments) || chain;]
    The built-in [apply] calls [f] with [this = scope] and the list of
    the arguments (its own frame is not counted in the stack depth). *)
Definition fn_body (call : Caller) (fnName : string) (scope chain : value)
    (args : list value) : JS value :=
  let* f := js_get scope fnName in
  let* ap := js_get_apply f in
  let* r := (match ap with
             | ApplyBuiltin => call f scope args
             | ApplyProp g => call_with_arguments call g f scope args
             end) in
  ret (js_or r chain).

Definition fn (fnName : string) (scope chain : value) : JS value :=
  let* l := js_new_function (FnAdapter fnName scope chain) in
  ret (VObj l).

(** ** [trainwreck.prop] (lines 33-42) *)

(** The body of the returned closure (lines 35-40). *)
Definition prop_body (propName : string) (scope chain : value) (args : list value)
    : JS value :=
  let val := arg0 args in
  let* t := js_typeof val in
  if String.eqb t "undefined" then js_get scope propName
  else
    let* _ := js_put scope propName val in
    ret chain.

Definition prop (propName : string) (scope chain : value) : JS value :=
  let* l := js_new_function (PropAccessor propName scope chain) in
  ret (VObj l).

(** ** [trainwreck.create] (lines 50-57) *)

(** The loop body of lines 52-55, over the keys [for-in] enumerates. *)
Fixpoint create_loop (target obj : value) (keys : list string) : JS unit :=
  match keys with
  | [] => ret tt
  | p :: ps =>
      let* tv := js_get target p in
      let* t := js_typeof tv in
      let* f := (if String.eqb t "function" then fn p target obj else prop p target obj) in
      let* _ := js_put obj p f in
      create_loop target obj ps
  end.

Definition create (target : value) : JS value :=
  let* l := js_new_object in
  let obj := VObj l in
  let* keys := js_for_in_keys target in
  let* _ := create_loop target obj keys in
  ret obj.

(** ** [create] as line 54 reads it: through the library object

    [trainwreck.fn(prop, target, obj)] reads the property ["fn"] of the
    object the variable [trainwreck] holds at every iteration and calls
    it with [this = trainwreck]; likewise ["prop"].  [create] above is
    this loop with the two calls resolved to [fn] and [prop], which they
    are while the library object still holds its own functions
    ([Library.create_lib_eq]). *)

Definition lib_make (call : Caller) (lib : value) (which p : string) (target obj : value)
    : JS value :=
  let* g := js_get lib which in
  call g lib [VStr p; target; obj].

Fixpoint create_lib_loop (call : Caller) (lib target obj : value) (keys : list string)
    : JS unit :=
  match keys with
  | [] => ret tt
  | p :: ps =>
      let* tv := js_get target p in
      let* t := js_typeof tv in
      let* f := (if String.eqb t "function" then lib_make call lib "fn" p target obj
                 else lib_make call lib "prop" p target obj) in
      let* _ := js_put obj p f in
      create_lib_loop call lib target obj ps
  end.

Definition create_lib (call : Caller) (lib target : value) : JS value :=
  let* l := js_new_object in
  let obj := VObj l in
  let* keys := js_for_in_keys target in
  let* _ := create_lib_loop call lib target obj keys in
  ret obj.

(** ** The library object (lines 9-59)

    The object literal: a fresh object whose properties [fn], [prop] and
    [create] are defined in order, each value a function expression
    evaluated (allocated) just before its property is defined.  The
    function of [create] captures the variable [trainwreck], which holds
    the literal's object once the declaration completes and is never
    reassigned. *)
Definition make_library : JS value :=
  let* l := js_new_object in
  let* f := js_new_function LibFn in
  let* _ := js_define l "fn" (VObj f) in
  let* p := js_new_function LibProp in
  let* _ := js_define l "prop" (VObj p) in
  let* c := js_new_function (LibCreate (VObj l)) in
  let* _ := js_define l "create" (VObj c) in
  ret (VObj l).

(** The bodies of the three functions, on the arguments of a call.  The
    name a closure captures is converted to a key by ToPropertyKey when
    line 21 or 36 uses it; for the primitives [key_of] covers that is
    ToString, the same at every use, so the conversion is done once. *)
Definition lib_fn (args : list value) : JS value :=
  match key_of (arg 0 args) with
  | Some k => fn k (arg 1 args) (arg 2 args)
  | None => throw Unmodelled
  end.

Definition lib_prop (args : list value) : JS value :=
  match key_of (arg 0 args) with
  | Some k => prop k (arg 1 args) (arg 2 args)
  | None => throw Unmodelled
  end.

(** ** Calling a function object *)

Section Call.
Context `{!Host}.

Definition run_code (call : Caller) (c : code) (thisv : value) (args : list value)
    : JS value :=
  match c with
  | FnAdapter n s ch => fn_body call n s ch args
  | PropAccessor n s ch => prop_body n s ch args
  | LibFn => lib_fn args
  | LibProp => lib_prop args
  | LibCreate lib => create_lib call lib (arg 0 args)
  | Native id => host_call call id thisv args
  end.

Fixpoint call (n : nat) (f thisv : value) (args : list value) : JS value :=
  fun h =>
    match code_of h f with
    | None => Err TypeError h
    | Some c =>
        match n with
        | O => Err RangeError h
        | S n' => run_code (call n') c thisv args h
        end
    end.

(** A method call [o.k(args)]: look [k] up on [o], call it with [this = o]. *)
Definition invoke (n : nat) (o : value) (k : string) (args : list value) : JS value :=
  let* f := js_get o k in
  call n f o args.

Lemma call_S n f thisv args h c :
  code_of h f = Some c -> call (S n) f thisv args h = run_code (call n) c thisv args h.
Proof. simpl. by intros ->. Qed.

Lemma call_not_callable n f thisv args h :
  code_of h f = None -> call n f thisv args h = Err TypeError h.
Proof. destruct n; simpl; by intros ->. Qed.
End Call.
