(* ===== verification/Demo.v ===== *)
(** * A concrete realm and host program

    The heap and host functions on which the theorems' witnesses are
    evaluated: a realm with [Object.prototype] (carrying a
    non-enumerable [toString]), [Function.prototype] and the primitive
    prototypes, and the target of the specification's scenario (section
    8), [{ name: "Bob", greet: function(who){ this.name = who; } }],
    together with a few other host methods. *)

From S2P Require Import Prelude JsValue JsHeap JsMonad Trainwreck.

#[local] Open Scope tw_scope.

(** Host function identifiers. *)
Definition id_function_prototype := 0.
Definition id_to_string := 1.
Definition id_greet := 2.      (* function(who){ this.name = who; } *)
Definition id_identity := 3.   (* function(x){ return x; } *)
Definition id_thrower := 4.    (* function(x){ throw x; } *)
(* An AMD loader's define(id, value) for a module value that is not a
   function: registry[id] = value, the registry being the object at 12. *)
Definition id_define := 5.

Definition demo_host_call (call : Caller) (id : nat) (thisv : value) (args : list value)
    : JS value :=
  match id with
  | 1 => ret (VStr "[object Object]")
  | 2 => let* _ := js_put thisv "name" (arg0 args) in ret VUndef
  | 3 => ret (arg0 args)
  | 4 => throw (Thrown (arg0 args))
  | 5 => match arg0 args with
         | VStr k => let* _ := js_put (VObj 12) k (arg 1 args) in ret VUndef
         | _ => ret VUndef
         end
  | _ => ret VUndef
  end.

#[export] Instance demo_host : Host := {| host_call := demo_host_call |}.

Definition plain (ps : list (string * property)) (proto : option loc) : obj code :=
  mkObj ps proto true None.

Definition native (id : nat) : obj code := mkObj [] (Some 2%positive) true (Some (Native id)).

Definition hidden (v : value) : property := mkProp v true false.

(** Locations 1-6 are the realm; 7 is [greet]; 8 the scenario's target;
    9 [identity], 10 [thrower], 11 a second target
    [{ id: identity, fail: thrower }], 12 an empty object [{}]. *)
Definition demo_realm : realm := mkRealm (Some 1%positive) (Some 2%positive)
  (Some 4%positive) (Some 5%positive) (Some 6%positive).

Definition demo_objects : list (loc * obj code) :=
  [ (1%positive, plain [("toString", hidden (VObj 3))] None);
    (2%positive, mkObj [] (Some 1%positive) true (Some (Native id_function_prototype)));
    (3%positive, native id_to_string);
    (4%positive, plain [] (Some 1%positive));
    (5%positive, plain [] (Some 1%positive));
    (6%positive, plain [] (Some 1%positive));
    (7%positive, native id_greet);
    (8%positive, plain [("name", data_prop (VStr "Bob")); ("greet", data_prop (VObj 7))]
                       (Some 1%positive));
    (9%positive, native id_identity);
    (10%positive, native id_thrower);
    (11%positive, plain [("id", data_prop (VObj 9)); ("fail", data_prop (VObj 10))]
                        (Some 1%positive));
    (12%positive, plain [] (Some 1%positive)) ].

Definition demo_heap : Heap := mkHeap (list_to_map demo_objects) 13%positive demo_realm.

Definition bob : value := VObj 8.

(** The scenario of section 8, run step by step. *)
Example demo_create : exists h, create bob demo_heap = Ok (VObj 13) h.
Proof. eexists. vm_compute. reflexivity. Qed.

Definition tools : value := VObj 11.

Definition empty_target : value := VObj 12.

Definition heap_of {A} (r : outcome A) : Heap := match r with Ok _ h => h | Err _ h => h end.

(** The heap after [create bob]: the wrapper at 13, the accessor of
    ["name"] at 14, the adapter of ["greet"] at 15. *)
Definition demo_wrapped : Heap := heap_of (create bob demo_heap).

Definition bob_w : value := VObj 13.

(** The heap after [create tools]: the wrapper at 13, the adapters of
    ["id"] at 14 and of ["fail"] at 15. *)
Definition tools_wrapped : Heap := heap_of (create tools demo_heap).

Definition tools_w : value := VObj 13.

(** [Object.freeze(o)] of the host: every own property read-only, the
    object not extensible. *)
Definition object_freeze (h : Heap) (l : loc) : Heap :=
  match hmem h !! l with
  | Some o =>
      heap_store h l (mkObj (map (fun kp => (kp.1, mkProp (pvalue kp.2) false (penumerable kp.2)))
                                 (oprops o)) (oproto o) false (ocode o))
  | None => h
  end.

(** The scenario's heap with the target frozen after wrapping. *)
Definition demo_frozen : Heap := object_freeze demo_wrapped 8.

(** The scenario's heap where [target.greet = 1] after wrapping. *)
Definition demo_greet_replaced : Heap := obj_set demo_wrapped 8 "greet" (VNum 1).

Lemma demo_heap_wf : heap_wf demo_heap.
Proof. apply (bool_decide_unpack _). vm_compute. reflexivity. Qed.

(** [{ x: 0, y: 0 }], allocated at 13. *)
Definition point_heap : Heap :=
  (alloc (plain [("x", data_prop (VNum 0)); ("y", data_prop (VNum 0))] (Some 1%positive))
     demo_heap).2.

(** [Object.create(bob)], allocated at 13: it inherits ["name"] and
    ["greet"]. *)
Definition child_heap : Heap := (alloc (plain [] (Some 8%positive)) demo_heap).2.

(** The scenario's heap where [target.greet = w.greet] after wrapping:
    the adapter now looks itself up. *)
Definition demo_self_loop : Heap := obj_set demo_wrapped 8 "greet" (VObj 15).

(** The scenario's heap where [target.greet = identity] after wrapping. *)
Definition demo_greet_identity : Heap := obj_set demo_wrapped 8 "greet" (VObj 9).

(** An AMD loader: a function [define] (host function [id_define],
    whose registry is the empty object at 12) with [define.amd = true],
    allocated at 13. *)
Definition amd_heap : Heap :=
  (alloc (mkObj [("amd", data_prop (VBool true))] (Some 2%positive) true
            (Some (Native id_define))) demo_heap).2.

(** A CommonJS [module] object [{ exports: {} }] (the [{}] at 12),
    allocated at 13. *)
Definition node_heap : Heap :=
  (alloc (plain [("exports", data_prop (VObj 12))] (Some 1%positive)) demo_heap).2.

(** The library object built on [demo_heap] (lines 9-59): [trainwreck]
    at 13, its functions [fn], [prop] and [create] at 14, 15 and 16. *)
Definition lib_heap : Heap := heap_of (make_library demo_heap).

(** [trainwreck.prop = thrower]: a client replaces the library's
    accessor factory by host function 10. *)
Definition lib_prop_replaced : Heap := obj_set lib_heap 13 "prop" (VObj 10).

(** [{ b: 1, 2: 2, 1: 3 }] (keys inserted in that order), allocated at
    13: its array-index keys come first, in ascending order. *)
Definition indexed_heap : Heap :=
  (alloc (plain [("b", data_prop (VNum 1)); ("2", data_prop (VNum 2)); ("1", data_prop (VNum 3))]
                (Some 1%positive)) demo_heap).2.

(** [tools] wrapped, then [identity.apply = identity]: the adapter of
    [id] (at 14) now calls [identity] through that property. *)
Definition tools_apply_identity : Heap := obj_set tools_wrapped 9 "apply" (VObj 9).
