(* ===== verification/Closures.v ===== *)
(** * The two closures: accessor and method adapter

    The behaviour of a call to a function object created by [prop]
    (lines 34-41) or by [fn] (lines 20-22), whatever the heap and the host
    program: the specification's P2-P5 at the level of one closure, its
    error cases, the read-after-write round trip, and the call of an
    ["apply"] property found on the method (line 21's [.apply]).  The witnesses run
    on the wrappers [create] builds in [Demo]. *)

From S2P Require Import Prelude JsValue JsHeap JsMonad Trainwreck Demo.

#[local] Open Scope tw_scope.

(** The outcome of [js_get] and [js_put] once the heap is known. *)
Definition get_outcome (h : Heap) (base : value) (k : string) : outcome value :=
  match get_value h base k with Some v => Ok v h | None => Err TypeError h end.

Definition put_outcome {A} (h : Heap) (base : value) (k : string) (v : value) (a : A)
    : outcome A :=
  match put_value h base k v with Some h' => Ok a h' | None => Err TypeError h end.

Section Closures.
Context `{!Host}.
Implicit Types (h : Heap).

Lemma prop_body_read k scope chain args h :
  is_undefined (arg0 args) = true ->
  prop_body k scope chain args h = get_outcome h scope k.
Proof.
  intros Hu. unfold prop_body, bind, js_typeof. simpl.
  rewrite typeof_undefined, Hu. unfold js_get, get_outcome. done.
Qed.

Lemma prop_body_write k scope chain args h :
  is_undefined (arg0 args) = false ->
  prop_body k scope chain args h = put_outcome h scope k (arg0 args) chain.
Proof.
  intros Hu. unfold prop_body, bind, js_typeof. simpl.
  rewrite typeof_undefined, Hu. unfold js_put, put_outcome.
  by destruct (put_value h scope k (arg0 args)).
Qed.

(** The adapter once the method is found: its outcome, mapped by [||]. *)
Lemma adapter_call n h f thisv args k scope chain m :
  code_of h f = Some (FnAdapter k scope chain) ->
  get_value h scope k = Some m ->
  get_apply h m = Some ApplyBuiltin ->
  call (S n) f thisv args h
  = match call n m scope args h with
    | Ok r h' => Ok (js_or r chain) h'
    | Err e h' => Err e h'
    end.
Proof.
  intros Hc Hm Ha. rewrite (call_S _ _ _ _ _ _ Hc). simpl.
  unfold fn_body, bind, js_get, js_get_apply. rewrite Hm, Ha.
  by destruct (call n m scope args h).
Qed.

(** A method call [o.k(args)] reaching a closure. *)
Lemma invoke_code n h o k args fv c :
  get_value h o k = Some fv -> code_of h fv = Some c ->
  invoke (S n) o k args h = run_code (call n) c o args h.
Proof. intros Hf Hc. unfold invoke, bind, js_get. rewrite Hf. by apply call_S. Qed.

(** [w.k(v)] on a wrapper whose [k] is an accessor of [scope]. *)
Lemma invoke_accessor_write n h w k f scope chain v :
  own_prop h w k = Some (data_prop (VObj f)) ->
  code_of h (VObj f) = Some (PropAccessor k scope chain) -> is_undefined v = false ->
  invoke (S n) (VObj w) k [v] h = put_outcome h scope k v chain.
Proof.
  intros Hk Hc Hv. rewrite (invoke_code n h _ k [v] (VObj f) _ (get_value_own _ _ _ _ Hk) Hc).
  by apply prop_body_write.
Qed.

Lemma invoke_accessor_read n h w k f scope chain :
  own_prop h w k = Some (data_prop (VObj f)) ->
  code_of h (VObj f) = Some (PropAccessor k scope chain) ->
  invoke (S n) (VObj w) k [] h = get_outcome h scope k.
Proof.
  intros Hk Hc. rewrite (invoke_code n h _ k [] (VObj f) _ (get_value_own _ _ _ _ Hk) Hc).
  by apply prop_body_read.
Qed.

(** ** Accessors *)

(** C3 (P2, read purity): an accessor called with no argument, or with
    [undefined], returns the property's current value read through the
    target's prototype chain, and the heap is left exactly as it was; a
    target [undefined] or [null] throws [TypeError], also without
    effect. *)
Theorem accessor_read n h f thisv args k scope chain :
  code_of h f = Some (PropAccessor k scope chain) ->
  is_undefined (arg0 args) = true ->
  call (S n) f thisv args h = get_outcome h scope k.
Proof. intros Hc Hu. rewrite (call_S _ _ _ _ _ _ Hc). by apply prop_body_read. Qed.

(** C4 (P3, write and chain): an accessor called with a first argument
    other than [undefined] assigns it to the target's property by
    sloppy-mode [[Set]] and returns the chain object it captured (the
    wrapper), never the value; a target [undefined] or [null] throws
    [TypeError] without effect. *)
Theorem accessor_write n h f thisv args k scope chain :
  code_of h f = Some (PropAccessor k scope chain) ->
  is_undefined (arg0 args) = false ->
  call (S n) f thisv args h = put_outcome h scope k (arg0 args) chain.
Proof. intros Hc Hu. rewrite (call_S _ _ _ _ _ _ Hc). by apply prop_body_write. Qed.

(** ** Method adapters *)

(** C5 (P4, truthy result): when the target's method, looked up at call
    time, returns a truthy value, the adapter returns exactly that value,
    with the heap the method left (the same effects as a direct call). *)
Theorem adapter_truthy n h f thisv args k scope chain m r h' :
  code_of h f = Some (FnAdapter k scope chain) ->
  get_value h scope k = Some m ->
  get_apply h m = Some ApplyBuiltin ->
  call n m scope args h = Ok r h' ->
  to_boolean r = true ->
  call (S n) f thisv args h = Ok r h'.
Proof.
  intros Hc Hm Ha Hr Ht. rewrite (adapter_call n h f thisv args k scope chain m Hc Hm Ha), Hr.
  by autorewrite with tw_rw.
Qed.

(** C6 (P5, chain fallback): when the method returns a falsy value
    ([undefined], [null], [false], [0], [-0], [NaN] or [""]), the adapter
    returns the chain object instead, with the heap the method left. *)
Theorem adapter_falsy n h f thisv args k scope chain m r h' :
  code_of h f = Some (FnAdapter k scope chain) ->
  get_value h scope k = Some m ->
  get_apply h m = Some ApplyBuiltin ->
  call n m scope args h = Ok r h' ->
  to_boolean r = false ->
  call (S n) f thisv args h = Ok chain h'.
Proof.
  intros Hc Hm Ha Hr Ht. rewrite (adapter_call n h f thisv args k scope chain m Hc Hm Ha), Hr.
  by autorewrite with tw_rw.
Qed.

(** C8 (errors propagate): when the method throws, the adapter throws
    the same error with the heap as the method left it: the library
    recovers nothing and rolls nothing back. *)
Theorem adapter_error n h f thisv args k scope chain m e h' :
  code_of h f = Some (FnAdapter k scope chain) ->
  get_value h scope k = Some m ->
  get_apply h m = Some ApplyBuiltin ->
  call n m scope args h = Err e h' ->
  call (S n) f thisv args h = Err e h'.
Proof.
  intros Hc Hm Ha Hr. by rewrite (adapter_call n h f thisv args k scope chain m Hc Hm Ha), Hr.
Qed.

(** C9 (InvocationError): when the target is [undefined] or [null], or
    its property is not callable at call time, the adapter throws
    [TypeError] and the heap is unchanged. *)
Theorem adapter_not_callable n h f thisv args k scope chain :
  code_of h f = Some (FnAdapter k scope chain) ->
  match get_value h scope k with
  | None => True
  | Some m => code_of h m = None
              /\ forall g, get_apply h m = Some (ApplyProp g) -> code_of h g = None
  end ->
  call (S n) f thisv args h = Err TypeError h.
Proof.
  intros Hc Hm. rewrite (call_S _ _ _ _ _ _ Hc). simpl. unfold fn_body, bind, js_get.
  destruct (get_value h scope k) as [m|]; [|done]. destruct Hm as [Hm Hg].
  unfold js_get_apply. destruct (get_apply h m) as [[|g]|]; [| |done].
  - by rewrite call_not_callable.
  - unfold call_with_arguments. by rewrite (Hg g eq_refl).
Qed.

(** C30 (line 21 calls whatever [.apply] finds): when the method found
    at call time has, own or inherited before [Function.prototype], a
    property ["apply"] holding a function [g], the adapter does not call
    the method: it allocates the [arguments] object (the call's
    arguments at their indices, at [hnext h]) and calls [g] with [this]
    the method and the arguments [scope] and that object, answering
    [g]'s result under [|| chain]. *)
Theorem adapter_custom_apply n h f thisv args k scope chain m g :
  code_of h f = Some (FnAdapter k scope chain) ->
  get_value h scope k = Some m ->
  get_apply h m = Some (ApplyProp g) ->
  is_Some (code_of h g) ->
  (forall i v, args !! i = Some v ->
     own_prop (new_arguments args h).2 (hnext h) (index_key i) = Some (data_prop v))
  /\ call (S n) f thisv args h
     = match call n g m [scope; VObj (hnext h)] (new_arguments args h).2 with
       | Ok r h' => Ok (js_or r chain) h'
       | Err e h' => Err e h'
       end.
Proof.
  intros Hc Hm Ha Hg. split; [intros i v; apply own_prop_new_arguments|].
  rewrite (call_S _ _ _ _ _ _ Hc). simpl.
  unfold fn_body, bind, js_get, js_get_apply. rewrite Hm, Ha.
  unfold call_with_arguments. destruct Hg as [cg ->]. unfold js_new_arguments, bind. simpl.
  by destruct (call n g m _ _).
Qed.

(** C10 (write-then-read round trip): on an own writable property of the
    target, the accessor's write followed by its read returns the value
    written, and the write returned the chain object. *)
Theorem accessor_write_then_read n h f l o k chain p v :
  code_of h f = Some (PropAccessor k (VObj l) chain) ->
  hmem h !! l = Some o -> assoc k (oprops o) = Some p -> pwritable p = true ->
  is_undefined v = false ->
  exists h', call (S n) f VUndef [v] h = Ok chain h' /\ call (S n) f VUndef [] h' = Ok v h'.
Proof.
  intros Hc Ho Hk Hw Hv. exists (obj_set h l k v). split.
  - rewrite (call_S _ _ _ _ _ _ Hc). by apply prop_body_write.
  - rewrite (call_S _ _ _ _ _ (PropAccessor k (VObj l) chain)) by by rewrite code_of_obj_set.
    simpl. rewrite prop_body_read by done. unfold get_outcome.
    by rewrite (get_value_own _ _ _ _ (own_prop_obj_set_writable h l o k p v Ho Hk Hw)).
Qed.

(** C14 (no WriteError): in sloppy mode a write through an accessor to a
    read-only property (for instance of a frozen target) is silently
    dropped: the accessor returns the chain object and the heap is
    unchanged.  The specification (section 7) says a WriteError
    propagates. *)
Theorem accessor_write_readonly n h f l o k chain p v :
  code_of h f = Some (PropAccessor k (VObj l) chain) ->
  hmem h !! l = Some o -> assoc k (oprops o) = Some p -> pwritable p = false ->
  is_undefined v = false ->
  call (S n) f VUndef [v] h = Ok chain h.
Proof.
  intros Hc Ho Hk Hw Hv. rewrite (call_S _ _ _ _ _ _ Hc). simpl.
  rewrite prop_body_write by done. unfold put_outcome. simpl.
  by rewrite (obj_set_readonly h l o k p v Ho Hk Hw).
Qed.

End Closures.

(** ** Witnesses *)

Lemma accessor_read_witness :
  code_of demo_wrapped (VObj 14) = Some (PropAccessor "name" bob bob_w)
  /\ call 1 (VObj 14) bob_w [] demo_wrapped = Ok (VStr "Bob") demo_wrapped.
Proof.
  split; [vm_compute; reflexivity|].
  rewrite (accessor_read 0 demo_wrapped (VObj 14) bob_w [] "name" bob bob_w);
    [| vm_compute; reflexivity | reflexivity].
  vm_compute. reflexivity.
Defined.

Lemma accessor_write_witness :
  exists h', call 1 (VObj 14) bob_w [VStr "Alice"] demo_wrapped = Ok bob_w h'
  /\ get_value h' bob "name" = Some (VStr "Alice").
Proof.
  eexists. split.
  - rewrite (accessor_write 0 demo_wrapped (VObj 14) bob_w [VStr "Alice"] "name" bob bob_w);
      [| vm_compute; reflexivity | reflexivity].
    vm_compute. reflexivity.
  - vm_compute. reflexivity.
Defined.

Lemma adapter_truthy_witness :
  call 2 (VObj 14) tools_w [VStr "x"] tools_wrapped = Ok (VStr "x") tools_wrapped.
Proof.
  apply (adapter_truthy 1 tools_wrapped (VObj 14) tools_w [VStr "x"] "id" tools tools_w
           (VObj 9) (VStr "x") tools_wrapped); vm_compute; reflexivity.
Defined.

Lemma adapter_falsy_witness :
  call 2 (VObj 14) tools_w [VNum 0] tools_wrapped = Ok tools_w tools_wrapped.
Proof.
  apply (adapter_falsy 1 tools_wrapped (VObj 14) tools_w [VNum 0] "id" tools tools_w
           (VObj 9) (VNum 0) tools_wrapped); vm_compute; reflexivity.
Defined.

Lemma adapter_error_witness :
  call 2 (VObj 15) tools_w [VStr "boom"] tools_wrapped = Err (Thrown (VStr "boom")) tools_wrapped.
Proof.
  apply (adapter_error 1 tools_wrapped (VObj 15) tools_w [VStr "boom"] "fail" tools tools_w
           (VObj 10)); vm_compute; reflexivity.
Defined.

Lemma adapter_not_callable_witness :
  call 2 (VObj 15) bob_w [VStr "Carl"] demo_greet_replaced = Err TypeError demo_greet_replaced.
Proof.
  apply (adapter_not_callable 1 demo_greet_replaced (VObj 15) bob_w [VStr "Carl"] "greet" bob bob_w);
    vm_compute; [reflexivity | split; [reflexivity | intros g [= <-]; reflexivity]].
Defined.

Lemma accessor_write_then_read_witness :
  exists h', call 1 (VObj 14) VUndef [VStr "Alice"] demo_wrapped = Ok bob_w h'
  /\ call 1 (VObj 14) VUndef [] h' = Ok (VStr "Alice") h'.
Proof.
  apply (accessor_write_then_read 0 demo_wrapped (VObj 14) 8 (plain
    [("name", data_prop (VStr "Bob")); ("greet", data_prop (VObj 7))] (Some 1%positive))
    "name" bob_w (data_prop (VStr "Bob"))); vm_compute; reflexivity.
Defined.

Lemma accessor_write_readonly_witness :
  call 1 (VObj 14) VUndef [VStr "Alice"] demo_frozen = Ok bob_w demo_frozen.
Proof.
  apply (accessor_write_readonly 0 demo_frozen (VObj 14) 8 (mkObj
    [("name", mkProp (VStr "Bob") false true); ("greet", mkProp (VObj 7) false true)]
    (Some 1%positive) false None) "name" bob_w (mkProp (VStr "Bob") false true));
    vm_compute; reflexivity.
Defined.

(** [w.id("x")] with [identity.apply = identity]: the adapter answers
    the target [tools] ([identity] called with [this] [identity] and
    first argument [tools]), not ["x"]. *)
Lemma adapter_custom_apply_witness :
  call 2 (VObj 14) tools_w [VStr "x"] tools_apply_identity
  = Ok tools (new_arguments [VStr "x"] tools_apply_identity).2.
Proof.
  destruct (adapter_custom_apply 1 tools_apply_identity (VObj 14) tools_w [VStr "x"] "id" tools tools_w
              (VObj 9) (VObj 9)) as [_ ->];
    [vm_compute; reflexivity..|exists (Native id_identity); vm_compute; reflexivity|].
  vm_compute. reflexivity.
Defined.
