(* ===== verification/Wrapper.v ===== *)
(** * What [create] builds (lines 50-57)

    The loop of [create] is verified against an invariant on the heap:
    the wrapper is an extensible plain object inheriting from
    [Object.prototype] whose own properties are, in order, the keys
    processed so far that no read-only property of [Object.prototype]'s
    chain blocks, each holding a fresh function object whose code is the
    closure line 54 chooses; the heap stays well formed and every object
    of the initial heap is unchanged.  From it follow the specification's
    P1 and P7, the totality of [create], its frame property and the
    invariant's preservation. *)

From stdpp Require Import sorting.
From S2P Require Import Prelude JsValue JsHeap JsMonad Trainwreck Demo.

#[local] Open Scope tw_scope.

(** Whether [obj[k] = ...] on a fresh [{}] is dropped because a read-only
    property [k] is inherited from [Object.prototype]'s chain. *)
Definition blocked (h : Heap) (k : string) : bool :=
  match lookup_in h (chain h (object_prototype (hrealm h))) k with
  | Some p => negb (pwritable p)
  | None => false
  end.

(** The closure line 54 stores for key [k]: an adapter when
    [typeof target[k] === 'function'], an accessor otherwise. *)
Definition closure_for (h : Heap) (target w : value) (k : string) : code :=
  match get_value h target k with
  | Some tv =>
      if String.eqb (typeof h tv) "function" then FnAdapter k target w else PropAccessor k target w
  | None => PropAccessor k target w
  end.

(** The keys the wrapper ends up with. *)
Definition wrapper_keys (h : Heap) (target : value) : list string :=
  filter (fun k => blocked h k = false) (for_in_keys h target).

(** What [Object.prototype]'s chain blocks does not change as the heap
    grows. *)
Lemma blocked_ext h h' k : heap_wf h -> heap_ext h h' -> blocked h' k = blocked h k.
Proof.
  intros Hwf Hext. unfold blocked. pose proof Hext as (_ & _ & Hr). rewrite Hr.
  rewrite (lookup_chain_ext h h'); [done|done|done|by destruct Hwf as [_ []]].
Qed.

Section Loop.
Context (h : Heap) (target : value) (w : loc).
Hypothesis Hwf : heap_wf h.
Hypothesis Htarget : val_ok h target.
Hypothesis Hfresh : hmem h !! w = None.

(** The loop invariant, [ps] being the wrapper's own properties. *)
Definition loop_inv (hi : Heap) (ps : list (string * property)) : Prop :=
  heap_wf hi /\ heap_ext h hi
  /\ hmem hi !! w = Some (mkObj ps (object_prototype (hrealm h)) true None)
  /\ forall k p, assoc k ps = Some p ->
       exists f, p = data_prop (VObj f)
         /\ hmem hi !! f = Some (mkObj [] (function_prototype (hrealm h)) true
                                      (Some (closure_for h target (VObj w) k))).

(** One iteration: the closure is allocated at [hnext hi] and stored
    unless the key is blocked. *)
Lemma loop_step hi ps p keys :
  loop_inv hi ps -> p ∉ assoc_keys ps -> is_Some (get_value h target p) ->
  let c := closure_for h target (VObj w) p in
  let hi1 := (new_function c hi).2 in
  let ps' := if blocked h p then ps else ps ++ [(p, data_prop (VObj (hnext hi)))] in
  create_loop target (VObj w) (p :: keys) hi
    = create_loop target (VObj w) keys (obj_set hi1 w p (VObj (hnext hi)))
  /\ loop_inv (obj_set hi1 w p (VObj (hnext hi))) ps'.
Proof.
  intros (Hwfi & Hext & Hw & Hcl) Hp [tv Htv] c hi1 ps'.
  assert (Hgi : get_value hi target p = Some tv) by by rewrite (get_value_ext h hi).
  assert (Hty : typeof hi tv = typeof h tv)
    by (apply (typeof_ext h hi); eauto with tw).
  assert (Hext1 : heap_ext hi hi1) by (apply alloc_ext, Hwfi).
  assert (Hwf1 : heap_wf hi1).
  { pose proof Hwfi as [_ (?&?&?&?&?)]. unfold hi1, new_function. apply alloc_wf; [done | done | constructor | constructor]. }
  assert (Hw1 : hmem hi1 !! w = Some (mkObj ps (object_prototype (hrealm h)) true None)).
  { by eapply lookup_weaken; [|apply Hext1]. }
  assert (Hrealm : hrealm hi1 = hrealm h) by (destruct Hext as (_&_&<-); done).
  assert (Hblk : lookup_in hi1 (chain hi1 (object_prototype (hrealm h))) p
                 = lookup_in h (chain h (object_prototype (hrealm h))) p).
  { apply lookup_chain_ext; [done | by etrans | by destruct Hwf as [_ []]]. }
  split.
  - assert (Hc : c = if String.eqb (typeof h tv) "function" then FnAdapter p target (VObj w)
                     else PropAccessor p target (VObj w)) by (unfold c, closure_for; by rewrite Htv).
    unfold hi1. rewrite Hc.
    cbv [create_loop bind js_get js_typeof js_new_function js_put fn prop ret put_value].
    rewrite Hgi, Hty. destruct (String.eqb (typeof h tv) "function"); reflexivity.
  - assert (Hset : obj_set hi1 w p (VObj (hnext hi))
                   = if blocked h p then hi1
                     else heap_store hi1 w (mkObj (ps ++ [(p, data_prop (VObj (hnext hi)))])
                                                  (object_prototype (hrealm h)) true None)).
    { unfold obj_set. rewrite Hw1. simpl. apply assoc_None_keys in Hp. rewrite Hp, Hblk.
      unfold blocked. destruct (lookup_in h _ p) as [q|]; [|done].
      by destruct (pwritable q). }
    assert (Hcode : forall f o, f <> w -> hmem hi !! f = Some o ->
                    hmem (obj_set hi1 w p (VObj (hnext hi))) !! f = Some o).
    { intros f o Hf Ho. rewrite hmem_obj_set_other by done. eapply lookup_weaken; [exact Ho|apply Hext1]. }
    assert (Hnew : hmem (obj_set hi1 w p (VObj (hnext hi))) !! hnext hi
                   = Some (mkObj [] (function_prototype (hrealm h)) true (Some c))).
    { pose proof (wf_fresh hi Hwfi) as Hfr. rewrite hmem_obj_set_other by congruence.
      simpl. rewrite lookup_insert_eq. destruct Hext as (_&_&->). done. }
    split; [|split; [|split]].
    + apply obj_set_wf; [done|]. simpl. rewrite lookup_insert_eq. by eexists.
    + apply obj_set_ext_fresh; [done|by etrans].
    + rewrite Hset. unfold ps'. destruct (blocked h p); [done|]. simpl. by rewrite lookup_insert_eq.
    + intros k q Hk.
      assert (Hold : forall q', assoc k ps = Some q' -> exists f, q' = data_prop (VObj f)
                /\ hmem (obj_set hi1 w p (VObj (hnext hi))) !! f
                   = Some (mkObj [] (function_prototype (hrealm h)) true
                             (Some (closure_for h target (VObj w) k)))).
      { intros q' Hq'. destruct (Hcl k q' Hq') as (f & -> & Hf). exists f. split; [done|].
        apply Hcode; [congruence|done]. }
      unfold ps' in Hk. destruct (blocked h p); [by apply Hold|].
      rewrite assoc_app in Hk. destruct (assoc k ps) eqn:E; [injection Hk as <-; by apply Hold|].
      simpl in Hk. destruct (String.eqb_spec k p); [|done]. subst k. injection Hk as <-.
      exists (hnext hi). split; [done|]. exact Hnew.
Qed.

Lemma loop_spec keys : forall hi ps,
  loop_inv hi ps -> NoDup keys -> (forall k, k ∈ keys -> k ∉ assoc_keys ps) ->
  (forall k, k ∈ keys -> is_Some (get_value h target k)) ->
  exists hi' ps', create_loop target (VObj w) keys hi = Ok tt hi' /\ loop_inv hi' ps'
    /\ assoc_keys ps' = assoc_keys ps ++ filter (fun k => blocked h k = false) keys.
Proof.
  induction keys as [|p keys IH]; intros hi ps Hinv Hnd Hout Hget.
  - exists hi, ps. by rewrite app_nil_r.
  - apply NoDup_cons in Hnd as [Hp Hnd].
    destruct (loop_step hi ps p keys Hinv) as [-> Hinv']; [set_solver|set_solver|].
    edestruct IH as (hi' & ps' & Hrun & Hinv'' & Hkeys); [exact Hinv'|done| |set_solver|].
    { intros k Hk. destruct (blocked h p); [set_solver|].
      unfold assoc_keys. rewrite map_app. simpl. set_solver. }
    exists hi', ps'. split; [done|]. split; [done|]. rewrite Hkeys, filter_cons.
    destruct (blocked h p); simpl; [done|]. unfold assoc_keys. by rewrite map_app, <-app_assoc.
Qed.
End Loop.

(** The invariant holds with no key processed once [{}] is allocated. *)
Lemma loop_inv_init h target : heap_wf h -> loop_inv h target (hnext h) (new_object h).2 [].
Proof.
  intros Hwf. pose proof Hwf as [_ (?&?&?&?&?)].
  split; [apply alloc_wf; [done|done|constructor|constructor]|].
  split; [by apply alloc_ext|]. split; [simpl; by rewrite lookup_insert_eq|done].
Qed.

(** [create] on a well-formed heap: the wrapper is the object allocated at
    [hnext h], built as the loop invariant says, with the keys
    [wrapper_keys]. *)
Lemma create_spec h target :
  heap_wf h -> val_ok h target ->
  exists h' ps, create target h = Ok (VObj (hnext h)) h'
    /\ loop_inv h target (hnext h) h' ps /\ assoc_keys ps = wrapper_keys h target.
Proof.
  intros Hwf Ht. pose proof (wf_fresh h Hwf) as Hfresh.
  set (h0 := (new_object h).2).
  assert (Hext0 : heap_ext h h0) by apply alloc_ext, Hwf.
  pose proof (loop_inv_init h target Hwf) as Hinv0.
  destruct (loop_spec h target (hnext h) Hwf Ht Hfresh (for_in_keys h target) h0 []) as
    (h' & ps & Hrun & Hinv & Hkeys); [done|apply for_in_keys_NoDup|set_solver|
                                      intros k; apply for_in_keys_get|].
  exists h', ps. split; [|done].
  unfold create, bind, js_new_object, js_for_in_keys. simpl.
  change (mkHeap (<[hnext h := _]> (hmem h)) _ _) with h0. rewrite (for_in_keys_ext h h0) by done. by rewrite Hrun.
Qed.

Lemma own_keys_inv h target w h' ps :
  loop_inv h target w h' ps -> own_keys h' w = assoc_keys ps.
Proof. intros (_&_&Hw&_). unfold own_keys. by rewrite Hw. Qed.

(** What a client of [create] uses: the wrapper's members and the heap
    facts around it. *)
Lemma create_member h target :
  heap_wf h -> val_ok h target ->
  exists h', create target h = Ok (VObj (hnext h)) h' /\ heap_wf h' /\ heap_ext h h'
    /\ forall k, k ∈ wrapper_keys h target ->
       exists f, own_prop h' (hnext h) k = Some (data_prop (VObj f))
         /\ code_of h' (VObj f) = Some (closure_for h target (VObj (hnext h)) k)
         /\ get_apply h' (VObj f) = Some (fp_apply h).
Proof.
  intros Hwf Ht. destruct (create_spec h target Hwf Ht) as (h' & ps & Hrun & Hinv & Hkeys).
  exists h'. destruct Hinv as (Hwf' & Hext & Hw & Hcl). do 3 (split; [done|]).
  intros k Hk. rewrite <-Hkeys in Hk. destruct (assoc_keys_Some k ps Hk) as [p Hp].
  destruct (Hcl k p Hp) as (f & -> & Hf).
  exists f. split; [unfold own_prop; by rewrite Hw|]. split; [by eapply code_of_function_obj|].
  rewrite <-(fp_apply_ext h h') by done.
  apply (get_apply_function_obj _ _ (closure_for h target (VObj (hnext h)) k) Hwf').
  by destruct Hext as (_&_&->).
Qed.

(** An own enumerable, unblocked key of an object target is wrapped. *)
Lemma wrapper_keys_own h l k p :
  heap_wf h -> own_prop h l k = Some p -> penumerable p = true -> blocked h k = false ->
  k ∈ wrapper_keys h (VObj l).
Proof.
  intros Hwf Hk He Hb. unfold wrapper_keys. apply list_elem_of_filter.
  split; [done|]. by eapply for_in_own.
Qed.

(** The closure chosen for a data property that is not a function. *)
Lemma closure_for_value h target w k tv :
  get_value h target k = Some tv -> typeof h tv <> "function" ->
  closure_for h target w k = PropAccessor k target w.
Proof.
  intros Hk Ht. unfold closure_for. rewrite Hk.
  by destruct (String.eqb_spec (typeof h tv) "function").
Qed.

Lemma closure_for_data h l k p w :
  own_prop h l k = Some p -> typeof h (pvalue p) <> "function" ->
  closure_for h (VObj l) w k = PropAccessor k (VObj l) w.
Proof. intros Hk. apply closure_for_value, (get_value_own _ _ _ _ Hk). Qed.

Lemma closure_for_function h l k p w :
  own_prop h l k = Some p -> typeof h (pvalue p) = "function" ->
  closure_for h (VObj l) w k = FnAdapter k (VObj l) w.
Proof. intros Hk Ht. unfold closure_for. rewrite (get_value_own _ _ _ _ Hk), Ht. done. Qed.

(** ** Properties of [create] *)

(** C1 (P1, structural fidelity): on a well-formed heap, [create] returns
    the object it allocates first, and that wrapper's own keys are, in
    [for-in] order, the keys [for (prop in target)] enumerates (inherited
    enumerable ones included), except those for which [Object.prototype]'s
    chain has a read-only property, which the sloppy assignment
    [obj[prop] = ...] silently drops. *)
Theorem create_wrapper_keys h target :
  heap_wf h -> val_ok h target ->
  exists h', create target h = Ok (VObj (hnext h)) h'
    /\ own_keys h' (hnext h) = filter (fun k => blocked h k = false) (for_in_keys h target).
Proof.
  intros Hwf Ht. destruct (create_spec h target Hwf Ht) as (h' & ps & Hrun & Hinv & Hkeys).
  exists h'. split; [done|]. by rewrite (own_keys_inv _ _ _ _ _ Hinv), Hkeys.
Qed.

(** C2 (line 54): each key of the wrapper holds a fresh function object
    whose code is an adapter [fn(prop, target, obj)] when
    [typeof target[prop] === 'function'] at creation time and an accessor
    [prop(prop, target, obj)] otherwise, both capturing the target and the
    wrapper itself. *)
Theorem create_binds_closures h target :
  heap_wf h -> val_ok h target ->
  exists h', create target h = Ok (VObj (hnext h)) h'
    /\ forall k, k ∈ wrapper_keys h target ->
       exists f, own_prop h' (hnext h) k = Some (data_prop (VObj f))
         /\ code_of h' (VObj f) = Some (closure_for h target (VObj (hnext h)) k).
Proof.
  intros Hwf Ht. destruct (create_member h target Hwf Ht) as (h' & Hrun & _ & _ & Hm).
  exists h'. split; [done|]. intros k Hk. destruct (Hm k Hk) as (f & ? & ? & _). by exists f.
Qed.

(** C11 (frame): [create] leaves every object of the heap unchanged, the
    target included: it only allocates and writes to the new wrapper. *)
Theorem create_frame h target v h' :
  heap_wf h -> val_ok h target -> create target h = Ok v h' ->
  forall l o, hmem h !! l = Some o -> hmem h' !! l = Some o.
Proof.
  intros Hwf Ht Hc. destruct (create_spec h target Hwf Ht) as (h'' & ps & Hrun & Hinv & _).
  rewrite Hrun in Hc. injection Hc as _ <-. destruct Hinv as (_&(Hsub&_)&_).
  intros l o Ho. by eapply lookup_weaken.
Qed.

(** ** Witnesses *)

Lemma create_wrapper_keys_witness :
  exists h', create bob demo_heap = Ok (VObj 13) h' /\ own_keys h' 13 = ["name"; "greet"].
Proof.
  destruct (create_wrapper_keys demo_heap bob demo_heap_wf) as (h' & Hrun & Hkeys);
    [vm_compute; by eexists|].
  exists h'. split; [exact Hrun|]. change (own_keys h' (hnext demo_heap) = ["name"; "greet"]). rewrite Hkeys. vm_compute. reflexivity.
Defined.

Lemma create_binds_closures_witness :
  exists h' f, create bob demo_heap = Ok (VObj 13) h'
    /\ own_prop h' 13 "greet" = Some (data_prop (VObj f))
    /\ code_of h' (VObj f) = Some (FnAdapter "greet" bob (VObj 13)).
Proof.
  destruct (create_binds_closures demo_heap bob demo_heap_wf) as (h' & Hrun & Hm);
    [vm_compute; by eexists|].
  destruct (Hm "greet") as (f & Hf & Hc); [apply (bool_decide_unpack _); vm_compute; reflexivity|].
  exists h', f. split; [exact Hrun|]. split; [exact Hf|].
  rewrite Hc. vm_compute. reflexivity.
Defined.

Lemma create_frame_witness :
  hmem demo_wrapped !! 8%positive
  = Some (plain [("name", data_prop (VStr "Bob")); ("greet", data_prop (VObj 7))] (Some 1%positive)).
Proof.
  apply (create_frame demo_heap bob bob_w demo_wrapped demo_heap_wf);
    vm_compute; [by eexists | reflexivity | reflexivity].
Defined.

(** C29 (key order): on an object target, [for-in] visits its own
    array-index keys first, in ascending numeric order, then its other
    own keys in insertion order (OrdinaryOwnPropertyKeys), then the keys
    its prototypes contribute; [create] adds the wrapper's members in
    that order.  So the wrapper's keys are the target's enumerable
    index keys sorted by index, then its other enumerable own keys in
    the order they were added, then exactly the wrapped keys that are
    not own keys of the target, the inherited ones (each list less the
    keys [Object.prototype]'s chain blocks). *)
Theorem create_index_order h l o :
  heap_wf h -> hmem h !! l = Some o ->
  exists h' ki ks, create (VObj l) h = Ok (VObj (hnext h)) h'
    /\ own_keys h' (hnext h)
       = ki ++ filter (fun k => blocked h k = false)
                 (assoc_keys (filter (fun kp => penumerable kp.2 = true /\ ~ is_Some (array_index kp.1))
                                     (oprops o)))
          ++ ks
    /\ ki ≡ₚ filter (fun k => blocked h k = false)
              (assoc_keys (filter (fun kp => penumerable kp.2 = true /\ is_Some (array_index kp.1))
                                  (oprops o)))
    /\ StronglySorted N.le (omap array_index ki)
    /\ (forall k, k ∈ ks <-> k ∈ wrapper_keys h (VObj l) /\ k ∉ assoc_keys (oprops o)).
Proof.
  intros Hwf Ho.
  destruct (create_wrapper_keys h (VObj l) Hwf) as (h' & Hrun & Hkeys); [by eexists|].
  destruct (for_in_keys_obj h l o Hwf Ho) as (vis & Hfor & Hvis).
  set (U := fun k => blocked h k = false).
  set (En := fun kp : string * property => penumerable kp.2 = true).
  set (S := merge_sort index_le (index_entries (oprops o))).
  exists h', (filter U (assoc_keys (filter En (map snd S)))),
    (filter U (enum_chain h (chain h (oproto o)) vis)).
  split; [done|]. split; [|split; [|split]].
  - rewrite Hkeys, Hfor. unfold own_order. fold S.
    rewrite filter_app, !filter_app. unfold assoc_keys. rewrite !map_app, !filter_app, <-app_assoc.
    by rewrite list_filter_filter.
  - etrans; [apply filter_Permutation, Permutation_map, filter_Permutation, Permutation_map,
               merge_sort_Permutation|].
    rewrite index_entries_snd. unfold En. by rewrite list_filter_filter.
  - apply index_keys_sorted; [|apply StronglySorted_merge_sort; apply _].
    apply Forall_forall. intros e He. unfold S in He. rewrite (merge_sort_Permutation index_le) in He.
    by apply (proj1 (Forall_forall _ _) (index_entries_keys (oprops o))).
  - intros k. unfold wrapper_keys. rewrite Hfor, filter_app, elem_of_app. split.
    + intros Hk. split; [by right|]. intros Hown. apply list_elem_of_filter in Hk as [_ Hk].
      exact (proj2 (enum_chain_spec h _ vis) k Hk (Hvis k Hown)).
    + intros [[Hk|Hk] Hown]; [|done]. exfalso. apply Hown.
      apply list_elem_of_filter in Hk as [_ Hk]. apply list_elem_of_fmap in Hk as (kp & -> & Hkp).
      apply list_elem_of_filter in Hkp as [_ Hkp]. apply own_order_keys.
      apply list_elem_of_fmap. by exists kp.
Qed.

(** On [{ b: 1, 2: 2, 1: 3 }]: the wrapper's keys are ["1"], ["2"]
    (the index keys, ascending), then ["b"]. *)
Lemma create_index_order_witness :
  exists ki ks, own_keys (heap_of (create (VObj 13) indexed_heap)) 14 = ki ++ ["b"] ++ ks
    /\ ki ≡ₚ ["2"; "1"] /\ StronglySorted N.le (omap array_index ki).
Proof.
  destruct (create_index_order indexed_heap 13
              (plain [("b", data_prop (VNum 1)); ("2", data_prop (VNum 2)); ("1", data_prop (VNum 3))]
                     (Some 1%positive)))
    as (h' & ki & ks & Hrun & Hk & Hp & Hs & _);
    [apply (bool_decide_unpack _); vm_compute; reflexivity|vm_compute; reflexivity|].
  exists ki, ks. rewrite Hrun. cbn [heap_of]. split; [|split; [|done]].
  - change 14%positive with (hnext indexed_heap). rewrite Hk. f_equal.
  - rewrite Hp. vm_compute. reflexivity.
Defined.
