(* ===== verification/Chaining.v ===== *)
(** * Chains of calls through a wrapper

    Calls on the object [create] returns, composed the way a client
    writes [w.a(1).b(2)]: the specification's P6, the late binding of
    methods, and an adapter that finds itself on its target, which
    recurses until the stack overflows.  Also the wrapping of inherited
    keys and the own key a write through one adds to the target. *)

From S2P Require Import Prelude JsValue JsHeap JsMonad Trainwreck Demo Closures Wrapper.

#[local] Open Scope tw_scope.

Section Chains.
Context `{!Host}.
Implicit Types (h : Heap).

(** C7 (P6, chain composability): on a target with two distinct own
    writable, enumerable data properties [a] and [b], [w.a(va)] returns
    the wrapper [w] that [create] returned, calling [b] on that result
    returns [w] again, and afterwards the target holds [va] at [a] and
    [vb] at [b]. *)
Theorem chain_two_setters n h l a b pa pb va vb :
  heap_wf h ->
  own_prop h l a = Some pa -> own_prop h l b = Some pb -> a <> b ->
  pwritable pa = true -> pwritable pb = true ->
  penumerable pa = true -> penumerable pb = true ->
  blocked h a = false -> blocked h b = false ->
  typeof h (pvalue pa) <> "function" -> typeof h (pvalue pb) <> "function" ->
  is_undefined va = false -> is_undefined vb = false ->
  exists h1 h2 h3,
    create (VObj l) h = Ok (VObj (hnext h)) h1
    /\ invoke (S n) (VObj (hnext h)) a [va] h1 = Ok (VObj (hnext h)) h2
    /\ invoke (S n) (VObj (hnext h)) b [vb] h2 = Ok (VObj (hnext h)) h3
    /\ get_value h3 (VObj l) a = Some va /\ get_value h3 (VObj l) b = Some vb.
Proof.
  intros Hwf Ha Hb Hab Hwa Hwb Hea Heb Hba Hbb Hta Htb Hva Hvb.
  set (w := hnext h).
  pose proof (own_prop_allocated h l a pa Ha) as Hl.
  assert (Hlw : l <> w).
  { intros ->. destruct Hl as [? Hl]. pose proof (wf_fresh h Hwf) as Hf. fold w in Hf. congruence. }
  destruct (create_member h (VObj l) Hwf Hl) as (h1 & Hrun & _ & (Hsub & _) & Hm).
  destruct (Hm a) as (fa & Hfa & Hca & _); [by eapply wrapper_keys_own|].
  destruct (Hm b) as (fb & Hfb & Hcb & _); [by eapply wrapper_keys_own|].
  rewrite (closure_for_data h l a pa) in Hca by done.
  rewrite (closure_for_data h l b pb) in Hcb by done.
  assert (Ha1 : own_prop h1 l a = Some pa) by by rewrite (own_prop_ext h h1).
  assert (Hb1 : own_prop h1 l b = Some pb) by by rewrite (own_prop_ext h h1).
  set (h2 := obj_set h1 l a va). set (h3 := obj_set h2 l b vb).
  exists h1, h2, h3. split; [done|]. split.
  { rewrite (invoke_accessor_write n h1 w a fa (VObj l) (VObj w) va Hfa Hca Hva). done. }
  split.
  { rewrite (invoke_accessor_write n h2 w b fb (VObj l) (VObj w) vb); [done| | |done].
    - unfold h2. rewrite own_prop_obj_set_other; [done|congruence].
    - unfold h2. by rewrite code_of_obj_set. }
  split.
  - apply (get_value_own _ _ _ (mkProp va true (penumerable pa))). unfold h3. rewrite own_prop_obj_set_other by congruence.
    by apply own_prop_obj_set_writable'.
  - apply (get_value_own _ _ _ (mkProp vb true (penumerable pb))). unfold h3.
    apply own_prop_obj_set_writable'; [|done].
    unfold h2. rewrite own_prop_obj_set_other; [done|congruence].
Qed.

(** C12 (stack overflow): an adapter that finds itself at its key of
    its target (after [target.m = w.m]) calls itself until the stack is
    exhausted: at every depth the call throws [RangeError], with no
    effect on the heap. *)
Theorem adapter_self_loop n h f thisv args k scope chain :
  code_of h f = Some (FnAdapter k scope chain) -> get_value h scope k = Some f ->
  get_apply h f = Some ApplyBuiltin ->
  call n f thisv args h = Err RangeError h.
Proof.
  intros Hc Hf Ha. revert thisv args. induction n as [|n IH]; intros thisv args.
  - simpl. by rewrite Hc.
  - by rewrite (adapter_call n h f thisv args k scope chain f Hc Hf Ha), IH.
Qed.

(** C13 (inherited keys are wrapped): a key the target does not own but
    inherits, enumerable, from its prototype becomes a key of the
    wrapper: [for-in] visits the prototype chain and line 53 does not
    filter it.  The specification (section 4.3) says inherited
    properties are skipped. *)
Theorem create_wraps_inherited h l o p po k q :
  heap_wf h -> hmem h !! l = Some o -> oproto o = Some p -> hmem h !! p = Some po ->
  assoc k (oprops o) = None -> assoc k (oprops po) = Some q -> penumerable q = true ->
  blocked h k = false ->
  exists h', create (VObj l) h = Ok (VObj (hnext h)) h' /\ k ∈ own_keys h' (hnext h)
    /\ (pwritable q = true -> oextensible o = true -> typeof h (pvalue q) <> "function" ->
        forall n v, is_undefined v = false ->
        invoke (S n) (VObj (hnext h)) k [v] h' = Ok (VObj (hnext h)) (obj_set h' l k v)
        /\ own_keys (obj_set h' l k v) l = own_keys h l ++ [k]).
Proof.
  intros Hwf Ho Hp Hpo Hk Hq He Hb.
  assert (Hw : k ∈ wrapper_keys h (VObj l))
    by (apply list_elem_of_filter; split; [done|by eapply for_in_inherited]).
  destruct (create_spec h (VObj l) Hwf) as (h' & ps & Hrun & Hinv & Hkeys); [by eexists|].
  destruct (create_member h (VObj l) Hwf) as (h'' & Hrun' & _ & Hext & Hm); [by eexists|].
  rewrite Hrun in Hrun'. injection Hrun' as <-.
  exists h'. split; [done|]. split; [by rewrite (own_keys_inv _ _ _ _ _ Hinv), Hkeys|].
  intros Hwr Hex Ht n v Hv.
  destruct (Hm k Hw) as (f & Hf & Hc & _).
  destruct (lookup_inherited h l o p po k q Hwf Ho Hp Hpo Hk Hq) as [Hlk Hget].
  rewrite (closure_for_value h (VObj l) (VObj (hnext h)) k (pvalue q) Hget Ht) in Hc.
  split; [by rewrite (invoke_accessor_write n h' (hnext h) k f (VObj l) (VObj (hnext h)) v Hf Hc Hv)|].
  assert (Ho' : hmem h' !! l = Some o) by (eapply lookup_weaken; [done|apply Hext]).
  rewrite (obj_set_append h' l o k v Ho' Hk Hex).
  - rewrite own_keys_store. unfold own_keys. rewrite Ho. cbn [oprops set_props].
    unfold assoc_keys. by rewrite map_app.
  - rewrite (lookup_chain_ext h h'); [by rewrite Hlk|done|done|].
    exact (proj1 (wf_proto_allocated h l o Hwf Ho)).
Qed.
(** C15 (late binding): the adapter looks the method up on the target at
    every call, so after [create] a client that reassigns [target.k]
    (an own writable method) to any value [m'] makes [w.k(args)] call
    [m'] with [this] the target, under [|| chain]. *)
Theorem adapter_late_binding n h l k p args :
  heap_wf h -> own_prop h l k = Some p -> penumerable p = true -> pwritable p = true ->
  blocked h k = false -> typeof h (pvalue p) = "function" ->
  exists h1, create (VObj l) h = Ok (VObj (hnext h)) h1
    /\ forall m', get_apply (obj_set h1 l k m') m' = Some ApplyBuiltin ->
       invoke (S (S n)) (VObj (hnext h)) k args (obj_set h1 l k m')
       = match call (S n) m' (VObj l) args (obj_set h1 l k m') with
         | Ok r h' => Ok (js_or r (VObj (hnext h))) h'
         | Err e h' => Err e h'
         end.
Proof.
  intros Hwf Hp He Hw Hb Ht. set (w := hnext h).
  pose proof (own_prop_allocated h l k p Hp) as Hl.
  assert (Hlw : l <> w).
  { intros ->. destruct Hl as [? Hl]. pose proof (wf_fresh h Hwf) as Hf. fold w in Hf. congruence. }
  destruct (create_member h (VObj l) Hwf Hl) as (h1 & Hrun & _ & (Hsub & _) & Hm).
  destruct (Hm k) as (f & Hf & Hc & _); [by eapply wrapper_keys_own|].
  rewrite (closure_for_function h l k p) in Hc by done.
  assert (Hp1 : own_prop h1 l k = Some p) by by rewrite (own_prop_ext h h1).
  exists h1. split; [done|]. intros m' Ha. set (h2 := obj_set h1 l k m').
  assert (Hf2 : own_prop h2 w k = Some (data_prop (VObj f)))
    by (unfold h2; rewrite own_prop_obj_set_other; [done|congruence]).
  assert (Hc2 : code_of h2 (VObj f) = Some (FnAdapter k (VObj l) (VObj w)))
    by (unfold h2; by rewrite code_of_obj_set).
  assert (Hg2 : get_value h2 (VObj l) k = Some m').
  { apply (get_value_own _ _ _ (mkProp m' true (penumerable p))). by apply own_prop_obj_set_writable'. }
  rewrite (invoke_code (S n) h2 _ k args (VObj f) _ (get_value_own _ _ _ _ Hf2) Hc2).
  rewrite <-(call_S (S n) (VObj f) (VObj w) args h2 _ Hc2).
  by rewrite (adapter_call (S n) h2 (VObj f) _ args k (VObj l) (VObj w) m' Hc2 Hg2 Ha).
Qed.
End Chains.

(** ** Witnesses *)

Lemma adapter_self_loop_witness :
  call 1000 (VObj 15) bob_w [VStr "Carl"] demo_self_loop = Err RangeError demo_self_loop.
Proof.
  apply (adapter_self_loop 1000 demo_self_loop (VObj 15) bob_w [VStr "Carl"] "greet" bob bob_w);
    vm_compute; reflexivity.
Defined.

Lemma create_wraps_inherited_witness :
  exists h', create (VObj 13) child_heap = Ok (VObj 14) h' /\ "name" ∈ own_keys h' 14
    /\ invoke 1 (VObj 14) "name" [VStr "Al"] h' = Ok (VObj 14) (obj_set h' 13 "name" (VStr "Al"))
    /\ own_keys (obj_set h' 13 "name" (VStr "Al")) 13 = ["name"].
Proof.
  destruct (create_wraps_inherited child_heap 13 (plain [] (Some 8%positive)) 8
    (plain [("name", data_prop (VStr "Bob")); ("greet", data_prop (VObj 7))] (Some 1%positive))
    "name" (data_prop (VStr "Bob"))) as (h' & Hrun & Hin & Hwr);
    [apply (bool_decide_unpack _); vm_compute; reflexivity|vm_compute; reflexivity..|].
  destruct (Hwr eq_refl eq_refl ltac:(vm_compute; discriminate) 0 (VStr "Al") eq_refl) as [Hi Hk].
  exists h'. split; [exact Hrun|]. split; [exact Hin|]. split; [exact Hi|].
  rewrite Hk. vm_compute. reflexivity.
Defined.

Lemma chain_two_setters_witness :
  exists h1 h2 h3,
    create (VObj 13) point_heap = Ok (VObj 14) h1
    /\ invoke 1 (VObj 14) "x" [VNum 1] h1 = Ok (VObj 14) h2
    /\ invoke 1 (VObj 14) "y" [VNum 2] h2 = Ok (VObj 14) h3
    /\ get_value h3 (VObj 13) "x" = Some (VNum 1) /\ get_value h3 (VObj 13) "y" = Some (VNum 2).
Proof.
  apply (chain_two_setters 0 point_heap 13 "x" "y" (data_prop (VNum 0)) (data_prop (VNum 0)));
    try (vm_compute; reflexivity); try (vm_compute; discriminate).
  apply (bool_decide_unpack _). vm_compute. reflexivity.
Defined.

(** With [target.greet = identity] after wrapping, [w.greet("x")]
    returns ["x"]. *)
Lemma adapter_late_binding_witness :
  invoke 2 bob_w "greet" [VStr "x"] demo_greet_identity = Ok (VStr "x") demo_greet_identity.
Proof.
  destruct (adapter_late_binding 0 demo_heap 8 "greet" (data_prop (VObj 7)) [VStr "x"])
    as (h1 & Hrun & Hlate);
    [exact demo_heap_wf|vm_compute; reflexivity..|].
  assert (E : h1 = demo_wrapped) by (unfold demo_wrapped, bob; by rewrite Hrun).
  unfold demo_greet_identity. rewrite <-E.
  change bob_w with (VObj (hnext demo_heap)).
  rewrite Hlate by (rewrite E; vm_compute; reflexivity).
  rewrite E. vm_compute. reflexivity.
Defined.

