(* ===== verification/Exports.v ===== *)
(** * Exporting the library (lines 61-69)

    The prologue registers the library object with an AMD loader when a
    function [define] with a truthy [define.amd] is in scope, otherwise
    assigns it to [module.exports] when a [module] with truthy [exports]
    is in scope, and otherwise stores it as [global['trainwreck']] on the
    object the wrapping function received as [this] (line 71).  The free
    identifiers [define] and [module] are [option value]: [None] is an
    undeclared identifier, for which [typeof] gives ["undefined"] without
    a ReferenceError. *)

From S2P Require Import Prelude JsValue JsHeap JsMonad Trainwreck Demo Closures.

#[local] Open Scope tw_scope.

Inductive export_path := ViaAMD | ViaCommonJS | ViaGlobal.

(** [typeof x] for an identifier that may be undeclared. *)
Definition typeof_ident (h : Heap) (x : option value) : string :=
  match x with None => "undefined" | Some v => typeof h v end.

Definition js_typeof_ident (x : option value) : JS string :=
  fun h => Ok (typeof_ident h x) h.

(** The value of a declared identifier (only read after [typeof] showed
    it declared). *)
Definition ident_value (x : option value) : value :=
  match x with Some v => v | None => VUndef end.

(** The condition of line 62, [typeof define === 'function' && define.amd],
    evaluated; only its truthiness is used. *)
Definition amd_check (define : option value) : JS value :=
  let* td := js_typeof_ident define in
  if String.eqb td "function" then js_get (ident_value define) "amd" else ret (VBool false).

(** Its truth value. *)
Definition amd_present (h : Heap) (define : option value) : bool :=
  match define with
  | Some v =>
      String.eqb (typeof h v) "function"
      && match get_value h v "amd" with Some a => to_boolean a | None => false end
  | None => false
  end.

Section Exports.
Context `{!Host}.

(** Lines 62-69, [n] being the stack depth left for [define]. *)
Definition export_lib (n : nat) (define module : option value) (global lib : value)
    : JS export_path :=
  let* amd := amd_check define in
  if to_boolean amd then
    let* _ := call n (ident_value define) VUndef [VStr "trainwreck"; lib] in
    ret ViaAMD
  else
    let* tm := js_typeof_ident module in
    let* ex := (if String.eqb tm "undefined" then ret (VBool false)
                else js_get (ident_value module) "exports") in
    if to_boolean ex then
      let* _ := js_put (ident_value module) "exports" lib in
      ret ViaCommonJS
    else
      let* _ := js_put global "trainwreck" lib in
      ret ViaGlobal.

(** The whole file (lines 7-71): the function called with the global
    object declares [trainwreck] (lines 9-59), then exports it.  The
    call of the wrapping function itself is not counted in [n]. *)
Definition module_init (n : nat) (define module : option value) (global : value)
    : JS export_path :=
  let* lib := make_library in
  export_lib n define module global lib.
End Exports.

Lemma amd_check_spec h define :
  exists a, amd_check define h = Ok a h /\ to_boolean a = amd_present h define.
Proof.
  unfold amd_check, amd_present, bind, js_typeof_ident.
  destruct define as [v|]; simpl; [|eexists; split; reflexivity].
  destruct (String.eqb (typeof h v) "function") eqn:Ef; simpl; [|eexists; split; reflexivity].
  unfold js_get. destruct v as [| | | | |l]; try (simpl in Ef; discriminate).
  simpl. eexists; split; reflexivity.
Qed.

Lemma amd_present_ext h h' define :
  heap_wf h -> heap_ext h h' -> val_ok h (ident_value define) ->
  amd_present h' define = amd_present h define.
Proof.
  intros Hwf Hext Hv. destruct define as [v|]; simpl in *; [|done].
  rewrite (typeof_ext h h') by done. by rewrite (get_value_ext h h').
Qed.

Section ExportFacts.
Context `{!Host}.
Implicit Types (h : Heap).

Lemma export_not_amd n h define module global lib :
  amd_present h define = false ->
  export_lib n define module global lib h
  = (let* tm := js_typeof_ident module in
     let* ex := (if String.eqb tm "undefined" then ret (VBool false)
                 else js_get (ident_value module) "exports") in
     if to_boolean ex then
       let* _ := js_put (ident_value module) "exports" lib in ret ViaCommonJS
     else
       let* _ := js_put global "trainwreck" lib in ret ViaGlobal) h.
Proof.
  intros Ha. unfold export_lib. destruct (amd_check_spec h define) as (a & Hc & Hb).
  rewrite (bind_Ok _ _ _ _ _ Hc), Hb, Ha. done.
Qed.

(** C16 (AMD first): when [define] is a function with a truthy [amd],
    the library calls [define('trainwreck', lib)] and does nothing else:
    the outcome is that of the call, [module] and the global object are
    not touched. *)
Theorem export_amd n h d module global lib :
  amd_present h (Some (VObj d)) = true ->
  export_lib n (Some (VObj d)) module global lib h
  = match call n (VObj d) VUndef [VStr "trainwreck"; lib] h with
    | Ok _ h' => Ok ViaAMD h'
    | Err e h' => Err e h'
    end.
Proof.
  intros Ha. unfold export_lib. destruct (amd_check_spec h (Some (VObj d))) as (a & Hc & Hb).
  rewrite (bind_Ok _ _ _ _ _ Hc), Hb, Ha. unfold bind. simpl.
  by destruct (call n (VObj d) VUndef [VStr "trainwreck"; lib] h).
Qed.

(** C17 (CommonJS): without an AMD [define], a [module] object with a
    truthy [exports] gets [module.exports = lib] (a sloppy [[Set]]), and
    nothing else changes. *)
Theorem export_commonjs n h define m global lib ex :
  amd_present h define = false ->
  get_value h (VObj m) "exports" = Some ex -> to_boolean ex = true ->
  export_lib n define (Some (VObj m)) global lib h = Ok ViaCommonJS (obj_set h m "exports" lib).
Proof.
  intros Ha Hex Ht. rewrite export_not_amd by done.
  rewrite (bind_Ok (js_typeof_ident (Some (VObj m))) _ h (typeof h (VObj m)) h) by done.
  cbv beta. rewrite typeof_undefined. cbn [is_undefined ident_value].
  rewrite (bind_Ok (js_get (VObj m) "exports") _ h ex h) by (unfold js_get; by rewrite Hex).
  rewrite Ht. done.
Qed.

(** C18 (global fallback): with neither loader ([module] undeclared),
    the library is stored as [global['trainwreck']]; the only error is a
    [global] that is [undefined] or [null] (a strict-mode [this]). *)
Theorem export_global n h define global lib :
  amd_present h define = false ->
  export_lib n define None global lib h = put_outcome h global "trainwreck" lib ViaGlobal.
Proof.
  intros Ha. rewrite export_not_amd by done.
  unfold bind, js_typeof_ident, js_put, put_outcome. simpl.
  by destruct (put_value h global "trainwreck" lib).
Qed.

(** C19 ([module] declared as [null]): [typeof null] is ["object"], so
    line 64 reads [module.exports] on [null] and the export throws
    [TypeError] instead of falling back to the global object. *)
Theorem export_module_null n h define global lib :
  amd_present h define = false ->
  export_lib n define (Some VNull) global lib h = Err TypeError h.
Proof. intros Ha. by rewrite export_not_amd. Qed.
End ExportFacts.

(** ** Witnesses *)

Lemma export_amd_witness :
  export_lib 1 (Some (VObj 13)) None empty_target tools amd_heap
  = Ok ViaAMD (obj_set amd_heap 12 "trainwreck" tools).
Proof.
  rewrite (export_amd 1 amd_heap 13 None empty_target tools) by (vm_compute; reflexivity).
  vm_compute. reflexivity.
Defined.

Lemma export_commonjs_witness :
  export_lib 1 None (Some (VObj 13)) empty_target tools node_heap
  = Ok ViaCommonJS (obj_set node_heap 13 "exports" tools).
Proof. apply (export_commonjs 1 node_heap None 13 empty_target tools (VObj 12)); reflexivity. Defined.

Lemma export_global_witness :
  exists h', export_lib 1 None None empty_target tools demo_heap = Ok ViaGlobal h'
  /\ get_value h' empty_target "trainwreck" = Some tools.
Proof.
  eexists. rewrite (export_global 1 demo_heap None empty_target tools) by reflexivity.
  split; vm_compute; reflexivity.
Defined.

Lemma export_module_null_witness :
  export_lib 1 None (Some VNull) empty_target tools demo_heap = Err TypeError demo_heap.
Proof. apply (export_module_null 1 demo_heap None empty_target tools). reflexivity. Defined.

