(* ===== verification/Spec.v ===== *)
(** * The abstract facade and the refinement of the wrapper

    Abstractly (section 4 of the specification), a wrapper over a record
    of data members is a facade over a store [gmap string value]: a read
    returns the stored value, a write updates the store and answers with
    the facade itself.  A program is a list of such calls ([acall]); [arun]
    runs it on the abstract store.

    Concretely, each call is a method call [w.k()] or [w.k(v)] on the
    object [create] returned ([cstep], [crun]).  The abstraction function
    [abs] reads the target's own properties at the keys [ks].
    [facade_rel] is the simulation relation: the wrapper's members are
    intact accessors on the target and the target's members are writable.
    The theorems: one concrete call refines one abstract step and keeps
    the relation ([cstep_refines]); [create] establishes the relation with
    the abstract store read from the initial heap; hence a whole program
    run through the wrapper returns the abstract results and leaves the
    target holding the abstract final store. *)

From S2P Require Import Prelude JsValue JsHeap JsMonad Trainwreck Demo Closures Wrapper.

#[local] Open Scope tw_scope.

(** ** The abstract facade *)

Inductive acall :=
  | AGet (k : string)
  | ASet (k : string) (v : value).

Definition acall_key (c : acall) : string := match c with AGet k | ASet k _ => k end.

(** One abstract step: [None] is the facade itself (the chain object). *)
Definition astep (σ : gmap string value) (c : acall) : gmap string value * option value :=
  match c with
  | AGet k => (σ, Some (default VUndef (σ !! k)))
  | ASet k v => (<[k := v]> σ, None)
  end.

Fixpoint arun (σ : gmap string value) (cs : list acall) : gmap string value * list (option value) :=
  match cs with
  | [] => (σ, [])
  | c :: cs' =>
      let '(σ1, r) := astep σ c in
      let '(σ2, rs) := arun σ1 cs' in
      (σ2, r :: rs)
  end.

(** ** Running calls through the wrapper *)

Section Concrete.
Context `{!Host}.

(** [w.k()] or [w.k(v)]. *)
Definition cstep (n : nat) (w : loc) (c : acall) : JS value :=
  match c with
  | AGet k => invoke n (VObj w) k []
  | ASet k v => invoke n (VObj w) k [v]
  end.

(** The statements [w.c1; w.c2; ...], collecting the results. *)
Fixpoint crun (n : nat) (w : loc) (cs : list acall) : JS (list value) :=
  match cs with
  | [] => ret []
  | c :: cs' =>
      let* r := cstep n w c in
      let* rs := crun n w cs' in
      ret (r :: rs)
  end.
End Concrete.

(** The concrete value of an abstract answer. *)
Definition concretize (w : loc) (r : option value) : value :=
  match r with Some v => v | None => VObj w end.

(** ** Abstraction and simulation relation *)

Definition abs (h : Heap) (l : loc) (ks : list string) : gmap string value :=
  list_to_map ((fun k => (k, prop_value (own_prop h l k))) <$> ks).

Definition facade_rel (h : Heap) (l w : loc) (ks : list string) : Prop :=
  l <> w /\ forall k, k ∈ ks ->
    (exists f, own_prop h w k = Some (data_prop (VObj f))
               /\ code_of h (VObj f) = Some (PropAccessor k (VObj l) (VObj w)))
    /\ exists p, own_prop h l k = Some p /\ pwritable p = true.

(** A key [create] turns into an accessor the program may write:
    an own writable enumerable property that is not a function and that
    [Object.prototype] does not block. *)
Definition is_data_member (h : Heap) (l : loc) (k : string) : bool :=
  match own_prop h l k with
  | Some p => pwritable p && penumerable p
              && negb (String.eqb (typeof h (pvalue p)) "function") && negb (blocked h k)
  | None => false
  end.

(** A call the abstract facade answers: on a member, writing a defined
    value. *)
Definition call_ok (ks : list string) (c : acall) : bool :=
  bool_decide (acall_key c ∈ ks)
  && match c with ASet _ v => negb (is_undefined v) | AGet _ => true end.

(** ** Lemmas *)

Lemma abs_lookup h l ks k :
  abs h l ks !! k = if bool_decide (k ∈ ks) then Some (prop_value (own_prop h l k)) else None.
Proof.
  unfold abs. induction ks as [|k' ks IH]; [done|].
  rewrite fmap_cons, list_to_map_cons, lookup_insert, IH.
  destruct (decide (k' = k)) as [->|Hne]; simpl; repeat case_bool_decide; try done; set_solver.
Qed.

Lemma abs_set h l ks k v p :
  k ∈ ks -> own_prop h l k = Some p -> pwritable p = true ->
  abs (obj_set h l k v) l ks = <[k := v]> (abs h l ks).
Proof.
  intros Hk Hp Hw. apply map_eq. intros k'. rewrite lookup_insert, !abs_lookup.
  case_decide as Heq; [subst k'|].
  - rewrite bool_decide_true by done. by rewrite (own_prop_obj_set_writable' h l k p v).
  - rewrite own_prop_obj_set_other by congruence. done.
Qed.

(** Writes to the target keep the wrapper intact. *)
Lemma facade_rel_set h l w ks k v p :
  facade_rel h l w ks -> own_prop h l k = Some p -> pwritable p = true ->
  facade_rel (obj_set h l k v) l w ks.
Proof.
  intros [Hlw Hm] Hp Hw. split; [done|]. intros k' Hk'.
  destruct (Hm k' Hk') as [(f & Hf & Hc) (p' & Hp' & Hw')]. split.
  - exists f. rewrite own_prop_obj_set_other by congruence. by rewrite code_of_obj_set.
  - destruct (decide (k' = k)) as [->|Hne].
    + eexists. split; [by apply own_prop_obj_set_writable'|done].
    + exists p'. by rewrite own_prop_obj_set_other by congruence.
Qed.

Lemma facade_rel_ext h h' l w ks :
  heap_wf h -> heap_ext h h' -> facade_rel h l w ks -> facade_rel h' l w ks.
Proof.
  intros Hwf Hext [Hlw Hm]. split; [done|]. intros k Hk.
  destruct (Hm k Hk) as [(f & Hf & Hc) (p & Hp & Hw)]. split.
  - exists f. rewrite (own_prop_ext h h'); [|apply Hext|by eapply own_prop_allocated].
    split; [done|]. rewrite (code_of_ext h h'); [done|done|by eapply code_of_ok].
  - exists p. rewrite (own_prop_ext h h'); [done|apply Hext|by eapply own_prop_allocated].
Qed.

Lemma is_data_member_ext h h' l k :
  heap_wf h -> heap_ext h h' -> is_Some (hmem h !! l) ->
  is_data_member h' l k = is_data_member h l k.
Proof.
  intros Hwf Hext Hl. unfold is_data_member.
  rewrite (own_prop_ext h h'), (blocked_ext h h') by (done || apply Hext).
  destruct (own_prop h l k) as [p|] eqn:Hp; [|done].
  rewrite (typeof_ext h h'); [done|done|]. apply (get_value_ok h (VObj l) k); [done|].
  by apply get_value_own.
Qed.

Section Refinement.
Context `{!Host}.

(** The heap a data call leaves: a read none, a write its [[Set]] on
    the target. *)
Definition aheap (h : Heap) (l : loc) (c : acall) : Heap :=
  match c with AGet _ => h | ASet k v => obj_set h l k v end.

(** One call through the wrapper refines one abstract step. *)
Lemma cstep_refines n h l w ks c :
  facade_rel h l w ks -> call_ok ks c = true ->
  cstep (S n) w c h = Ok (concretize w (astep (abs h l ks) c).2) (aheap h l c)
  /\ facade_rel (aheap h l c) l w ks /\ abs (aheap h l c) l ks = (astep (abs h l ks) c).1.
Proof.
  intros Hrel Hc. pose proof Hrel as [Hlw Hm].
  unfold call_ok in Hc. apply andb_prop in Hc as [Hk Hv]. apply bool_decide_eq_true in Hk.
  destruct (Hm (acall_key c) Hk) as [(f & Hf & Hcode) (p & Hp & Hw)].
  destruct c as [k|k v]; simpl in *.
  - split; [|done]. rewrite (invoke_accessor_read n h w k f (VObj l) (VObj w) Hf Hcode).
    unfold get_outcome. rewrite (get_value_own _ _ _ _ Hp), abs_lookup, bool_decide_true by done.
    by rewrite Hp.
  - apply negb_true_iff in Hv.
    rewrite (invoke_accessor_write n h w k f (VObj l) (VObj w) v Hf Hcode Hv).
    split; [done|]. split; [by eapply facade_rel_set|]. by eapply abs_set.
Qed.

Lemma crun_refines n h l w ks cs :
  facade_rel h l w ks -> forallb (call_ok ks) cs = true ->
  exists h', crun (S n) w cs h = Ok (concretize w <$> (arun (abs h l ks) cs).2) h'
    /\ facade_rel h' l w ks /\ abs h' l ks = (arun (abs h l ks) cs).1.
Proof.
  revert h. induction cs as [|c cs IH]; intros h Hrel Hcs; simpl in *; [by exists h|].
  apply andb_prop in Hcs as [Hc Hcs].
  destruct (cstep_refines n h l w ks c Hrel Hc) as (Hstep & Hrel1 & Habs1).
  set (h1 := aheap h l c) in *.
  destruct (IH h1 Hrel1 Hcs) as (h2 & Hrun & Hrel2 & Habs2).
  destruct (astep (abs h l ks) c) as [σ1 r] eqn:Ea. simpl in *.
  rewrite <-Habs1. destruct (arun (abs h1 l ks) cs) as [σ2 rs] eqn:Er. simpl in *.
  exists h2. unfold bind at 1. rewrite Hstep. unfold bind. rewrite Hrun. done.
Qed.
End Refinement.

(** [create] establishes the simulation relation on the data members,
    and the abstract store it starts from is the one read from the
    initial heap. *)
Lemma create_establishes h l ks :
  heap_wf h -> is_Some (hmem h !! l) -> forallb (is_data_member h l) ks = true ->
  exists h', create (VObj l) h = Ok (VObj (hnext h)) h'
    /\ facade_rel h' l (hnext h) ks /\ abs h' l ks = abs h l ks.
Proof.
  intros Hwf Hl Hks. rewrite forallb_forall in Hks.
  destruct (create_member h (VObj l) Hwf Hl) as (h' & Hrun & _ & (Hsub & _) & Hm).
  exists h'. split; [done|].
  assert (Hown : forall k, own_prop h' l k = own_prop h l k) by (intros; by apply own_prop_ext).
  split; [split|].
  - intros ->. destruct Hl as [? Hl]. by rewrite wf_fresh in Hl.
  - intros k Hk. specialize (Hks k (proj1 (list_elem_of_In _ _) Hk)). unfold is_data_member in Hks.
    destruct (own_prop h l k) as [p|] eqn:Hp; [|done].
    apply andb_prop in Hks as [Hks Hb]. apply andb_prop in Hks as [Hks Ht].
    apply andb_prop in Hks as [Hw He]. apply negb_true_iff in Hb, Ht.
    apply String.eqb_neq in Ht.
    destruct (Hm k) as (f & Hf & Hc & _); [by eapply wrapper_keys_own|].
    rewrite (closure_for_data h l k p) in Hc by done.
    split; [by exists f|]. exists p. by rewrite Hown.
  - apply map_eq. intros k. rewrite !abs_lookup. by rewrite Hown.
Qed.

(** C20 (refinement of the facade): on a target [l] whose keys [ks] are
    data members (own, writable, enumerable, not functions, not blocked),
    [create] returns a wrapper [w] through which any program of reads
    [w.k()] and writes [w.k(v)] of defined values on those keys returns,
    call by call, what the abstract facade over the store [abs h l ks]
    answers ([w] itself for a write), and leaves the target holding the
    abstract final store. *)
Theorem wrapper_refines_facade `{!Host} n h l ks cs :
  heap_wf h -> is_Some (hmem h !! l) ->
  forallb (is_data_member h l) ks = true -> forallb (call_ok ks) cs = true ->
  exists h1 h2,
    create (VObj l) h = Ok (VObj (hnext h)) h1
    /\ crun (S n) (hnext h) cs h1 = Ok (concretize (hnext h) <$> (arun (abs h l ks) cs).2) h2
    /\ abs h2 l ks = (arun (abs h l ks) cs).1.
Proof.
  intros Hwf Hl Hks Hcs.
  destruct (create_establishes h l ks Hwf Hl Hks) as (h1 & Hrun & Hrel & Habs).
  destruct (crun_refines n h1 l (hnext h) ks cs Hrel Hcs) as (h2 & Hc & _ & Habs2).
  rewrite Habs in Hc, Habs2. by exists h1, h2.
Qed.

(** ** Witness *)

Lemma wrapper_refines_facade_witness :
  exists h1 h2,
    create (VObj 13) point_heap = Ok (VObj 14) h1
    /\ crun 2 14 [ASet "x" (VNum 1); AGet "x"; ASet "y" (VNum 2); AGet "y"] h1
       = Ok [VObj 14; VNum 1; VObj 14; VNum 2] h2
    /\ abs h2 13 ["x"; "y"] = <["y" := VNum 2]> (<["x" := VNum 1]> (abs point_heap 13 ["x"; "y"])).
Proof.
  destruct (wrapper_refines_facade 1 point_heap 13 ["x"; "y"]
              [ASet "x" (VNum 1); AGet "x"; ASet "y" (VNum 2); AGet "y"]) as (h1 & h2 & H1 & H2 & H3).
  - apply (bool_decide_unpack _). vm_compute. reflexivity.
  - vm_compute. by eexists.
  - vm_compute. reflexivity.
  - vm_compute. reflexivity.
  - exists h1, h2. split; [exact H1|]. split.
    + etrans; [exact H2|]. vm_compute. reflexivity.
    + etrans; [exact H3|]. reflexivity.
Defined.
