(* ===== verification/Methods.v ===== *)
(** * The facade with methods, and the interface a host's methods meet

    [Spec] refines the data members.  Here the abstract facade also has
    methods: an abstract method [amethod] maps the store and the
    arguments to a new store and an answer, and the facade answers a
    method call with that answer when it is truthy and with itself
    otherwise (lines 21's [|| chain]).  The wrapper's method members are
    described by a table [mt] of triples (key, function object of the
    target, its code).

    The host program's side is an interface, the class [MethodImpl]: the
    code of each method in the table, called with [this] the target on a
    heap in the simulation relation, returns the abstract answer, keeps
    the relation and leaves the target holding the abstract new store.
    The refinement of whole programs is proved against the class; the
    instance for [Demo]'s [greet] discharges it, which makes the
    scenario of the specification's section 8 an instance of the
    theorem. *)

From S2P Require Import Prelude JsValue JsHeap JsMonad Trainwreck Demo Closures Wrapper Spec.

#[local] Open Scope tw_scope.

(** ** The abstract facade with methods *)

Definition amethod : Type := gmap string value -> list value -> gmap string value * value.

Inductive mcall :=
  | MData (c : acall)
  | MCall (k : string) (args : list value).

(** The facade's answer to a method's result: the result when truthy,
    the facade itself ([None]) otherwise. *)
Definition chain_answer (r : value) : option value := if to_boolean r then Some r else None.

Definition mstep (meths : string -> option amethod) (σ : gmap string value) (c : mcall)
    : gmap string value * option value :=
  match c with
  | MData c => astep σ c
  | MCall k args =>
      match meths k with
      | Some f => let '(σ', r) := f σ args in (σ', chain_answer r)
      | None => (σ, None)
      end
  end.

Fixpoint mrun meths (σ : gmap string value) (cs : list mcall)
    : gmap string value * list (option value) :=
  match cs with
  | [] => (σ, [])
  | c :: cs' =>
      let '(σ1, r) := mstep meths σ c in
      let '(σ2, rs) := mrun meths σ1 cs' in
      (σ2, r :: rs)
  end.

Section Concrete.
Context `{!Host}.

Definition mcstep (n : nat) (w : loc) (c : mcall) : JS value :=
  match c with
  | MData c => cstep n w c
  | MCall k args => invoke n (VObj w) k args
  end.

Fixpoint mcrun (n : nat) (w : loc) (cs : list mcall) : JS (list value) :=
  match cs with
  | [] => ret []
  | c :: cs' =>
      let* r := mcstep n w c in
      let* rs := mcrun n w cs' in
      ret (r :: rs)
  end.
End Concrete.

(** ** The simulation relation with methods *)

Definition method_entry_rel (h : Heap) (l w : loc) (e : string * loc * code) : Prop :=
  let '(k, f, c) := e in
  (exists a, own_prop h w k = Some (data_prop (VObj a))
             /\ code_of h (VObj a) = Some (FnAdapter k (VObj l) (VObj w)))
  /\ get_value h (VObj l) k = Some (VObj f) /\ code_of h (VObj f) = Some c
  /\ get_apply h (VObj f) = Some ApplyBuiltin /\ l ∉ chain h (Some f).

Definition mrel (h : Heap) (l w : loc) (ks : list string) (mt : list (string * loc * code)) : Prop :=
  facade_rel h l w ks /\ Forall (method_entry_rel h l w) mt.

(** A method member of the target, as [create] finds it. *)
Definition is_method_member (h : Heap) (l : loc) (e : string * loc * code) : Prop :=
  let '(k, f, c) := e in
  exists p, own_prop h l k = Some p /\ pvalue p = VObj f /\ penumerable p = true
    /\ blocked h k = false /\ code_of h (VObj f) = Some c
    /\ get_apply h (VObj f) = Some ApplyBuiltin /\ l ∉ chain h (Some f).

Definition mcall_ok (ks : list string) (mt : list (string * loc * code))
    (meths : string -> option amethod) (c : mcall) : bool :=
  match c with
  | MData c => call_ok ks c
  | MCall k _ => bool_decide (k ∈ (fun e => e.1.1) <$> mt) && bool_decide (is_Some (meths k))
  end.

(** ** The interface of the host's methods *)

Class MethodImpl `{!Host} (n : nat) (l w : loc) (ks : list string)
    (mt : list (string * loc * code)) (meths : string -> option amethod) : Prop :=
  method_impl : forall h k f c am args,
    mrel h l w ks mt -> (k, f, c) ∈ mt -> meths k = Some am ->
    exists h', run_code (call n) c (VObj l) args h = Ok (am (abs h l ks) args).2 h'
      /\ mrel h' l w ks mt /\ abs h' l ks = (am (abs h l ks) args).1.

(** ** Lemmas *)

Lemma method_entry_rel_set h l w k v e :
  l <> w -> k <> e.1.1 -> method_entry_rel h l w e -> method_entry_rel (obj_set h l k v) l w e.
Proof.
  destruct e as [[k' f] c]. unfold method_entry_rel. cbn [fst]. intros Hlw Hk ((a & Ha & Hca) & Hg & Hc & Hap & Hch). split; [|split; [|split; [|split]]].
  - exists a. rewrite own_prop_obj_set_other by congruence. by rewrite code_of_obj_set.
  - by rewrite get_value_obj_set_other.
  - by rewrite code_of_obj_set.
  - by rewrite get_apply_obj_set_off.
  - by rewrite (chain_shape h) by apply obj_set_shape.
Qed.

(** A write through an accessor keeps the method entries: the data keys
    and the method keys are distinct, one closure per key of the
    wrapper. *)
Lemma mrel_aheap h l w ks mt c :
  mrel h l w ks mt -> call_ok ks c = true -> facade_rel (aheap h l c) l w ks ->
  mrel (aheap h l c) l w ks mt.
Proof.
  intros [[Hlw Hd] Hm] Hc Hrel. split; [done|]. destruct c as [k|k v]; [done|]. simpl.
  unfold call_ok in Hc. apply andb_prop in Hc as [Hk _]. apply bool_decide_eq_true in Hk.
  eapply Forall_impl; [exact Hm|]. intros [[k' f] c] He. apply method_entry_rel_set; [done| |done].
  simpl. intros ->. destruct He as ((a & Ha & Hca) & _).
  destruct (Hd k' Hk) as [(b & Hb & Hcb) _]. rewrite Ha in Hb. injection Hb as <-.
  rewrite Hca in Hcb. discriminate.
Qed.

Lemma concretize_chain_answer w r : concretize w (chain_answer r) = js_or r (VObj w).
Proof. unfold chain_answer, js_or. by destruct (to_boolean r). Qed.

Section Refinement.
Context `{!Host} (n : nat) (l w : loc) (ks : list string) (mt : list (string * loc * code))
  (meths : string -> option amethod) `{!MethodImpl n l w ks mt meths}.

Lemma mcstep_refines h c :
  mrel h l w ks mt -> mcall_ok ks mt meths c = true ->
  exists h', mcstep (S (S n)) w c h = Ok (concretize w (mstep meths (abs h l ks) c).2) h'
    /\ mrel h' l w ks mt /\ abs h' l ks = (mstep meths (abs h l ks) c).1.
Proof.
  intros Hrel Hc. destruct c as [c|k args]; simpl in *.
  - destruct (cstep_refines (S n) h l w ks c (proj1 Hrel) Hc) as (Hstep & Hrel' & Habs).
    exists (aheap h l c). split; [done|]. split; [by apply mrel_aheap|done].
  - apply andb_prop in Hc as [Hk Hm]. apply bool_decide_eq_true in Hk, Hm.
    apply list_elem_of_fmap in Hk as ([[k' f] c] & -> & He). simpl.
    destruct Hm as [am Ham]. simpl in Ham. rewrite Ham.
    pose proof (proj1 (Forall_forall _ _) (proj2 Hrel) _ He) as ((a & Ha & Hca) & Hg & Hcf & Hap & _).
    destruct (method_impl h k' f c am args Hrel He Ham) as (h' & Hrun & Hrel' & Habs).
    destruct (am (abs h l ks) args) as [σ' r] eqn:Eam. simpl in *.
    exists h'. split; [|done].
    rewrite (invoke_code (S n) h _ k' args (VObj a) _ (get_value_own _ _ _ _ Ha) Hca).
    rewrite <-(call_S (S n) (VObj a) (VObj w) args h _ Hca).
    rewrite (adapter_call (S n) h (VObj a) _ args k' (VObj l) (VObj w) (VObj f) Hca Hg Hap).
    rewrite (call_S n (VObj f) (VObj l) args h _ Hcf), Hrun.
    by rewrite concretize_chain_answer.
Qed.

Lemma mcrun_refines h cs :
  mrel h l w ks mt -> forallb (mcall_ok ks mt meths) cs = true ->
  exists h', mcrun (S (S n)) w cs h = Ok (concretize w <$> (mrun meths (abs h l ks) cs).2) h'
    /\ mrel h' l w ks mt /\ abs h' l ks = (mrun meths (abs h l ks) cs).1.
Proof.
  revert h. induction cs as [|c cs IH]; intros h Hrel Hcs; simpl in *; [by exists h|].
  apply andb_prop in Hcs as [Hc Hcs].
  destruct (mcstep_refines h c Hrel Hc) as (h1 & Hstep & Hrel1 & Habs1).
  destruct (IH h1 Hrel1 Hcs) as (h2 & Hrun & Hrel2 & Habs2).
  destruct (mstep meths (abs h l ks) c) as [σ1 r] eqn:Ea. simpl in *.
  rewrite <-Habs1. destruct (mrun meths (abs h1 l ks) cs) as [σ2 rs] eqn:Er. simpl in *.
  exists h2. unfold bind at 1. rewrite Hstep. unfold bind. rewrite Hrun. done.
Qed.
End Refinement.

(** [create] establishes the relation with methods. *)
Lemma create_establishes_methods h l ks mt :
  heap_wf h -> is_Some (hmem h !! l) -> forallb (is_data_member h l) ks = true ->
  Forall (is_method_member h l) mt ->
  exists h', create (VObj l) h = Ok (VObj (hnext h)) h'
    /\ mrel h' l (hnext h) ks mt /\ abs h' l ks = abs h l ks.
Proof.
  intros Hwf Hl Hks Hmt.
  destruct (create_establishes h l ks Hwf Hl Hks) as (h' & Hrun & Hrel & Habs).
  destruct (create_member h (VObj l) Hwf Hl) as (h'' & Hrun' & _ & Hext & Hm).
  rewrite Hrun in Hrun'. injection Hrun' as <-.
  exists h'. split; [done|]. split; [split; [done|]|done].
  eapply Forall_impl; [exact Hmt|]. intros [[k f] c] (p & Hp & Hv & He & Hb & Hc & Hap & Hch).
  assert (Hty : typeof h (pvalue p) = "function") by (rewrite Hv; unfold typeof; by rewrite Hc).
  destruct (Hm k) as (a & Ha & Hca & _); [by eapply wrapper_keys_own|].
  rewrite (closure_for_function h l k p) in Hca by done.
  assert (Hf : val_ok h (VObj f)) by by eapply code_of_ok.
  split; [by exists a|]. split; [|split; [|split]].
  - rewrite (get_value_ext h h'), (get_value_own _ _ _ _ Hp), Hv by done. done.
  - by rewrite (code_of_ext h h').
  - by rewrite (get_apply_ext h h').
  - by rewrite (chain_ext h h').
Qed.

(** C27 (refinement with methods): on a target whose keys [ks] are data
    members and whose method members are listed in [mt], for a host
    whose methods implement the abstract methods [meths] on the target
    (an instance of [MethodImpl]), any program of reads, writes and
    method calls run through the wrapper [create] returns answers, call
    by call, as the abstract facade does (a method's truthy result, the
    facade otherwise), and leaves the target holding the abstract final
    store. *)
Theorem wrapper_refines_methods `{!Host} n h l ks mt meths cs
    `{!MethodImpl n l (hnext h) ks mt meths} :
  heap_wf h -> is_Some (hmem h !! l) -> forallb (is_data_member h l) ks = true ->
  Forall (is_method_member h l) mt -> forallb (mcall_ok ks mt meths) cs = true ->
  exists h1 h2,
    create (VObj l) h = Ok (VObj (hnext h)) h1
    /\ mcrun (S (S n)) (hnext h) cs h1
       = Ok (concretize (hnext h) <$> (mrun meths (abs h l ks) cs).2) h2
    /\ abs h2 l ks = (mrun meths (abs h l ks) cs).1.
Proof.
  intros Hwf Hl Hks Hmt Hcs.
  destruct (create_establishes_methods h l ks mt Hwf Hl Hks Hmt) as (h1 & Hrun & Hrel & Habs).
  destruct (mcrun_refines n l (hnext h) ks mt meths h1 cs Hrel Hcs) as (h2 & Hc & _ & Habs2).
  rewrite Habs in Hc, Habs2. by exists h1, h2.
Qed.

(** ** The scenario's [greet] implements its abstract method

    [function(who){ this.name = who; }]: the store with [name] set to
    the first argument, and [undefined]. *)

Definition greet_abs : amethod := fun σ args => (<["name" := arg0 args]> σ, VUndef).

Definition greet_meths (k : string) : option amethod :=
  if String.eqb k "greet" then Some greet_abs else None.

Definition bob_methods : list (string * loc * code) := [("greet", 7%positive, Native id_greet)].

#[export] Instance greet_impl n w : MethodImpl n 8 w ["name"] bob_methods greet_meths.
Proof.
  intros h k f c am args [Hrel Hm] Hin Ham.
  apply list_elem_of_singleton in Hin. injection Hin as -> -> ->. injection Ham as <-.
  pose proof Hrel as [Hlw Hd]. destruct (Hd "name") as [_ (p & Hp & Hw)]; [set_solver|].
  exists (obj_set h 8 "name" (arg0 args)). split; [|split].
  - cbn [run_code host_call demo_host demo_host_call]. unfold bind, js_put, put_value. done.
  - split; [by eapply facade_rel_set|]. eapply Forall_impl; [exact Hm|].
    intros e He. apply method_entry_rel_set; [done| |done].
    destruct e as [[k' f'] c']. simpl. intros <-.
    destruct He as ((a & Ha & Hca) & _). destruct (Hd "name") as [(b & Hb & Hcb) _]; [set_solver|].
    rewrite Ha in Hb. injection Hb as <-. rewrite Hca in Hcb. discriminate.
  - by eapply abs_set; [set_solver| |].
Qed.

(** The scenario of section 8 as a program of the abstract facade:
    [w.name()], [w.name("Alice")], [w.greet("Carl")], [w.name()]. *)
Lemma wrapper_refines_methods_witness :
  exists h1 h2,
    create bob demo_heap = Ok bob_w h1
    /\ mcrun 2 13 [MData (AGet "name"); MData (ASet "name" (VStr "Alice"));
                   MCall "greet" [VStr "Carl"]; MData (AGet "name")] h1
       = Ok [VStr "Bob"; bob_w; bob_w; VStr "Carl"] h2
    /\ abs h2 8 ["name"] = <["name" := VStr "Carl"]> (abs demo_heap 8 ["name"]).
Proof.
  destruct (wrapper_refines_methods 0 demo_heap 8 ["name"] bob_methods greet_meths
    [MData (AGet "name"); MData (ASet "name" (VStr "Alice"));
     MCall "greet" [VStr "Carl"]; MData (AGet "name")]) as (h1 & h2 & H1 & H2 & H3).
  - exact demo_heap_wf.
  - vm_compute. by eexists.
  - vm_compute. reflexivity.
  - constructor; [|constructor]. exists (data_prop (VObj 7)).
    repeat split; try (vm_compute; reflexivity). apply (bool_decide_unpack _). vm_compute. reflexivity.
  - vm_compute. reflexivity.
  - exists h1, h2. split; [exact H1|]. split.
    + etrans; [exact H2|]. vm_compute. reflexivity.
    + etrans; [exact H3|]. vm_compute. reflexivity.
Defined.
