(* ===== verification/Library.v ===== *)
(** * The library object and [create] through it (lines 9-59)

    [make_library] builds the object literal of lines 9-59; [create_lib]
    is [create] as line 54 reads it, calling whatever [trainwreck.fn] and
    [trainwreck.prop] hold.  [lib_intact h lib] says the library object
    still holds its own three functions.  While it does, the faithful
    [create_lib] computes exactly what [create] computes, so every theorem
    proved of [create] holds of the code; and the three methods of the
    library, called as [trainwreck.fn(...)], [trainwreck.prop(...)] and
    [trainwreck.create(...)], are [fn], [prop] and [create].  When a client
    replaces [trainwreck.prop], [create] calls the replacement. *)

From S2P Require Import Prelude JsValue JsHeap JsMonad Trainwreck Demo Closures Wrapper Exports.

#[local] Open Scope tw_scope.

(** [lib[k]] is a function object whose code is [c]. *)
Definition holds_fun (h : Heap) (lib : loc) (k : string) (c : code) : Prop :=
  exists f, get_value h (VObj lib) k = Some (VObj f) /\ code_of h (VObj f) = Some c.

Definition lib_intact (h : Heap) (lib : loc) : Prop :=
  is_Some (hmem h !! lib)
  /\ holds_fun h lib "fn" LibFn /\ holds_fun h lib "prop" LibProp
  /\ holds_fun h lib "create" (LibCreate (VObj lib)).

Section Intact.
Implicit Types (h : Heap).

Lemma holds_fun_ext h h' lib k c :
  heap_wf h -> heap_ext h h' -> is_Some (hmem h !! lib) ->
  holds_fun h lib k c -> holds_fun h' lib k c.
Proof.
  intros Hwf Hext Hl (f & Hf & Hc). exists f.
  rewrite (get_value_ext h h') by done. split; [done|].
  rewrite (code_of_ext h h'); [done|done|]. by eapply get_value_ok.
Qed.

Lemma lib_intact_ext h h' lib :
  heap_wf h -> heap_ext h h' -> lib_intact h lib -> lib_intact h' lib.
Proof.
  intros Hwf Hext (Hl & Hf & Hp & Hc). split; [|split; [|split]];
    try by eapply holds_fun_ext.
  destruct Hl as [o Ho]. exists o. eapply lookup_weaken; [done|apply Hext].
Qed.
(** A write to a key the library does not use keeps it intact. *)
Lemma lib_intact_obj_set h lib m k v :
  k <> "fn" -> k <> "prop" -> k <> "create" ->
  lib_intact h lib -> lib_intact (obj_set h m k v) lib.
Proof.
  intros H1 H2 H3 (Hl & Hf & Hp & Hc).
  assert (Hh : forall k' c, k' <> k -> holds_fun h lib k' c -> holds_fun (obj_set h m k v) lib k' c).
  { intros k' c Hne (f & Hg & Hcf). exists f.
    by rewrite get_value_obj_set_other, code_of_obj_set by done. }
  split; [by apply hmem_obj_set_is_Some|]. split; [|split]; apply Hh; auto.
Qed.
End Intact.

(** ** Building the library object *)

(** One property of the literal: a function expression allocated, then
    defined as a new own property of the literal's object [l]. *)
Lemma define_fun_step (hi : Heap) l (o : obj code) k c :
  heap_wf hi -> hmem hi !! l = Some o -> assoc k (oprops o) = None ->
  let hi' := obj_define (new_function c hi).2 l k (VObj (hnext hi)) in
  heap_wf hi'
  /\ hmem hi' !! l = Some (set_props o (oprops o ++ [(k, data_prop (VObj (hnext hi)))]))
  /\ code_of hi' (VObj (hnext hi)) = Some c
  /\ (forall l', l' <> l -> is_Some (hmem hi !! l') -> hmem hi' !! l' = hmem hi !! l')
  /\ (forall v, val_ok hi v -> code_of hi' v = code_of hi v)
  /\ hnext hi' = Pos.succ (hnext hi) /\ hrealm hi' = hrealm hi.
Proof.
  intros Hwf Hl Hk hi'. set (h1 := (new_function c hi).2).
  assert (Hext1 : heap_ext hi h1) by apply alloc_ext, Hwf.
  assert (Hwf1 : heap_wf h1).
  { pose proof Hwf as [_ (?&?&?&?&?)]. apply alloc_wf; [done|done|constructor|constructor]. }
  assert (Hl1 : hmem h1 !! l = Some o) by (eapply lookup_weaken; [done|apply Hext1]).
  assert (Hdef : hi' = heap_store h1 l (set_props o (oprops o ++ [(k, data_prop (VObj (hnext hi)))])))
    by (unfold hi', obj_define; fold h1; by rewrite Hl1, Hk).
  assert (Hf1 : hmem h1 !! hnext hi = Some (mkObj [] (function_prototype (hrealm hi)) true (Some c)))
    by (simpl; apply lookup_insert_eq).
  split; [apply obj_define_wf; [done|exact (mk_is_Some _ _ Hf1)]|].
  rewrite Hdef. split; [simpl; apply lookup_insert_eq|]. split.
  { unfold code_of. cbn [hmem heap_store]. rewrite lookup_insert_ne; [by rewrite Hf1|].
    intros ->. by rewrite (wf_fresh hi Hwf) in Hl. }
  split; [|split; [|done]].
  - intros l' Hne [o' Ho']. cbn [hmem heap_store]. rewrite lookup_insert_ne by congruence.
    rewrite Ho'. eapply lookup_weaken; [done|apply Hext1].
  - intros v Hv. rewrite <-(code_of_ext hi h1 v Hext1 Hv). rewrite <-Hdef. apply code_of_obj_define.
Qed.

Lemma holds_fun_intro (h : Heap) l k c f :
  own_prop h l k = Some (data_prop (VObj f)) -> code_of h (VObj f) = Some c -> holds_fun h l k c.
Proof. intros Hp Hc. exists f. split; [by apply (get_value_own _ _ _ _ Hp)|done]. Qed.

(** Lines 9-59 on a well-formed heap: the library object is the next
    location, holds its three functions in order, and nothing else of the
    heap changes. *)
Lemma make_library_spec (h : Heap) :
  heap_wf h ->
  exists h', make_library h = Ok (VObj (hnext h)) h' /\ heap_wf h' /\ heap_ext h h'
    /\ lib_intact h' (hnext h) /\ own_keys h' (hnext h) = ["fn"; "prop"; "create"]
    /\ code_of h' (VObj (hnext h)) = None.
Proof.
  intros Hwf. set (l := hnext h). set (h1 := (new_object h).2).
  assert (Hext1 : heap_ext h h1) by apply alloc_ext, Hwf.
  assert (Hwf1 : heap_wf h1) by (pose proof (loop_inv_init h VUndef Hwf) as [? _]; done).
  assert (Hl1 : hmem h1 !! l = Some (mkObj [] (object_prototype (hrealm h)) true None))
    by (simpl; apply lookup_insert_eq).
  destruct (define_fun_step h1 l _ "fn" LibFn Hwf1 Hl1 eq_refl)
    as (Hwf2 & Hl2 & Hc2 & Hm2 & Hk2 & Hn2 & Hr2). set (h2 := obj_define _ _ _ _) in *.
  destruct (define_fun_step h2 l _ "prop" LibProp Hwf2 Hl2 eq_refl)
    as (Hwf3 & Hl3 & Hc3 & Hm3 & Hk3 & Hn3 & Hr3). set (h3 := obj_define _ _ "prop" _) in *.
  destruct (define_fun_step h3 l _ "create" (LibCreate (VObj l)) Hwf3 Hl3 eq_refl)
    as (Hwf4 & Hl4 & Hc4 & Hm4 & Hk4 & Hn4 & Hr4). set (h4 := obj_define _ _ "create" _) in *.
  exists h4. split; [reflexivity|]. split; [done|].
  assert (Hlib : hmem h4 !! l = Some (mkObj [("fn", data_prop (VObj (hnext h1)));
             ("prop", data_prop (VObj (hnext h2))); ("create", data_prop (VObj (hnext h3)))]
             (object_prototype (hrealm h)) true None)) by exact Hl4.
  assert (Hown : forall k, own_prop h4 l k
            = assoc k [("fn", data_prop (VObj (hnext h1))); ("prop", data_prop (VObj (hnext h2)));
                       ("create", data_prop (VObj (hnext h3)))])
    by (intros k; unfold own_prop; by rewrite Hlib).
  split; [|split; [|split; [unfold own_keys; by rewrite Hlib|unfold code_of; by rewrite Hlib]]].
  - split; [|split].
    + apply map_subseteq_spec. intros l' o' Ho'. assert (Hne : l' <> l).
      { intros ->. pose proof (wf_fresh h Hwf) as Hfr. fold l in Hfr. congruence. }
      assert (Hs1 : hmem h1 !! l' = Some o') by (eapply lookup_weaken; [done|apply Hext1]).
      assert (Hs2 : hmem h2 !! l' = Some o') by (rewrite Hm2; eauto).
      assert (Hs3 : hmem h3 !! l' = Some o') by (rewrite Hm3; eauto).
      rewrite Hm4; eauto.
    + rewrite Hn4, Hn3, Hn2. simpl. lia.
    + rewrite Hr4, Hr3, Hr2. done.
  - assert (Hf3 : code_of h3 (VObj (hnext h1)) = Some LibFn) by (rewrite Hk3; [done|by eapply code_of_ok]).
    assert (Hf4 : code_of h4 (VObj (hnext h1)) = Some LibFn) by (rewrite Hk4; [done|by eapply code_of_ok]).
    assert (Hp4 : code_of h4 (VObj (hnext h2)) = Some LibProp) by (rewrite Hk4; [done|by eapply code_of_ok]).
    split; [exact (mk_is_Some _ _ Hlib)|].
    split; [|split]; (eapply holds_fun_intro; [by rewrite Hown|eassumption]).
Qed.

Section Dispatch.
Context `{!Host}.
Implicit Types (h : Heap).

(** A call of [lib[k]] when it holds the function of code [c]. *)
Lemma call_member n h lib k c thisv args :
  holds_fun h lib k c ->
  (let* g := js_get (VObj lib) k in call (S n) g thisv args) h = run_code (call n) c thisv args h.
Proof.
  intros (f & Hf & Hc). unfold bind at 1, js_get. rewrite Hf. by apply call_S.
Qed.

Lemma lib_make_fn n h lib p target obj :
  lib_intact h lib -> lib_make (call (S n)) (VObj lib) "fn" p target obj h = fn p target obj h.
Proof. intros (_ & Hf & _). unfold lib_make. by rewrite (call_member n h lib "fn" LibFn). Qed.

Lemma lib_make_prop n h lib p target obj :
  lib_intact h lib -> lib_make (call (S n)) (VObj lib) "prop" p target obj h = prop p target obj h.
Proof. intros (_ & _ & Hp & _). unfold lib_make. by rewrite (call_member n h lib "prop" LibProp). Qed.

(** The loop through the library, step by step against [create]'s loop,
    under [Wrapper]'s loop invariant. *)
Section LibLoop.
Context (h : Heap) (target : value) (w lib : loc) (n : nat).
Hypothesis Hwf : heap_wf h.
Hypothesis Htarget : val_ok h target.
Hypothesis Hfresh : hmem h !! w = None.
Hypothesis Hlib : lib_intact h lib.

Lemma create_lib_loop_step hi ps p keys :
  loop_inv h target w hi ps -> is_Some (get_value h target p) ->
  create_lib_loop (call (S n)) (VObj lib) target (VObj w) (p :: keys) hi
  = create_lib_loop (call (S n)) (VObj lib) target (VObj w) keys
      (obj_set (new_function (closure_for h target (VObj w) p) hi).2 w p (VObj (hnext hi))).
Proof.
  intros Hinv [tv Htv]. pose proof Hinv as (Hwfi & Hext & _).
  pose proof (lib_intact_ext h hi lib Hwf Hext Hlib) as Hlibi.
  assert (Hgi : get_value hi target p = Some tv) by by rewrite (get_value_ext h hi).
  assert (Hty : typeof hi tv = typeof h tv) by (apply (typeof_ext h hi); eauto with tw).
  unfold closure_for. rewrite Htv.
  cbn [create_lib_loop]. unfold bind at 1, js_get. rewrite Hgi.
  unfold bind at 1, js_typeof. rewrite Hty.
  destruct (String.eqb (typeof h tv) "function");
    unfold bind at 1; [rewrite lib_make_fn by done|rewrite lib_make_prop by done]; reflexivity.
Qed.

Lemma create_lib_loop_eq keys : forall hi ps,
  loop_inv h target w hi ps -> NoDup keys -> (forall k, k ∈ keys -> k ∉ assoc_keys ps) ->
  (forall k, k ∈ keys -> is_Some (get_value h target k)) ->
  create_lib_loop (call (S n)) (VObj lib) target (VObj w) keys hi
  = create_loop target (VObj w) keys hi.
Proof.
  induction keys as [|p keys IH]; intros hi ps Hinv Hnd Hout Hget; [done|].
  apply NoDup_cons in Hnd as [Hp Hnd].
  destruct (loop_step h target w Hwf Htarget Hfresh hi ps p keys Hinv) as [-> Hinv'];
    [set_solver|set_solver|].
  rewrite (create_lib_loop_step hi ps p keys Hinv) by set_solver.
  eapply IH; [exact Hinv'|done| |set_solver].
  intros k Hk. destruct (blocked h p); [set_solver|].
  unfold assoc_keys. rewrite map_app. simpl. set_solver.
Qed.
End LibLoop.

(** [create] through an intact library is [create]. *)
Lemma create_lib_eq n h lib target :
  heap_wf h -> lib_intact h lib -> val_ok h target ->
  create_lib (call (S n)) (VObj lib) target h = create target h.
Proof.
  intros Hwf Hlib Ht. unfold create_lib, create, bind at 1 3, js_new_object.
  destruct (new_object h) as [w h0] eqn:Hn.
  pose proof (loop_inv_init h target Hwf) as Hinv0. rewrite Hn in Hinv0. simpl in Hinv0.
  assert (Hw : w = hnext h) by (unfold new_object, alloc in Hn; by injection Hn).
  subst w. unfold bind, js_for_in_keys.
  rewrite (create_lib_loop_eq h target (hnext h) lib n Hwf Ht (wf_fresh h Hwf) Hlib
             (for_in_keys h0 target) h0 []); [by rewrite Hn|done|apply for_in_keys_NoDup|set_solver|].
  intros k Hk. pose proof Hinv0 as (_ & Hext & _).
  rewrite (for_in_keys_ext h h0) in Hk by done. by apply for_in_keys_get.
Qed.
(** [trainwreck.create(target)] through an intact library. *)
Lemma invoke_create n h lib target :
  heap_wf h -> lib_intact h lib -> val_ok h target ->
  invoke (S (S n)) (VObj lib) "create" [target] h = create target h.
Proof.
  intros Hwf Hlib Ht. pose proof Hlib as (_ & _ & _ & Hc). unfold invoke.
  rewrite (call_member (S n) h lib "create" (LibCreate (VObj lib))) by done.
  by apply create_lib_eq.
Qed.

(** C21 (the library's methods): while the library object holds its own
    functions, the calls [trainwreck.fn(k, scope, chain)],
    [trainwreck.prop(k, scope, chain)] and [trainwreck.create(target)]
    made at any stack depth that allows the nested calls do what [fn],
    [prop] and [create] do: [create] dispatches through the library and
    still computes [create]. *)
Theorem library_dispatch n h lib k scope chain target :
  heap_wf h -> lib_intact h lib -> val_ok h target ->
  invoke (S n) (VObj lib) "fn" [VStr k; scope; chain] h = fn k scope chain h
  /\ invoke (S n) (VObj lib) "prop" [VStr k; scope; chain] h = prop k scope chain h
  /\ invoke (S (S n)) (VObj lib) "create" [target] h = create target h.
Proof.
  intros Hwf Hlib Ht. pose proof Hlib as (_ & Hf & Hp & _). unfold invoke.
  rewrite (call_member n h lib "fn" LibFn), (call_member n h lib "prop" LibProp) by done.
  split; [done|]. split; [done|]. by apply invoke_create.
Qed.
End Dispatch.

(** ** The module under CommonJS *)

Section Require.
Context `{!Host}.

(** C22 ([require('trainwreck').create]): loading the file on a
    well-formed heap, with no AMD loader and a [module] object whose own
    [exports] is writable and truthy, builds the library at the next
    location, stores it in [module.exports], and the [create] read from
    there wraps any target as [create] does. *)
Theorem require_create n d h define m g p :
  heap_wf h -> val_ok h (ident_value define) -> amd_present h define = false ->
  own_prop h m "exports" = Some p -> pwritable p = true -> to_boolean (pvalue p) = true ->
  exists h1, module_init n define (Some (VObj m)) g h = Ok ViaCommonJS h1
    /\ get_value h1 (VObj m) "exports" = Some (VObj (hnext h))
    /\ forall target, val_ok h1 target ->
       invoke (S (S d)) (VObj (hnext h)) "create" [target] h1 = create target h1.
Proof.
  intros Hwf Hd Ha Hp Hw Ht.
  destruct (make_library_spec h Hwf) as (h' & Hmk & Hwf' & Hext & Hlib & _).
  set (l := hnext h) in *.
  assert (Hm : is_Some (hmem h !! m)) by by eapply own_prop_allocated.
  assert (Hp' : own_prop h' m "exports" = Some p) by (rewrite (own_prop_ext h h'); [done|apply Hext|done]).
  assert (Hex : get_value h' (VObj m) "exports" = Some (pvalue p)) by by apply get_value_own.
  exists (obj_set h' m "exports" (VObj l)).
  assert (Hrun : module_init n define (Some (VObj m)) g h = Ok ViaCommonJS (obj_set h' m "exports" (VObj l))).
  { unfold module_init. rewrite (bind_Ok _ _ _ _ _ Hmk).
    rewrite export_not_amd by (by rewrite (amd_present_ext h h')).
    rewrite (bind_Ok (js_typeof_ident (Some (VObj m))) _ h' (typeof h' (VObj m)) h') by done.
    cbv beta. rewrite typeof_undefined. cbn [is_undefined ident_value].
    rewrite (bind_Ok (js_get (VObj m) "exports") _ h' (pvalue p) h') by (unfold js_get; by rewrite Hex).
    by rewrite Ht. }
  split; [done|]. split.
  - apply (get_value_own _ _ _ (mkProp (VObj l) true (penumerable p))).
    by apply own_prop_obj_set_writable'.
  - intros target Htg. apply invoke_create; [|by apply lib_intact_obj_set|done].
    apply obj_set_wf; [done|]. by destruct Hlib.
Qed.
End Require.

(** ** The module under an AMD loader

    What a loader promises the module, as a class over the code of its
    [define] and the location of its registry: [define(id, value)],
    called with a string [id] and a value that is not a function (a
    module given as an object, not as a factory), stores [value] in
    [registry[id]] by an ordinary assignment and returns [undefined]. *)
Class AmdLoader `{!Host} (c : code) (r : loc) : Prop :=
  define_registers : forall n h f name v,
    code_of h f = Some c -> code_of h v = None ->
    call (S n) f VUndef [VStr name; v] h = Ok VUndef (obj_set h r name v).

Section Amd.
Context `{!Host} (c : code) (r : loc) `{!AmdLoader c r}.

(** C31 (AMD end to end): loading the file on a well-formed heap where
    [define] is a loader's function with a truthy [define.amd], and
    whose registry is extensible and holds no ["trainwreck"] on its
    chain, builds the library at the next location, registers it under
    ["trainwreck"], and the [create] a client reads from the registered
    module wraps any target as [create] does. *)
Theorem amd_require_create n dd h d o module g :
  heap_wf h -> code_of h (VObj d) = Some c -> amd_present h (Some (VObj d)) = true ->
  hmem h !! r = Some o -> oextensible o = true ->
  lookup_in h (chain h (Some r)) "trainwreck" = None ->
  exists h2, module_init (S n) (Some (VObj d)) module g h = Ok ViaAMD h2
    /\ get_value h2 (VObj r) "trainwreck" = Some (VObj (hnext h))
    /\ forall target, val_ok h2 target ->
       invoke (S (S dd)) (VObj (hnext h)) "create" [target] h2 = create target h2.
Proof.
  intros Hwf Hd Ha Hr He Hk.
  destruct (make_library_spec h Hwf) as (h' & Hmk & Hwf' & Hext & Hlib & _ & Hlc).
  set (l := hnext h) in *.
  assert (Hdv : val_ok h (VObj d)) by by eapply code_of_ok.
  assert (Hd' : code_of h' (VObj d) = Some c) by by rewrite (code_of_ext h h').
  assert (Hr' : hmem h' !! r = Some o) by (eapply lookup_weaken; [done|apply Hext]).
  rewrite (chain_unfold h r o Hwf Hr) in Hk. cbn [lookup_in] in Hk.
  destruct (own_prop h r "trainwreck") eqn:Hown; [done|].
  unfold own_prop in Hown. rewrite Hr in Hown. cbn in Hown.
  assert (Hk' : lookup_in h' (chain h' (oproto o)) "trainwreck" = None)
    by (rewrite (lookup_chain_ext h h'); [done|done|done|by eapply wf_proto_allocated]).
  exists (obj_set h' r "trainwreck" (VObj l)). split; [|split].
  - unfold module_init. rewrite (bind_Ok _ _ _ _ _ Hmk).
    rewrite export_amd by (by rewrite (amd_present_ext h h')).
    by rewrite (define_registers n h' (VObj d) "trainwreck" (VObj l) Hd' Hlc).
  - apply (get_value_own _ _ _ (data_prop (VObj l))). by eapply own_prop_obj_set_new.
  - intros target Ht. apply invoke_create; [|by apply lib_intact_obj_set|done].
    apply obj_set_wf; [done|]. by destruct Hlib.
Qed.
End Amd.

(** C23 (dispatch through the mutable library object): [create] reads
    [trainwreck.prop] on the library object at each data key (line 54),
    so when a client has replaced it by a function [g], whatever the
    rest of the library holds, [trainwreck.create(target)] calls [g]
    with [this] the library and the arguments [(p, target, obj)] at the
    target's first key [p] when that key holds a non-function, and an
    exception of [g] there is the exception of [create], with the heap
    [g] left (the new wrapper [obj] allocated, with no member). *)
Theorem create_uses_replaced_prop `{!Host} n h lib target g p ps tv e h' :
  heap_wf h -> is_Some (hmem h !! lib) -> holds_fun h lib "create" (LibCreate (VObj lib)) ->
  get_value h (VObj lib) "prop" = Some g -> val_ok h target ->
  for_in_keys h target = p :: ps -> get_value h target p = Some tv -> typeof h tv <> "function" ->
  call (S n) g (VObj lib) [VStr p; target; VObj (hnext h)] (new_object h).2 = Err e h' ->
  invoke (S (S n)) (VObj lib) "create" [target] h = Err e h'.
Proof.
  intros Hwf Hl Hc Hg Ht Hk Hp Hty Hcall. unfold invoke.
  rewrite (call_member (S n) h lib "create" _ (VObj lib) [target] Hc). cbn [run_code].
  change (arg 0 [target]) with target.
  assert (Hext : heap_ext h (new_object h).2) by apply alloc_ext, Hwf.
  unfold create_lib, bind at 1, js_new_object.
  destruct (new_object h) as [w h0] eqn:Hn. cbn [snd] in Hext, Hcall.
  assert (Hw : w = hnext h) by (unfold new_object, alloc in Hn; by injection Hn). subst w.
  unfold bind at 1, js_for_in_keys. rewrite (for_in_keys_ext h h0), Hk by done.
  unfold bind at 1. cbn [create_lib_loop]. unfold bind at 1, js_get. rewrite (get_value_ext h h0), Hp by done.
  unfold bind at 1, js_typeof. rewrite (typeof_ext h h0) by (done || by eapply get_value_ok).
  destruct (String.eqb_spec (typeof h tv) "function") as [|_]; [done|].
  unfold lib_make, bind at 1 2, js_get. rewrite (get_value_ext h h0), Hg by done.
  by rewrite Hcall.
Qed.

(** ** Witnesses *)

Lemma library_dispatch_witness :
  invoke 1 (VObj 13) "fn" [VStr "name"; bob; VUndef] lib_heap = fn "name" bob VUndef lib_heap
  /\ invoke 1 (VObj 13) "prop" [VStr "name"; bob; VUndef] lib_heap = prop "name" bob VUndef lib_heap
  /\ invoke 2 (VObj 13) "create" [bob] lib_heap = create bob lib_heap.
Proof.
  apply (library_dispatch 0 lib_heap 13 "name" bob VUndef bob).
  - apply (bool_decide_unpack _). vm_compute. reflexivity.
  - split; [vm_compute; by eexists|].
    split; [|split]; eexists; split; vm_compute; reflexivity.
  - vm_compute. by eexists.
Defined.

Lemma require_create_witness :
  exists h1, module_init 1 None (Some (VObj 13)) empty_target node_heap = Ok ViaCommonJS h1
    /\ get_value h1 (VObj 13) "exports" = Some (VObj 14)
    /\ forall target, val_ok h1 target ->
       invoke 2 (VObj 14) "create" [target] h1 = create target h1.
Proof.
  apply (require_create 1 0 node_heap None 13 empty_target (data_prop (VObj 12)));
    try (vm_compute; reflexivity).
  apply (bool_decide_unpack _). vm_compute. reflexivity.
Defined.

(** [Demo]'s [define] is a loader whose registry is the object at 12. *)
#[export] Instance demo_loader : AmdLoader (Native id_define) 12.
Proof. intros n h f name v Hf _. by rewrite (call_S _ _ _ _ _ _ Hf). Qed.

Lemma amd_require_create_witness :
  exists h2, module_init 1 (Some (VObj 13)) None empty_target amd_heap = Ok ViaAMD h2
    /\ get_value h2 (VObj 12) "trainwreck" = Some (VObj 14)
    /\ forall target, val_ok h2 target ->
       invoke 2 (VObj 14) "create" [target] h2 = create target h2.
Proof.
  apply (amd_require_create (Native id_define) 12 0 0 amd_heap 13 (plain [] (Some 1%positive)) None
           empty_target); try (vm_compute; reflexivity).
  apply (bool_decide_unpack _). vm_compute. reflexivity.
Defined.

(** [trainwreck.prop = thrower] (host function 10): [trainwreck.create(bob)]
    throws ["name"], [bob]'s first key, with the wrapper at 17 left
    without members. *)
Lemma create_uses_replaced_prop_witness :
  invoke 3 (VObj 13) "create" [bob] lib_prop_replaced
  = Err (Thrown (VStr "name")) (new_object lib_prop_replaced).2.
Proof.
  apply (create_uses_replaced_prop 1 lib_prop_replaced 13 bob (VObj 10) "name" ["greet"] (VStr "Bob")).
  - apply (bool_decide_unpack _). vm_compute. reflexivity.
  - vm_compute. by eexists.
  - exists 16%positive. split; vm_compute; reflexivity.
  - vm_compute. reflexivity.
  - vm_compute. by eexists.
  - vm_compute. reflexivity.
  - vm_compute. reflexivity.
  - vm_compute. discriminate.
  - vm_compute. reflexivity.
Defined.
