(* ===== verification/Sharing.v ===== *)
(** * Wrappers sharing a target, late keys, and wrappers of wrappers

    Section 4.3 of the specification: two wrappers made by two calls of
    [create] on one target are distinct objects closing over the same
    target, so a write through one is read through the other.  Section 3:
    a key added to the target after wrapping is not reflected on the
    wrapper.  And [create] applied to a wrapper: every member of a
    wrapper is a function, so the outer wrapper holds adapters of the
    inner one's members, and a write through it returns the inner
    wrapper, which is truthy. *)

From S2P Require Import Prelude JsValue JsHeap JsMonad Trainwreck Demo Closures Wrapper Spec.

#[local] Open Scope tw_scope.

Section Sharing.
Context `{!Host}.
Implicit Types (h : Heap).

(** A data member's accessor on the wrapper [create] returned, with the
    heap facts around it. *)
Lemma create_accessor h l k :
  heap_wf h -> is_data_member h l k = true ->
  exists h1 f p, create (VObj l) h = Ok (VObj (hnext h)) h1 /\ heap_wf h1 /\ heap_ext h h1
    /\ own_prop h1 (hnext h) k = Some (data_prop (VObj f))
    /\ code_of h1 (VObj f) = Some (PropAccessor k (VObj l) (VObj (hnext h)))
    /\ own_prop h1 l k = Some p /\ pwritable p = true
    /\ get_apply h1 (VObj f) = Some (fp_apply h).
Proof.
  intros Hwf Hk. unfold is_data_member in Hk.
  destruct (own_prop h l k) as [p|] eqn:Hp; [|done].
  apply andb_prop in Hk as [Hk Hb]. apply andb_prop in Hk as [Hk Ht].
  apply andb_prop in Hk as [Hw He]. apply negb_true_iff in Hb, Ht. apply String.eqb_neq in Ht.
  pose proof (own_prop_allocated h l k p Hp) as Hl.
  destruct (create_member h (VObj l) Hwf Hl) as (h1 & Hrun & Hwf1 & Hext & Hm).
  destruct (Hm k) as (f & Hf & Hc & Ha); [by eapply wrapper_keys_own|].
  rewrite (closure_for_data h l k p) in Hc by done.
  exists h1, f, p. do 5 (split; [done|]). split; [|done].
  rewrite (own_prop_ext h h1); [done|apply Hext|done].
Qed.

(** C24 (two wrappers share their target): two calls of [create] on one
    target return two distinct objects; after [w1.k(v)] on a data member
    [k], which returns [w1], [w2.k()] reads [v], and the target holds
    [v]. *)
Theorem two_wrappers_share n h l k v :
  heap_wf h -> is_data_member h l k = true -> is_undefined v = false ->
  exists h1 h2 h3,
    create (VObj l) h = Ok (VObj (hnext h)) h1
    /\ create (VObj l) h1 = Ok (VObj (hnext h1)) h2
    /\ hnext h <> hnext h1
    /\ invoke (S n) (VObj (hnext h)) k [v] h2 = Ok (VObj (hnext h)) h3
    /\ invoke (S n) (VObj (hnext h1)) k [] h3 = Ok v h3
    /\ get_value h3 (VObj l) k = Some v.
Proof.
  intros Hwf Hk Hv.
  destruct (create_accessor h l k Hwf Hk) as (h1 & f1 & p & Hrun1 & Hwf1 & Hext1 & Hf1 & Hc1 & Hp1 & Hw & _).
  assert (Hl : is_Some (hmem h !! l)) by (unfold is_data_member in Hk;
    destruct (own_prop h l k) eqn:E; [by eapply own_prop_allocated|done]).
  rewrite <-(is_data_member_ext h h1) in Hk by done.
  destruct (create_accessor h1 l k Hwf1 Hk) as (h2 & f2 & p' & Hrun2 & Hwf2 & Hext2 & Hf2 & Hc2 & Hp2 & Hw2 & _).
  assert (Hnext : hnext h <> hnext h1).
  { pose proof (own_prop_allocated _ _ _ _ Hf1) as [o Ho]. intros Heq. rewrite Heq in Ho.
    by rewrite wf_fresh in Ho. }
  assert (Hf1' : own_prop h2 (hnext h) k = Some (data_prop (VObj f1)))
    by (rewrite (own_prop_ext h1 h2); [done|apply Hext2|by eapply own_prop_allocated]).
  assert (Hc1' : code_of h2 (VObj f1) = Some (PropAccessor k (VObj l) (VObj (hnext h))))
    by (rewrite (code_of_ext h1 h2); [done|done|by eapply code_of_ok]).
  set (h3 := obj_set h2 l k v).
  assert (Hp3 : own_prop h3 l k = Some (mkProp v true (penumerable p'))) by
    by apply own_prop_obj_set_writable'.
  exists h1, h2, h3. do 3 (split; [done|]). split.
  { by rewrite (invoke_accessor_write n h2 (hnext h) k f1 (VObj l) (VObj (hnext h)) v). }
  assert (Hg : get_value h3 (VObj l) k = Some v) by apply (get_value_own _ _ _ _ Hp3).
  split; [|done].
  rewrite (invoke_accessor_read n h3 (hnext h1) k f2 (VObj l) (VObj (hnext h1))).
  - unfold get_outcome. by rewrite Hg.
  - unfold h3. rewrite own_prop_obj_set_other; [done|].
    intros Heq. injection Heq as Heq. destruct Hl as [o Ho].
    assert (Ho1 : hmem h1 !! l = Some o) by (eapply lookup_weaken; [done|apply Hext1]).
    rewrite <-Heq, wf_fresh in Ho1 by done. done.
  - unfold h3. by rewrite code_of_obj_set.
Qed.
(** C25 (no re-synchronisation): a key [k] the target did not enumerate
    when it was wrapped, and that [Object.prototype]'s chain does not
    hold, is not a member of the wrapper even after [target[k] = v]:
    calling [w.k(...)] throws [TypeError] ([undefined] is not a
    function), at every depth.  (The target is not on
    [Object.prototype]'s chain, where [k] would be inherited.) *)
Theorem added_key_not_wrapped n h l k v args :
  heap_wf h -> is_Some (hmem h !! l) -> k ∉ for_in_keys h (VObj l) ->
  l ∉ chain h (object_prototype (hrealm h)) ->
  lookup_in h (chain h (object_prototype (hrealm h))) k = None ->
  exists h1, create (VObj l) h = Ok (VObj (hnext h)) h1
    /\ invoke n (VObj (hnext h)) k args (obj_set h1 l k v)
       = Err TypeError (obj_set h1 l k v).
Proof.
  intros Hwf Hl Hk Hch Hop.
  destruct (create_spec h (VObj l) Hwf Hl) as (h1 & ps & Hrun & Hinv & Hkeys).
  destruct Hinv as (Hwf1 & Hext & Hw & _).
  exists h1. split; [done|]. set (w := hnext h) in *. set (h2 := obj_set h1 l k v).
  set (op := object_prototype (hrealm h)) in *.
  assert (Hlw : l <> w).
  { intros ->. destruct Hl as [? Hl]. pose proof (wf_fresh h Hwf) as Hf. fold w in Hf. congruence. }
  assert (Hown : own_prop h1 w k = None).
  { unfold own_prop. rewrite Hw. simpl. apply assoc_None_keys. rewrite Hkeys.
    unfold wrapper_keys. rewrite list_elem_of_filter. tauto. }
  assert (Hop1 : allocated h op) by (destruct Hwf as [_ []]; done).
  assert (Hrest : lookup_in h2 (chain h1 op) k = None).
  { rewrite (lookup_in_agree h1 h2).
    - by rewrite (lookup_chain_ext h h1).
    - intros l' Hl'. apply own_prop_obj_set_other. intros [= ->].
      by rewrite (chain_ext h h1) in Hl'. }
  assert (Hget : get_value h2 (VObj w) k = Some VUndef).
  { assert (Hc : chain h2 (Some w) = chain h1 (Some w)).
    { pose proof (obj_set_shape h1 l k v) as Hs. unfold chain. destruct Hs as (Hn & _).
      fold h2 in Hn. rewrite Hn. apply chain_from_shape, obj_set_shape. }
    unfold get_value. rewrite Hc, (chain_unfold h1 w _ Hwf1 Hw). simpl.
    unfold h2. rewrite own_prop_obj_set_other, Hown by congruence. fold h2. by rewrite Hrest. }
  unfold invoke, bind, js_get. rewrite Hget. by apply call_not_callable.
Qed.

(** A wrapper of a wrapper: the outer member [k] is an adapter of the
    inner accessor, so a call of it runs the accessor's body on the
    target and answers its result, or the outer wrapper when falsy. *)
Lemma double_wrap n h l k args :
  heap_wf h -> is_data_member h l k = true -> fp_apply h = ApplyBuiltin ->
  exists h1 h2,
    create (VObj l) h = Ok (VObj (hnext h)) h1
    /\ create (VObj (hnext h)) h1 = Ok (VObj (hnext h1)) h2
    /\ own_prop h2 l k = own_prop h l k
    /\ invoke (S (S n)) (VObj (hnext h1)) k args h2
       = match prop_body k (VObj l) (VObj (hnext h)) args h2 with
         | Ok r h' => Ok (js_or r (VObj (hnext h1))) h'
         | Err e h' => Err e h'
         end.
Proof.
  intros Hwf Hk Hfp.
  destruct (create_accessor h l k Hwf Hk) as (h1 & f1 & p & Hrun1 & Hwf1 & Hext1 & Hf1 & Hc1 & Hp1 & _ & Ha1).
  set (w1 := hnext h) in *.
  assert (Hb : blocked h1 k = false).
  { rewrite (blocked_ext h h1) by done. unfold is_data_member in Hk.
    destruct (own_prop h l k); [|done]. apply andb_prop in Hk as [_ Hb]. by apply negb_true_iff. }
  pose proof (own_prop_allocated _ _ _ _ Hf1) as Hw1.
  destruct (create_member h1 (VObj w1) Hwf1 Hw1) as (h2 & Hrun2 & Hwf2 & Hext2 & Hm).
  destruct (Hm k) as (f2 & Hf2 & Hc2 & _); [by eapply wrapper_keys_own|].
  rewrite (closure_for_function h1 w1 k (data_prop (VObj f1))) in Hc2
    by (done || (cbn [pvalue data_prop]; unfold typeof; by rewrite Hc1)).
  assert (Hg1 : get_value h2 (VObj w1) k = Some (VObj f1)).
  { apply (get_value_own _ _ _ (data_prop (VObj f1))).
    rewrite (own_prop_ext h1 h2); [done|apply Hext2|done]. }
  assert (Hc1' : code_of h2 (VObj f1) = Some (PropAccessor k (VObj l) (VObj w1)))
    by (rewrite (code_of_ext h1 h2); [done|done|by eapply code_of_ok]).
  exists h1, h2. split; [done|]. split; [done|]. split.
  { assert (Hl : is_Some (hmem h !! l)) by (unfold is_data_member in Hk;
      destruct (own_prop h l k) eqn:E; [by eapply own_prop_allocated|done]).
    rewrite (own_prop_ext h1 h2), (own_prop_ext h h1); [done|apply Hext1|done|apply Hext2|].
    by eapply own_prop_allocated. }
  rewrite (invoke_code (S n) h2 _ k args (VObj f2) _ (get_value_own _ _ _ _ Hf2) Hc2).
  rewrite <-(call_S (S n) (VObj f2) (VObj (hnext h1)) args h2 _ Hc2).
  assert (Ha2 : get_apply h2 (VObj f1) = Some ApplyBuiltin)
    by (rewrite (get_apply_ext h1 h2), Ha1, Hfp; [done|done|done|by eapply code_of_ok]).
  rewrite (adapter_call (S n) h2 (VObj f2) _ args k (VObj w1) (VObj (hnext h1)) (VObj f1) Hc2 Hg1 Ha2).
  by rewrite (call_S n (VObj f1) (VObj w1) args h2 _ Hc1').
Qed.

(** C26 (wrapping a wrapper): every member of a wrapper is a function,
    so [create(w1)] gives [w2] an adapter for each of [w1]'s members.
    For a data member [k] of the target, [w2.k(v)] writes [v] through
    [w1]'s accessor to the target and returns [w1], not [w2]: the
    accessor's answer is the truthy object [w1], which the adapter
    returns as is. *)
Theorem wrap_wrapper_setter n h l k v :
  heap_wf h -> is_data_member h l k = true -> is_undefined v = false -> fp_apply h = ApplyBuiltin ->
  exists h1 h2,
    create (VObj l) h = Ok (VObj (hnext h)) h1
    /\ create (VObj (hnext h)) h1 = Ok (VObj (hnext h1)) h2
    /\ invoke (S (S n)) (VObj (hnext h1)) k [v] h2 = Ok (VObj (hnext h)) (obj_set h2 l k v).
Proof.
  intros Hwf Hk Hv Hfp. destruct (double_wrap n h l k [v] Hwf Hk Hfp) as (h1 & h2 & H1 & H2 & _ & Hinv).
  exists h1, h2. split; [done|]. split; [done|].
  rewrite Hinv, (prop_body_write k (VObj l) (VObj (hnext h)) [v] h2 Hv). done.
Qed.

(** C28 (a falsy read through a wrapper of a wrapper): [w2.k()] reads
    the target's [k] through [w1]'s accessor and, the adapter applying
    [|| chain] to it, answers the outer wrapper [w2] instead of a falsy
    value ([0], [""], [false], [null], [undefined]); a truthy value is
    answered as is. *)
Theorem wrap_wrapper_read n h l k p :
  heap_wf h -> is_data_member h l k = true -> own_prop h l k = Some p -> fp_apply h = ApplyBuiltin ->
  exists h1 h2,
    create (VObj l) h = Ok (VObj (hnext h)) h1
    /\ create (VObj (hnext h)) h1 = Ok (VObj (hnext h1)) h2
    /\ invoke (S (S n)) (VObj (hnext h1)) k [] h2
       = Ok (if to_boolean (pvalue p) then pvalue p else VObj (hnext h1)) h2.
Proof.
  intros Hwf Hk Hp Hfp. destruct (double_wrap n h l k [] Hwf Hk Hfp) as (h1 & h2 & H1 & H2 & Hown & Hinv).
  exists h1, h2. split; [done|]. split; [done|].
  rewrite Hinv, (prop_body_read k (VObj l) (VObj (hnext h)) [] h2) by done.
  unfold get_outcome. rewrite Hp in Hown. by rewrite (get_value_own _ _ _ _ Hown).
Qed.
End Sharing.

(** ** Witnesses *)

Lemma two_wrappers_share_witness :
  exists h1 h2 h3,
    create (VObj 13) point_heap = Ok (VObj 14) h1
    /\ create (VObj 13) h1 = Ok (VObj (hnext h1)) h2
    /\ 14%positive <> hnext h1
    /\ invoke 1 (VObj 14) "x" [VNum 5] h2 = Ok (VObj 14) h3
    /\ invoke 1 (VObj (hnext h1)) "x" [] h3 = Ok (VNum 5) h3
    /\ get_value h3 (VObj 13) "x" = Some (VNum 5).
Proof.
  apply (two_wrappers_share 0 point_heap 13 "x" (VNum 5)); [|vm_compute; reflexivity..].
  apply (bool_decide_unpack _). vm_compute. reflexivity.
Defined.

Lemma added_key_not_wrapped_witness :
  exists h1, create bob demo_heap = Ok bob_w h1
    /\ invoke 2 bob_w "age" [] (obj_set h1 8 "age" (VNum 30))
       = Err TypeError (obj_set h1 8 "age" (VNum 30)).
Proof.
  apply (added_key_not_wrapped 2 demo_heap 8 "age" (VNum 30) []).
  - apply (bool_decide_unpack _). vm_compute. reflexivity.
  - vm_compute. by eexists.
  - apply (bool_decide_unpack _). vm_compute. reflexivity.
  - apply (bool_decide_unpack _). vm_compute. reflexivity.
  - vm_compute. reflexivity.
Defined.

Lemma wrap_wrapper_setter_witness :
  exists h1 h2,
    create (VObj 13) point_heap = Ok (VObj 14) h1
    /\ create (VObj 14) h1 = Ok (VObj (hnext h1)) h2
    /\ invoke 2 (VObj (hnext h1)) "x" [VNum 5] h2 = Ok (VObj 14) (obj_set h2 13 "x" (VNum 5)).
Proof.
  apply (wrap_wrapper_setter 0 point_heap 13 "x" (VNum 5)); [|vm_compute; reflexivity..].
  apply (bool_decide_unpack _). vm_compute. reflexivity.
Defined.

Lemma wrap_wrapper_read_witness :
  exists h1 h2,
    create (VObj 13) point_heap = Ok (VObj 14) h1
    /\ create (VObj 14) h1 = Ok (VObj (hnext h1)) h2
    /\ invoke 2 (VObj (hnext h1)) "x" [] h2 = Ok (VObj (hnext h1)) h2.
Proof.
  apply (wrap_wrapper_read 0 point_heap 13 "x" (data_prop (VNum 0))); [|vm_compute; reflexivity..].
  apply (bool_decide_unpack _). vm_compute. reflexivity.
Defined.
